(** * The transaction relay of the gateway (frontend-api/server.js)

    A shallow embedding of the gateway side of the relay protocol:
    input sanitisation and validation of [/api/send], message signing and
    serialisation in [enviarTransaccionTCP], the TLS options of the channel
    to the transaction server, the event handlers of the socket, and the
    schema of the nonce ledger created by [setup_database.js]; and of what
    stands around it: registration, login and the token check, the
    listing and the statistics of movements, the setup script and the
    shutdown on a signal.

    Conventions of the embedding.
    - A JavaScript string is the list of its UTF-16 code units, each an [N].
    - A JavaScript number is kept as the exact decimal value it was read
      from; the only facts used about its rounding to a double are whether
      the result is zero, whether it is an infinity, whether it is an
      integer a port can be, and what its sign is.
    - [process.env] is a finite map from variable names to strings.
    - The runtime (clock, random generator, socket events) is an explicit
      argument; the calls the program makes on the socket are recorded in
      a trace.
    - The database is a record of tables, each a list of rows; a query is
      a function on it, and the libraries for passwords and tokens are a
      record of functions. *)

From Stdlib Require Import ZArith NArith List String Ascii Bool Lia.
From Stdlib Require Import Sorted Permutation.
From Stdlib.Strings Require Import Byte.
From stdpp Require Import base gmap list strings.
Import ListNotations.

Local Open Scope N_scope.

Notation jsstring := (list N).

(** ** The parts of the JavaScript runtime the gateway relies on *)

Module JS.

(** The code units of an ASCII literal of the source. *)
Definition js (s : string) : jsstring :=
  map N_of_ascii (list_ascii_of_string s).

(** WhiteSpace and LineTerminator code points of ECMAScript: what
    [String.prototype.trim] strips and what [parseFloat] and [parseInt]
    skip at the start of their argument. *)
Definition isWhiteSpace (c : N) : bool :=
  (c =? 0x09) || (c =? 0x0A) || (c =? 0x0B) || (c =? 0x0C) || (c =? 0x0D)
  || (c =? 0x20) || (c =? 0xA0) || (c =? 0x1680)
  || ((0x2000 <=? c) && (c <=? 0x200A))
  || (c =? 0x2028) || (c =? 0x2029) || (c =? 0x202F) || (c =? 0x205F)
  || (c =? 0x3000) || (c =? 0xFEFF).

Fixpoint trimStart (s : jsstring) : jsstring :=
  match s with
  | c :: r => if isWhiteSpace c then trimStart r else s
  | [] => []
  end.

Definition trimEnd (s : jsstring) : jsstring := rev (trimStart (rev s)).

(** [s.trim()] *)
Definition trim (s : jsstring) : jsstring := trimEnd (trimStart s).

(** [s.split(sep)] for a separator of one code unit: the fields between
    the separators, at least one field. *)
Fixpoint split (sep : N) (s : jsstring) : list jsstring :=
  match s with
  | [] => [[]]
  | c :: r =>
      if c =? sep then [] :: split sep r
      else match split sep r with
           | f :: fs => (c :: f) :: fs
           | [] => [[c]]
           end
  end.

Fixpoint startsWith (p s : jsstring) : bool :=
  match p, s with
  | [], _ => true
  | a :: p', b :: s' => (a =? b) && startsWith p' s'
  | _ :: _, [] => false
  end.

(** [a === b] on strings *)
Fixpoint jsstring_eqb (a b : jsstring) : bool :=
  match a, b with
  | [], [] => true
  | x :: a', y :: b' => (x =? y) && jsstring_eqb a' b'
  | _, _ => false
  end.

(** ** JavaScript numbers and values *)

(** [Decimal neg m e] stands for the double nearest to the decimal value
    [(-1)^neg * m * 10^e]: zero when the value is too small, an infinity
    when it is beyond the largest double. Tests on numbers are defined on
    the decimal value so that they agree with the tests on that double. *)
Inductive JsNumber :=
| NaN
| Infinity (neg : bool)
| Decimal (neg : bool) (m : N) (e : Z).

(** A decimal value [m * 10^e] rounds to the double zero exactly when it is
    at most [2^-1075], half of the least positive double (ties go to the
    even neighbour, which is zero). *)
Definition rounds_to_zero (m : N) (e : Z) : bool :=
  if (0 <=? e)%Z then m =? 0
  else (Z.of_N m * 2 ^ 1075 <=? 10 ^ (- e))%Z.

Definition isNaN (x : JsNumber) : bool :=
  match x with NaN => true | _ => false end.

(** [x <= 0] *)
Definition le_zero (x : JsNumber) : bool :=
  match x with
  | NaN => false
  | Infinity neg => neg
  | Decimal neg m e => neg || rounds_to_zero m e
  end.

(** A decimal value [m * 10^e] rounds to an infinity exactly when it is
    at least [2^1024 - 2^970], half way from the largest double to
    [2^1024] (ties go to the even neighbour, which is the infinity). *)
Definition rounds_to_infinity (m : N) (e : Z) : bool :=
  if (0 <=? e)%Z then (2 ^ 1024 - 2 ^ 970 <=? Z.of_N m * 10 ^ e)%Z
  else ((2 ^ 1024 - 2 ^ 970) * 10 ^ (- e) <=? Z.of_N m)%Z.

(** [Number.isFinite(x)] *)
Definition isFinite (x : JsNumber) : bool :=
  match x with
  | NaN | Infinity _ => false
  | Decimal _ m e => negb (rounds_to_infinity m e)
  end.

(** [x < 0] *)
Definition lt_zero (x : JsNumber) : bool :=
  match x with
  | NaN => false
  | Infinity neg => neg
  | Decimal neg m e => neg && negb (rounds_to_zero m e)
  end.

(** The values a field of a JSON body can hold, and [undefined] for a
    field that is absent. [VObject] is an object that is not an array and
    has no property named [length]; an object with such a property is
    not represented. *)
#[warnings="-register-all"] Inductive JsValue :=
| VUndefined
| VNull
| VBool (b : bool)
| VNumber (x : JsNumber)
| VString (s : jsstring)
| VObject
| VArray (items : list JsValue).

(** ToBoolean *)
Definition truthy (v : JsValue) : bool :=
  match v with
  | VUndefined | VNull => false
  | VBool b => b
  | VNumber NaN => false
  | VNumber (Infinity _) => true
  | VNumber (Decimal _ m e) => negb (rounds_to_zero m e)
  | VString s => match s with [] => false | _ => true end
  | VObject | VArray _ => true
  end.

Definition isDigit (c : N) : bool := (48 <=? c) && (c <=? 57).

(** The longest prefix of decimal digits, and what follows it. *)
Fixpoint span_digits (s : jsstring) : jsstring * jsstring :=
  match s with
  | c :: r =>
      if isDigit c then let '(d, t) := span_digits r in (c :: d, t)
      else ([], s)
  | [] => ([], [])
  end.

Definition digits_value (ds : jsstring) : N :=
  fold_left (fun acc d => 10 * acc + (d - 48)) ds 0.

Definition read_sign (s : jsstring) : bool * jsstring :=
  match s with
  | 45 :: r => (true, r)
  | 43 :: r => (false, r)
  | _ => (false, s)
  end.

(** The exponent part [e], [E] with an optional sign and at least one
    digit; anything else is not part of the numeral and counts as no
    exponent. *)
Definition read_exponent (s : jsstring) : Z :=
  match s with
  | c :: r =>
      if (c =? 101) || (c =? 69) then
        let '(eneg, r') := read_sign r in
        let '(ed, _) := span_digits r' in
        match ed with
        | [] => 0%Z
        | _ => if eneg then (- Z.of_N (digits_value ed))%Z
               else Z.of_N (digits_value ed)
        end
      else 0%Z
  | [] => 0%Z
  end.

(** [parseFloat(s)]: leading white space is skipped, then the longest
    prefix that is a StrDecimalLiteral is read; [NaN] if there is none. *)
Definition parseFloat (s : jsstring) : JsNumber :=
  let '(neg, s2) := read_sign (trimStart s) in
  if startsWith (js "Infinity") s2 then Infinity neg
  else
    let '(ip, r1) := span_digits s2 in
    let '(fp, r2) :=
      match r1 with
      | 46 :: r => span_digits r
      | _ => ([], r1)
      end in
    match ip ++ fp with
    | [] => NaN
    | ds => Decimal neg (digits_value ds)
              (read_exponent r2 - Z.of_nat (length fp))
    end.

Definition isHexDigit (c : N) : bool :=
  isDigit c || ((97 <=? c) && (c <=? 102)) || ((65 <=? c) && (c <=? 70)).

Definition hex_digit_value (c : N) : N :=
  if isDigit c then c - 48
  else if (97 <=? c) && (c <=? 102) then c - 87
  else c - 55.

Fixpoint span_hex (s : jsstring) : jsstring * jsstring :=
  match s with
  | c :: r =>
      if isHexDigit c then let '(d, t) := span_hex r in (c :: d, t)
      else ([], s)
  | [] => ([], [])
  end.

Definition hex_value (ds : jsstring) : N :=
  fold_left (fun acc d => 16 * acc + hex_digit_value d) ds 0.

(** [parseInt(v)] with no radix: the argument is converted to a string
    ([undefined] gives a string with no digits), leading white space and a
    sign are skipped, a [0x] prefix selects base 16, and the longest run of
    digits is read. *)
Definition parseInt (v : option jsstring) : JsNumber :=
  match v with
  | None => NaN
  | Some s =>
      let '(neg, s2) := read_sign (trimStart s) in
      match s2 with
      | 48 :: x :: r =>
          if (x =? 120) || (x =? 88) then
            match fst (span_hex r) with
            | [] => NaN
            | ds => Decimal neg (hex_value ds) 0
            end
          else
            Decimal neg (digits_value (fst (span_digits s2))) 0
      | _ =>
          match fst (span_digits s2) with
          | [] => NaN
          | ds => Decimal neg (digits_value ds) 0
          end
      end
  end.

(** [a || b] on numbers *)
Definition num_or (a b : JsNumber) : JsNumber :=
  if truthy (VNumber a) then a else b.

Definition isOctalDigit (c : N) : bool := (48 <=? c) && (c <=? 55).

Definition isBinaryDigit (c : N) : bool := (c =? 48) || (c =? 49).

Definition radix_value (radix : N) (ds : jsstring) : N :=
  fold_left (fun acc d => radix * acc + hex_digit_value d) ds 0.

(** A numeral with a prefix, [0x], [0o] or [0b] in either case: digits
    of that base up to the end, at least one. [None] for a string without
    such a prefix. *)
Definition non_decimal_literal (t : jsstring) : option JsNumber :=
  match t with
  | 48 :: x :: ds =>
      let literal (digit : N -> bool) (radix : N) :=
        match ds with
        | [] => NaN
        | _ :: _ =>
            if forallb digit ds then Decimal false (radix_value radix ds) 0
            else NaN
        end in
      if (x =? 120) || (x =? 88) then Some (literal isHexDigit 16)
      else if (x =? 111) || (x =? 79) then Some (literal isOctalDigit 8)
      else if (x =? 98) || (x =? 66) then Some (literal isBinaryDigit 2)
      else None
  | _ => None
  end.

(** The exponent part where the numeral has to end with it: nothing, or
    [e] or [E], an optional sign and digits up to the end. *)
Definition whole_exponent (s : jsstring) : option Z :=
  match s with
  | [] => Some 0%Z
  | c :: r =>
      if (c =? 101) || (c =? 69) then
        let '(eneg, r') := read_sign r in
        match span_digits r' with
        | ((_ :: _) as ed, []) =>
            Some (if eneg then (- Z.of_N (digits_value ed))%Z
                  else Z.of_N (digits_value ed))
        | _ => None
        end
      else None
  end.

(** [+s], ToNumber on a string: white space at both ends is dropped, the
    empty string is 0, and what is left has to be one numeral as a whole,
    [NaN] otherwise. *)
Definition StringToNumber (s : jsstring) : JsNumber :=
  match trim s with
  | [] => Decimal false 0 0
  | t =>
      match non_decimal_literal t with
      | Some x => x
      | None =>
          let '(neg, s2) := read_sign t in
          if jsstring_eqb s2 (js "Infinity") then Infinity neg
          else
            let '(ip, r1) := span_digits s2 in
            let '(fp, r2) :=
              match r1 with
              | 46 :: r => span_digits r
              | _ => ([], r1)
              end in
            match ip ++ fp, whole_exponent r2 with
            | (_ :: _) as ds, Some ex =>
                Decimal neg (digits_value ds) (ex - Z.of_nat (length fp))
            | _, _ => NaN
            end
      end
  end.

(** A decimal value [m * 10^e] rounds to an integer from 0 to 65535
    exactly when it is within half a step of the doubles of one: with [f]
    its integer part, the doubles from [f] to [f + 1] are [2^(b - 52)]
    apart, [b] being the position of the leading bit of [f], and a tie
    goes to the integer, whose last bit is 0; below 1 the value rounds to
    0 or to 1, the doubles just under 1 being [2^-53] apart. *)
Definition rounds_to_port (m : N) (e : Z) : bool :=
  let p := (Z.of_N m * 10 ^ Z.max e 0)%Z in
  let q := (10 ^ Z.max (- e) 0)%Z in
  let f := (p / q)%Z in
  if (65535 <? f)%Z then false
  else if (f =? 0)%Z then
    rounds_to_zero m e || ((q - p) * 2 ^ 54 <=? q)%Z
  else
    let w := (2 ^ (53 - Z.log2 f))%Z in
    ((p - f * q) * w <=? q)%Z
    || ((f <? 65535)%Z && (((f + 1) * q - p) * w <=? q)%Z).

(** [x === (x >>> 0) && !(x > 0xFFFF)]: the number is an integer from 0
    to 65535, the negative zero included. *)
Definition is_port (x : JsNumber) : bool :=
  match x with
  | NaN | Infinity _ => false
  | Decimal neg m e => if neg then rounds_to_zero m e else rounds_to_port m e
  end.

End JS.

Import JS.

(** ** Sanitisation (server.js, [sanitizeInput]) *)

Definition is_markup_char (c : N) : bool :=
  (c =? 60) || (c =? 62) || (c =? 39) || (c =? 34).

(** The global replace of [sanitizeInput]: every less-than sign,
    greater-than sign, apostrophe and double quote is deleted. *)
Definition strip_markup (s : jsstring) : jsstring :=
  List.filter (fun c => negb (is_markup_char c)) s.

Definition sanitizeInput (input : JsValue) : jsstring :=
  match input with
  | VString s => strip_markup (trim s)
  | _ => []
  end.

(** ** Node's crypto module: random bytes, hex digests, HMAC-SHA256

    SHA-256 follows FIPS 180-4 and HMAC follows RFC 2104, on bytes kept as
    numbers below 256 and words kept as numbers below [2^32]. *)

Module NodeCrypto.

Definition hex_char (d : N) : N := if d <? 10 then 48 + d else 87 + d.

(** [buf.toString('hex')]: two lowercase hexadecimal digits per byte. *)
Definition to_hex (bytes : list N) : jsstring :=
  flat_map (fun b => [hex_char (b / 16); hex_char (b mod 16)]) bytes.

Definition is_high_surrogate (c : N) : bool := (0xD800 <=? c) && (c <=? 0xDBFF).
Definition is_low_surrogate (c : N) : bool := (0xDC00 <=? c) && (c <=? 0xDFFF).

Definition replacement_utf8 : list N := [0xEF; 0xBF; 0xBD].

(** The UTF-8 bytes Node hashes or writes for a string: surrogate pairs
    give one four-byte sequence, a lone surrogate gives U+FFFD. *)
Fixpoint utf8 (s : jsstring) : list N :=
  match s with
  | [] => []
  | c :: r =>
      if is_high_surrogate c then
        match r with
        | d :: r' =>
            if is_low_surrogate d then
              let cp := 0x10000 + (c - 0xD800) * 0x400 + (d - 0xDC00) in
              [0xF0 + cp / 0x40000; 0x80 + (cp / 0x1000) mod 64;
               0x80 + (cp / 64) mod 64; 0x80 + cp mod 64] ++ utf8 r'
            else replacement_utf8 ++ utf8 r
        | [] => replacement_utf8
        end
      else if is_low_surrogate c then replacement_utf8 ++ utf8 r
      else if c <? 0x80 then c :: utf8 r
      else if c <? 0x800 then [0xC0 + c / 64; 0x80 + c mod 64] ++ utf8 r
      else [0xE0 + c / 0x1000; 0x80 + (c / 64) mod 64; 0x80 + c mod 64]
             ++ utf8 r
  end.

Definition word_mask : N := 0xFFFFFFFF.
Definition wadd (a b : N) : N := N.land (a + b) word_mask.
Definition wnot (a : N) : N := N.lxor (N.land a word_mask) word_mask.
Definition rotr (n x : N) : N :=
  N.land (N.lor (N.shiftr x n) (N.shiftl x (32 - n))) word_mask.

Definition choose (x y z : N) : N :=
  N.lxor (N.land x y) (N.land (wnot x) z).
Definition majority (x y z : N) : N :=
  N.lxor (N.lxor (N.land x y) (N.land x z)) (N.land y z).
Definition big_sigma0 (x : N) : N :=
  N.lxor (N.lxor (rotr 2 x) (rotr 13 x)) (rotr 22 x).
Definition big_sigma1 (x : N) : N :=
  N.lxor (N.lxor (rotr 6 x) (rotr 11 x)) (rotr 25 x).
Definition small_sigma0 (x : N) : N :=
  N.lxor (N.lxor (rotr 7 x) (rotr 18 x)) (N.shiftr x 3).
Definition small_sigma1 (x : N) : N :=
  N.lxor (N.lxor (rotr 17 x) (rotr 19 x)) (N.shiftr x 10).

(** The first 64 primes. *)
Definition primes : list N :=
  [2; 3; 5; 7; 11; 13; 17; 19; 23; 29; 31; 37; 41; 43; 47; 53; 59; 61; 67;
   71; 73; 79; 83; 89; 97; 101; 103; 107; 109; 113; 127; 131; 137; 139; 149;
   151; 157; 163; 167; 173; 179; 181; 191; 193; 197; 199; 211; 223; 227;
   229; 233; 239; 241; 251; 257; 263; 269; 271; 277; 281; 283; 293; 307;
   311].

(** The integer cube root, one bit at a time from bit [i - 1] down. *)
Fixpoint cube_root_bits (i : nat) (x r : N) : N :=
  match i with
  | O => r
  | S k =>
      let c := r + 2 ^ N.of_nat k in
      cube_root_bits k x (if c * c * c <=? x then c else r)
  end.

Definition cube_root (x : N) : N := cube_root_bits 40 x 0.

(** The round constants: the first 32 bits of the fractional parts of the
    cube roots of the first 64 primes. *)
Definition round_constants : list N :=
  Eval vm_compute in
    map (fun p => N.land (cube_root (p * 2 ^ 96)) word_mask) primes.

(** The initial hash value: the first 32 bits of the fractional parts of
    the square roots of the first 8 primes. *)
Definition initial_hash : list N :=
  Eval vm_compute in
    map (fun p => N.land (N.sqrt (p * 2 ^ 64)) word_mask) (firstn 8 primes).

(** The message schedule, newest word first while it is being built. *)
Definition schedule_step (rev_w : list N) : list N :=
  wadd (wadd (small_sigma1 (nth 1 rev_w 0)) (nth 6 rev_w 0))
       (wadd (small_sigma0 (nth 14 rev_w 0)) (nth 15 rev_w 0)) :: rev_w.

Definition schedule (block : list N) : list N :=
  rev (Nat.iter 48 schedule_step (rev block)).

Definition round (st : list N) (kw : N * N) : list N :=
  match st with
  | [a; b; c; d; e; f; g; h] =>
      let t1 := wadd (wadd (wadd h (big_sigma1 e)) (choose e f g))
                     (wadd (fst kw) (snd kw)) in
      let t2 := wadd (big_sigma0 a) (majority a b c) in
      [wadd t1 t2; a; b; c; wadd d t1; e; f; g]
  | _ => st
  end.

Definition compress (h : list N) (block : list N) : list N :=
  let st := fold_left round (combine round_constants (schedule block)) h in
  map (fun p => wadd (fst p) (snd p)) (combine h st).

(** Big-endian bytes of a number, [n] of them. *)
Fixpoint be_bytes (n : nat) (x : N) : list N :=
  match n with
  | O => []
  | S n' => be_bytes n' (x / 256) ++ [x mod 256]
  end.

Definition pad (msg : list N) : list N :=
  let len := N.of_nat (length msg) in
  msg ++ [0x80]
      ++ repeat 0 (N.to_nat ((64 + 55 - len mod 64) mod 64))
      ++ be_bytes 8 (8 * len).

Fixpoint be_words (bytes : list N) : list N :=
  match bytes with
  | a :: b :: c :: d :: r =>
      (((a mod 256) * 256 + b mod 256) * 256 + c mod 256) * 256 + d mod 256
        :: be_words r
  | _ => []
  end.

Fixpoint blocks (fuel : nat) (words : list N) : list (list N) :=
  match fuel, words with
  | S k, _ :: _ => firstn 16 words :: blocks k (skipn 16 words)
  | _, _ => []
  end.

Definition sha256 (msg : list N) : list N :=
  let words := be_words (pad msg) in
  flat_map (be_bytes 4)
    (fold_left compress (blocks (length words) words) initial_hash).

Definition block_key (key : list N) : list N :=
  let k := if (64 <? length key)%nat then sha256 key else key in
  k ++ repeat 0 (64 - length k)%nat.

Definition hmac_sha256 (key msg : list N) : list N :=
  let k := block_key key in
  sha256 (map (N.lxor 0x5c) k ++ sha256 (map (N.lxor 0x36) k ++ msg)).

(** The generator behind [crypto.randomBytes]: the bytes it will produce
    and how many it has produced so far. *)
Record Rng := { draw : nat -> byte; drawn : nat }.

Definition randomBytes (n : nat) (g : Rng) : list N * Rng :=
  (map (fun i => Byte.to_N (draw g i)) (seq (drawn g) n),
   {| draw := draw g; drawn := (drawn g + n)%nat |}).

End NodeCrypto.

Import NodeCrypto.

(** ** Cryptographic helpers of server.js *)

Definition generateNonceHex (lenBytes : nat) (g : Rng) : jsstring * Rng :=
  let '(bytes, g') := randomBytes lenBytes g in (to_hex bytes, g').

Definition hmacSha256Hex (key data : jsstring) : jsstring :=
  to_hex (hmac_sha256 (utf8 key) (utf8 data)).

(** ** JSON.stringify on the objects the gateway sends *)

Module JSON.

Definition hex4 (c : N) : jsstring :=
  [hex_char ((c / 4096) mod 16); hex_char ((c / 256) mod 16);
   hex_char ((c / 16) mod 16); hex_char (c mod 16)].

(** [\uXXXX] *)
Definition unicode_escape (c : N) : jsstring := 92 :: 117 :: hex4 c.

(** One code unit that is not part of a surrogate pair. *)
Definition quote_unit (c : N) : jsstring :=
  if c =? 34 then [92; 34]
  else if c =? 92 then [92; 92]
  else if c =? 8 then [92; 98]
  else if c =? 9 then [92; 116]
  else if c =? 10 then [92; 110]
  else if c =? 12 then [92; 102]
  else if c =? 13 then [92; 114]
  else if c <? 32 then unicode_escape c
  else if is_high_surrogate c || is_low_surrogate c then unicode_escape c
  else [c].

(** The characters between the quotes of a JSON string: a surrogate pair
    is copied, a lone surrogate and a control character are escaped. *)
Fixpoint quote_body (s : jsstring) : jsstring :=
  match s with
  | [] => []
  | c :: r =>
      if is_high_surrogate c then
        match r with
        | d :: r' =>
            if is_low_surrogate d then c :: d :: quote_body r'
            else quote_unit c ++ quote_body r
        | [] => quote_unit c
        end
      else quote_unit c ++ quote_body r
  end.

Definition quote (s : jsstring) : jsstring := 34 :: quote_body s ++ [34].

Fixpoint decimal_digits (fuel : nat) (n : N) (acc : jsstring) : jsstring :=
  match fuel with
  | O => acc
  | S k =>
      let acc' := (48 + n mod 10) :: acc in
      if n / 10 =? 0 then acc' else decimal_digits k (n / 10) acc'
  end.

Definition N_to_string (n : N) : jsstring :=
  decimal_digits (S (N.to_nat (N.size n))) n [].

(** Number to string for an integer below [10^21] in absolute value. *)
Definition number_to_string (z : Z) : jsstring :=
  if (z <? 0)%Z then 45 :: N_to_string (Z.abs_N z)
  else N_to_string (Z.to_N z).

(** The property values that occur in the payload. *)
Inductive Atom :=
| AString (s : jsstring)
| AInteger (z : Z).

(** An object literal is the list of its properties in the order they
    were written. *)

Definition stringify_atom (a : Atom) : jsstring :=
  match a with
  | AString s => quote s
  | AInteger z => number_to_string z
  end.

Definition stringify_member (m : jsstring * Atom) : jsstring :=
  quote (fst m) ++ [58] ++ stringify_atom (snd m).

Fixpoint join_members (ms : list (jsstring * Atom)) : jsstring :=
  match ms with
  | [] => []
  | [m] => stringify_member m
  | m :: rest => stringify_member m ++ [44] ++ join_members rest
  end.

Definition stringify (o : list (jsstring * Atom)) : jsstring :=
  [123] ++ join_members o ++ [125].

(** [o[name]]: the value of the first property with that name. *)
Fixpoint property (name : jsstring) (o : list (jsstring * Atom))
    : option Atom :=
  match o with
  | [] => None
  | (k, v) :: rest => if jsstring_eqb k name then Some v else property name rest
  end.

Definition string_property (name : string) (o : list (jsstring * Atom))
    : option jsstring :=
  match property (js name) o with
  | Some (AString s) => Some s
  | _ => None
  end.

Definition integer_property (name : string) (o : list (jsstring * Atom))
    : option Z :=
  match property (js name) o with
  | Some (AInteger z) => Some z
  | _ => None
  end.

End JSON.

(** ** The relay client of server.js *)

(** [process.env.NAME || fallback] on strings: an unset or empty variable
    gives the fallback. *)
Definition env_or (env : gmap string jsstring) (name : string)
    (fallback : jsstring) : jsstring :=
  match env !! name with
  | Some (c :: s) => c :: s
  | _ => fallback
  end.

Definition PYTHON_SERVER_HOST (env : gmap string jsstring) : jsstring :=
  env_or env "PYTHON_SERVER_HOST" (js "127.0.0.1").

(** [process.env.PYTHON_SERVER_PORT || 5030]: the string of the variable,
    or the number 5030. *)
Definition PYTHON_SERVER_PORT (env : gmap string jsstring) : JsValue :=
  match env !! "PYTHON_SERVER_PORT" with
  | Some (c :: s) => VString (c :: s)
  | _ => VNumber (Decimal false 5030 0)
  end.

Record TlsOptions := {
  host : jsstring;
  port : JsValue;
  ca : list (list N);
  rejectUnauthorized : bool;
  minVersion : jsstring;
  maxVersion : jsstring;
  ciphers : jsstring;
  timeout : JsNumber
}.

(** [parseInt(process.env.TLS_TIMEOUT_MS) || 5000] *)
Definition tls_timeout_ms (env : gmap string jsstring) : JsNumber :=
  num_or (parseInt (env !! "TLS_TIMEOUT_MS")) (Decimal false 5000 0).

(** The options object of [enviarTransaccionTCP]; [rootCA] is the content
    of certs/rootCA.pem. *)
Definition tlsOptions (env : gmap string jsstring) (rootCA : list N)
    : TlsOptions :=
  {| host := PYTHON_SERVER_HOST env;
     port := PYTHON_SERVER_PORT env;
     ca := [rootCA];
     rejectUnauthorized := true;
     minVersion := js "TLSv1.3";
     maxVersion := js "TLSv1.3";
     ciphers := js "TLS_AES_256_GCM_SHA384:TLS_CHACHA20_POLY1305_SHA256:TLS_AES_128_GCM_SHA256";
     timeout := tls_timeout_ms env |}.

Record JsError := { err_message : string; err_code : option string }.

Definition dquote : string := String (ascii_of_nat 34) EmptyString.

(** What the runtime can deliver on the socket of one call. *)
Inductive SocketEvent :=
| EvSecureConnect
| EvData (data : jsstring)
| EvTimeout
| EvError (err : JsError).

(** What the program asks of the runtime. *)
Inductive SocketCall :=
| TlsConnect (options : TlsOptions)
| SetEncoding (encoding : string)
| SetTimeout (ms : JsNumber)
| SocketWrite (data : jsstring)
| SocketEnd
| SocketDestroy.

Inductive Settlement :=
| Resolved (value : jsstring)
| Rejected (reason : JsError).

(** One call in progress: the calls made so far, whether the connect
    callback is still waiting (it is registered to run once), and the
    state of the promise. *)
Record Run := {
  calls : list SocketCall;
  connect_listener : bool;
  promise : option Settlement
}.

(** [resolve] and [reject] have no effect on a settled promise. *)
Definition settle (s : Settlement) (p : option Settlement)
    : option Settlement :=
  match p with
  | None => Some s
  | Some _ => p
  end.

Definition timeout_error : JsError :=
  {| err_message := "Timeout de conexión con servidor de transacciones";
     err_code := None |}.

Definition missing_key_error : JsError :=
  {| err_message := "HMAC_KEY no configurada"; err_code := None |}.

(** What [socket.setTimeout] accepts: a number that is finite and not
    negative. *)
Definition valid_timeout (ms : JsNumber) : bool :=
  isFinite ms && negb (lt_zero ms).

(** The range error Node throws for another number; its message ends
    with the value, which is left out here. *)
Definition out_of_range_error : JsError :=
  {| err_message :=
       String.append "The value of "
         (String.append dquote (String.append "msecs"
           (String.append dquote
              (String.append " is out of range. It must be a non-negative"
                 " finite number. Received "))));
     err_code := Some "ERR_OUT_OF_RANGE"%string |}.

(** Node's [validatePort] on the port of the options, which is a string
    or a number: a string must hold more than white space, and the number
    it converts to must be an integer from 0 to 65535. *)
Definition valid_port (port : JsValue) : bool :=
  match port with
  | VNumber x => is_port x
  | VString s =>
      match trim s with
      | [] => false
      | _ :: _ => is_port (StringToNumber s)
      end
  | _ => false
  end.

(** The range error Node throws for another port; its message ends with
    the value, which is left out here. *)
Definition bad_port_error : JsError :=
  {| err_message := "Port should be >= 0 and < 65536. Received ";
     err_code := Some "ERR_SOCKET_BAD_PORT"%string |}.

(** What [tls.connect] throws, if it throws, before it starts to connect:
    it sets the [timeout] of its options on the new socket when that is
    not 0 or [NaN], then hands the options to [net.connect], which checks
    the port. *)
Definition connect_exception (o : TlsOptions) : option JsError :=
  if truthy (VNumber (timeout o)) && negb (valid_timeout (timeout o))
  then Some out_of_range_error
  else if valid_port (port o) then None
  else Some bad_port_error.

(** The listeners of [enviarTransaccionTCP]. *)
Definition on_event (payload : jsstring) (r : Run) (ev : SocketEvent) : Run :=
  match ev with
  | EvSecureConnect =>
      if connect_listener r then
        {| calls := calls r ++ [SocketWrite (payload ++ [10])];
           connect_listener := false;
           promise := promise r |}
      else r
  | EvData data =>
      {| calls := calls r ++ [SocketEnd];
         connect_listener := connect_listener r;
         promise := settle (Resolved (trim data)) (promise r) |}
  | EvTimeout =>
      {| calls := calls r ++ [SocketDestroy];
         connect_listener := connect_listener r;
         promise := settle (Rejected timeout_error) (promise r) |}
  | EvError err =>
      {| calls := calls r ++ [SocketEnd];
         connect_listener := connect_listener r;
         promise := settle (Rejected err) (promise r) |}
  end.

(** [`${nonce}|${timestamp}|${usuario}|${mensaje}`] *)
Definition dataToSign (nonce : jsstring) (timestamp : Z)
    (usuario mensaje : jsstring) : jsstring :=
  nonce ++ [124] ++ JSON.number_to_string timestamp ++ [124]
        ++ usuario ++ [124] ++ mensaje.

(** The object literal handed to [JSON.stringify]. *)
Definition payload_object (usuario mensaje nonce : jsstring) (timestamp : Z)
    (mac : jsstring) : list (jsstring * JSON.Atom) :=
  [ (js "tipo", JSON.AString (js "MSG"));
    (js "usuario", JSON.AString usuario);
    (js "mensaje", JSON.AString mensaje);
    (js "nonce", JSON.AString nonce);
    (js "timestamp", JSON.AInteger timestamp);
    (js "mac", JSON.AString mac) ].

(** What [enviarTransaccionTCP] computes between its guard and the
    options of the channel: nonce, timestamp, string to sign, tag and
    serialised payload, from the key, the random generator and the clock
    ([Date.now()] in milliseconds; the division rounds down as
    [Math.floor] does). *)
Definition compose (HMAC_KEY : jsstring) (g : Rng) (now_ms : Z)
    (usuario mensaje : jsstring) : jsstring * Rng :=
  let '(nonce, g') := generateNonceHex 16 g in
  let timestamp := (now_ms / 1000)%Z in
  let mac := hmacSha256Hex HMAC_KEY (dataToSign nonce timestamp usuario mensaje) in
  (JSON.stringify (payload_object usuario mensaje nonce timestamp mac), g').

(** [enviarTransaccionTCP]. An exception thrown inside the executor
    rejects the promise: when [tls.connect] throws no socket comes back,
    nothing more is called and no event is listened for. The timeout
    handed to [socket.setTimeout] afterwards is the one [tls.connect] has
    accepted. The certificate file is taken to be readable and to hold a
    certificate. *)
Definition enviarTransaccionTCP (env : gmap string jsstring) (rootCA : list N)
    (g : Rng) (now_ms : Z) (usuario mensaje : jsstring)
    (events : list SocketEvent) : Run * Rng :=
  match env !! "HMAC_KEY" with
  | Some (k :: ey) =>
      let '(payload, g') := compose (k :: ey) g now_ms usuario mensaje in
      match connect_exception (tlsOptions env rootCA) with
      | None =>
          let opened :=
            {| calls := [TlsConnect (tlsOptions env rootCA);
                         SetEncoding "utf8";
                         SetTimeout (tls_timeout_ms env)];
               connect_listener := true;
               promise := None |} in
          (fold_left (on_event payload) events opened, g')
      | Some thrown =>
          ({| calls := [TlsConnect (tlsOptions env rootCA)];
              connect_listener := false;
              promise := Some (Rejected thrown) |}, g')
      end
  | _ =>
      ({| calls := []; connect_listener := false;
          promise := Some (Rejected missing_key_error) |}, g)
  end.

(** ** The endpoint POST /api/send *)

Inductive ReplyBody :=
| BodyError (error : string)
| BodyRespuesta (respuesta : jsstring).

Record Reply := { status : N; body : ReplyBody }.

Definition error_falta_mensaje : string := "Falta el campo mensaje".
Definition error_mensaje_invalido : string :=
  "mensaje inválido o excede los 250 caracteres".
Definition error_formato : string :=
  "Formato de mensaje inválido. Esperado: tipo,cantidad,categoria,descripcion".
Definition error_tipo : string :=
  String.append "El tipo debe ser "
    (String.append dquote (String.append "ingreso"
      (String.append dquote (String.append " o "
        (String.append dquote (String.append "gasto" dquote)))))).
Definition error_cantidad : string :=
  "La cantidad debe ser un número positivo".
Definition error_tls : string :=
  "Error de comunicación segura con el servidor de transacciones.".
Definition error_no_disponible : string :=
  "Servidor de transacciones no disponible. Intente más tarde.".
Definition error_interno : string := "Error interno del servidor".

Definition bad_request (error : string) : Reply :=
  {| status := 400; body := BodyError error |}.

(** The checks of the handler before anything is sent: either the reply
    that ends the request, or the sanitised message to relay. *)
Definition check_mensaje (mensaje : JsValue) : Reply + jsstring :=
  if negb (truthy mensaje) then inl (bad_request error_falta_mensaje)
  else
    match mensaje with
    | VString s =>
        if (250 <? length s)%nat then inl (bad_request error_mensaje_invalido)
        else
          let sanitizedMensaje := sanitizeInput mensaje in
          let partes := split 44 sanitizedMensaje in
          if negb (length partes =? 4)%nat then inl (bad_request error_formato)
          else
            let tipo := nth 0 partes [] in
            if negb (jsstring_eqb tipo (js "ingreso"))
               && negb (jsstring_eqb tipo (js "gasto"))
            then inl (bad_request error_tipo)
            else
              let cantidad := parseFloat (nth 1 partes []) in
              if isNaN cantidad || le_zero cantidad
              then inl (bad_request error_cantidad)
              else inr sanitizedMensaje
    | _ => inl (bad_request error_mensaje_invalido)
    end.

(** The global error middleware, reached through [next(err)]. *)
Definition error_middleware (err : JsError) : Reply :=
  {| status := 500; body := BodyError error_interno |}.

(** The catch block of the handler. *)
Definition on_rejection (err : JsError) : Reply :=
  match err_code err with
  | Some code =>
      if String.prefix "ERR_TLS_" code then
        {| status := 500; body := BodyError error_tls |}
      else if String.eqb code "ECONNREFUSED" then
        {| status := 503; body := BodyError error_no_disponible |}
      else error_middleware err
  | None => error_middleware err
  end.

(** The handler: the reply if one is sent ([None] while the promise of
    [enviarTransaccionTCP] is pending), the calls made on the socket, and
    the random generator afterwards. *)
Definition api_send (env : gmap string jsstring) (rootCA : list N)
    (g : Rng) (now_ms : Z) (usuariodelToken : jsstring) (mensaje : JsValue)
    (events : list SocketEvent) : option Reply * list SocketCall * Rng :=
  match check_mensaje mensaje with
  | inl reply => (Some reply, [], g)
  | inr sanitizedMensaje =>
      let '(run, g') :=
        enviarTransaccionTCP env rootCA g now_ms usuariodelToken
          sanitizedMensaje events in
      match promise run with
      | Some (Resolved respuestaServidor) =>
          (Some {| status := 200; body := BodyRespuesta respuestaServidor |},
           calls run, g')
      | Some (Rejected err) => (Some (on_rejection err), calls run, g')
      | None => (None, calls run, g')
      end
  end.

(** ** The record on the wire and its reader *)

Module Wire.

Record TransactionMessage := {
  msg_tipo : jsstring;
  msg_usuario : jsstring;
  msg_mensaje : jsstring;
  msg_nonce : jsstring;
  msg_timestamp : Z;
  msg_mac : jsstring
}.

(** What the gateway writes for a message: [socket.write(payload + '\n')]
    with the payload of [enviarTransaccionTCP]. *)
Definition encode (m : TransactionMessage) : jsstring :=
  JSON.stringify
    (payload_object (msg_usuario m) (msg_mensaje m) (msg_nonce m)
       (msg_timestamp m) (msg_mac m)) ++ [10].

(** Modelled from the spec: a helper of the string reader below, which
    puts one more character in front of what has been read. *)
Definition prepend (c : N) (r : option (jsstring * jsstring))
    : option (jsstring * jsstring) :=
  match r with
  | Some (s, rest) => Some (c :: s, rest)
  | None => None
  end.

(** Modelled from the spec: the character a two-character escape of the
    record format stands for, as the absent deserialiser has to read it. *)
Definition simple_escape (e : N) : option N :=
  if e =? 34 then Some 34
  else if e =? 92 then Some 92
  else if e =? 47 then Some 47
  else if e =? 98 then Some 8
  else if e =? 102 then Some 12
  else if e =? 110 then Some 10
  else if e =? 114 then Some 13
  else if e =? 116 then Some 9
  else None.

(** Modelled from the spec: the string reader of the transaction server's
    deserialiser (transaccion-server/serversocket.py is not among the
    sources). It reads the characters of a JSON string up to its closing
    quote and returns them with the rest of the input. *)
Fixpoint parse_string_body (s : jsstring) : option (jsstring * jsstring) :=
  match s with
  | [] => None
  | c :: rest =>
      if c =? 34 then Some ([], rest)
      else if c =? 92 then
        match rest with
        | e :: rest1 =>
            if e =? 117 then
              match rest1 with
              | h1 :: h2 :: h3 :: h4 :: rest2 =>
                  if forallb isHexDigit [h1; h2; h3; h4]
                  then prepend (hex_value [h1; h2; h3; h4])
                         (parse_string_body rest2)
                  else None
              | _ => None
              end
            else
              match simple_escape e with
              | Some u => prepend u (parse_string_body rest1)
              | None => None
              end
        | [] => None
        end
      else if c <? 32 then None
      else prepend c (parse_string_body rest)
  end.

(** Modelled from the spec: the integer reader of the same deserialiser,
    an optional minus sign and at least one digit. *)
Definition parse_integer (s : jsstring) : option (JSON.Atom * jsstring) :=
  let '(neg, s1) :=
    match s with
    | c :: r => if c =? 45 then (true, r) else (false, s)
    | [] => (false, s)
    end in
  let '(ds, rest) := span_digits s1 in
  match ds with
  | [] => None
  | _ =>
      let v := Z.of_N (digits_value ds) in
      Some (JSON.AInteger (if neg then (- v)%Z else v), rest)
  end.

(** Modelled from the spec: a property value of the record, a string or
    an integer. *)
Definition parse_atom (s : jsstring) : option (JSON.Atom * jsstring) :=
  match s with
  | c :: r =>
      if c =? 34 then
        match parse_string_body r with
        | Some (v, rest) => Some (JSON.AString v, rest)
        | None => None
        end
      else parse_integer s
  | [] => None
  end.

(** Modelled from the spec: the properties of the record after its opening
    brace, up to and including the closing brace. Each property costs one
    unit of fuel. *)
Fixpoint parse_members (fuel : nat) (s : jsstring)
    : option (list (jsstring * JSON.Atom) * jsstring) :=
  match fuel with
  | O => None
  | S k =>
      match s with
      | q :: s1 =>
          if q =? 34 then
            match parse_string_body s1 with
            | Some (key, colon :: s2) =>
                if colon =? 58 then
                  match parse_atom s2 with
                  | Some (v, sep :: s3) =>
                      if sep =? 125 then Some ([(key, v)], s3)
                      else if sep =? 44 then
                        match parse_members k s3 with
                        | Some (ms, rest) => Some ((key, v) :: ms, rest)
                        | None => None
                        end
                      else None
                  | _ => None
                  end
                else None
            | _ => None
            end
          else None
      | [] => None
      end
  end.

(** Modelled from the spec: the structured record of one line. *)
Definition parse_object (s : jsstring)
    : option (list (jsstring * JSON.Atom) * jsstring) :=
  match s with
  | open :: r =>
      if open =? 123 then
        match r with
        | close :: r' =>
            if close =? 125 then Some ([], r')
            else parse_members (length r) r
        | [] => None
        end
      else None
  | [] => None
  end.

(** Modelled from the spec: [decode] of section 4.1 and step 1 of section
    4.3, the deserialiser of the transaction server, which is not among
    the sources. One newline-terminated line is parsed as a structured
    record with the fields of section 6; a malformed line, a missing
    field, a field of the wrong type or a kind other than MSG gives
    [None]. *)
Definition decode (line : jsstring) : option TransactionMessage :=
  match parse_object line with
  | Some (o, rest) =>
      if jsstring_eqb rest [10] then
        match JSON.string_property "tipo" o, JSON.string_property "usuario" o,
              JSON.string_property "mensaje" o, JSON.string_property "nonce" o,
              JSON.integer_property "timestamp" o,
              JSON.string_property "mac" o with
        | Some t, Some u, Some m, Some n, Some ts, Some tag =>
            if jsstring_eqb t (js "MSG") then
              Some {| msg_tipo := t; msg_usuario := u; msg_mensaje := m;
                      msg_nonce := n; msg_timestamp := ts; msg_mac := tag |}
            else None
        | _, _, _, _, _, _ => None
        end
      else None
  | None => None
  end.

End Wire.

(** ** The nonce ledger (setup_database.js, table nonces_usados) *)

Module Ledger.

(** A row of nonces_usados: [id SERIAL PRIMARY KEY],
    [usuario VARCHAR(32) NOT NULL], [nonce VARCHAR(64) UNIQUE NOT NULL],
    [fecha TIMESTAMP DEFAULT CURRENT_TIMESTAMP]. *)
Record NonceRecord := {
  id : N;
  usuario : jsstring;
  nonce : jsstring;
  fecha : Z
}.

(** The table: its rows in insertion order and the next value of the
    sequence behind [id]. *)
Record Table := { rows : list NonceRecord; next_id : N }.

Definition empty_table : Table := {| rows := []; next_id := 1 |}.


(** [DROP TABLE IF EXISTS nonces_usados] *)
Definition drop_table_if_exists (db : option Table) : option Table := None.

(** [CREATE TABLE nonces_usados (...)]: fails if the table exists. *)
Definition create_table (db : option Table) : option (option Table) :=
  match db with
  | None => Some (Some empty_table)
  | Some _ => None
  end.

(** Modelled from the spec: the test behind the uniqueness constraint,
    for the insertion below. *)
Definition nonce_used (n : jsstring) (t : Table) : bool :=
  existsb (fun r => jsstring_eqb (nonce r) n) (rows t).

(** Modelled from the spec: the verifier's insertion of a consumed nonce
    (section 4.3, step 4; transaccion-server/database.py is not among the
    sources), under the constraints the table was created with. A value
    longer than its column is refused and leaves the table as it was; a
    nonce already present is refused too, after the sequence has handed
    out an id; in both cases the rows are as they were. Lengths are
    counted in code units, which are characters in the hexadecimal
    nonces of the gateway and in the names it accepts. *)
Definition insert (u n : jsstring) (now : Z) (t : Table) : Table :=
  if (32 <? length u)%nat || (64 <? length n)%nat then t
  else if nonce_used n t then
    {| rows := rows t; next_id := next_id t + 1 |}
  else
    {| rows := rows t ++ [{| id := next_id t; usuario := u; nonce := n;
                             fecha := now |}];
       next_id := next_id t + 1 |}.


End Ledger.

(** ** Statements of the specification, in its own words *)

Module Spec.

(** The canonical string: the fields joined with a literal pipe. *)
Fixpoint join_with_pipe (fields : list jsstring) : jsstring :=
  match fields with
  | [] => []
  | [f] => f
  | f :: rest => f ++ [124] ++ join_with_pipe rest
  end.

Definition canonical_string (nonce : jsstring) (timestamp : Z)
    (identity command : jsstring) : jsstring :=
  join_with_pipe [nonce; JSON.number_to_string timestamp; identity; command].

Definition is_lower_hex (c : N) : bool :=
  isDigit c || ((97 <=? c) && (c <=? 102)).

(** A decimal amount: digits, optionally a point and more digits. *)
Definition is_decimal_amount (s : jsstring) : bool :=
  let '(ip, r) := span_digits s in
  match ip, r with
  | [], _ => false
  | _, [] => true
  | _, c :: f =>
      (c =? 46) && negb (length f =? 0)%nat && forallb isDigit f
  end.

Definition is_positive_amount (s : jsstring) : bool :=
  is_decimal_amount s && existsb (fun c => isDigit c && negb (c =? 48)) s.

(** The shape section 6 gives a command: four comma-separated sub-fields,
    an operation kind, a positive decimal amount, a category and a
    description. *)
Definition command_shape (command : jsstring) : Prop :=
  exists tipo cantidad categoria descripcion,
    split 44 command = [tipo; cantidad; categoria; descripcion]
    /\ (tipo = js "ingreso" \/ tipo = js "gasto")
    /\ is_positive_amount cantidad = true.

(** No white space at the start, at the end. *)
Definition starts_clean (s : jsstring) : Prop :=
  match s with
  | c :: _ => isWhiteSpace c = false
  | [] => True
  end.

Definition ends_clean (s : jsstring) : Prop := starts_clean (rev s).

(** The versions Node's tls module can be asked for, oldest first. *)
Definition tls_versions : list jsstring :=
  [js "TLSv1"; js "TLSv1.1"; js "TLSv1.2"; js "TLSv1.3"].

(** The cipher suites of TLS 1.3 (RFC 8446, appendix B.4), all of them
    authenticated encryption with associated data. *)
Definition aead_suites : list jsstring :=
  [js "TLS_AES_128_GCM_SHA256"; js "TLS_AES_256_GCM_SHA384";
   js "TLS_CHACHA20_POLY1305_SHA256"; js "TLS_AES_128_CCM_SHA256";
   js "TLS_AES_128_CCM_8_SHA256"].

End Spec.

(** ** Reading a run *)

Definition is_connect (c : SocketCall) : bool :=
  match c with TlsConnect _ => true | _ => false end.

Definition is_write (c : SocketCall) : bool :=
  match c with SocketWrite _ => true | _ => false end.

Definition closes (c : SocketCall) : bool :=
  match c with SocketEnd | SocketDestroy => true | _ => false end.

Definition is_secure_connect (ev : SocketEvent) : bool :=
  match ev with EvSecureConnect => true | _ => false end.

(** What a listener settles the promise with, if it settles it. *)
Definition settlement_of (ev : SocketEvent) : option Settlement :=
  match ev with
  | EvSecureConnect => None
  | EvData data => Some (Resolved (trim data))
  | EvTimeout => Some (Rejected timeout_error)
  | EvError err => Some (Rejected err)
  end.

Fixpoint first_settlement (events : list SocketEvent) : option Settlement :=
  match events with
  | [] => None
  | ev :: rest =>
      match settlement_of ev with
      | Some s => Some s
      | None => first_settlement rest
      end
  end.

(** The bytes the generator hands out next, and the nonce made of them. *)
Definition next_bytes (n : nat) (g : Rng) : list N :=
  map (fun i => Byte.to_N (draw g i)) (seq (drawn g) n).

Definition next_nonce (g : Rng) : jsstring := to_hex (next_bytes 16 g).

Definition advance (n : nat) (g : Rng) : Rng :=
  {| draw := draw g; drawn := (drawn g + n)%nat |}.

(** The state right after [tls.connect] and the two setters. *)
Definition opened (env : gmap string jsstring) (rootCA : list N) : Run :=
  {| calls := [TlsConnect (tlsOptions env rootCA); SetEncoding "utf8";
               SetTimeout (tls_timeout_ms env)];
     connect_listener := true;
     promise := None |}.

(** What may follow a numeral: nothing, or a character that is not a
    digit. *)
Definition not_digit_first (s : jsstring) : Prop :=
  match s with c :: _ => isDigit c = false | [] => True end.

(** A string with no line feed in it. *)
Definition no_newline (s : jsstring) : Prop := Forall (fun c => c <> 10) s.

(** The names of the properties of the payload, in order. *)
Definition payload_fields : list jsstring :=
  [js "tipo"; js "usuario"; js "mensaje"; js "nonce"; js "timestamp";
   js "mac"].

(** ** Readings of the specification that fail on the code *)

Module Claimed.

(** Section 4.4: the status line of the peer is returned unchanged. *)
Definition returns_status_line_verbatim : Prop :=
  forall (env : gmap string jsstring) rootCA g now_ms usuario mensaje key line,
    env !! "HMAC_KEY" = Some key -> key <> [] -> ~ In 10 line ->
    promise (fst (enviarTransaccionTCP env rootCA g now_ms usuario mensaje
                    [EvSecureConnect; EvData (line ++ [10])]))
    = Some (Resolved line).

(** Section 6: a command is relayed only if it has the shape of a
    command. *)
Definition relays_only_shaped_commands : Prop :=
  forall command sanitized,
    check_mensaje (VString command) = inr sanitized ->
    Spec.command_shape command.


End Claimed.

(** ** Sample inputs *)

Module Sample.

Definition env : gmap string jsstring := {[ "HMAC_KEY"%string := js "K" ]}.

Definition env_timeout : gmap string jsstring :=
  <[ "TLS_TIMEOUT_MS"%string := js "1500" ]> env.

Definition rng : Rng := {| draw := fun i => Byte.x2a; drawn := 0 |}.

Definition rootCA : list N := js "-----BEGIN CERTIFICATE-----".

Definition now_ms : Z := 1700000000123.

Definition usuario : jsstring := js "alice".

Definition mensaje : jsstring := js "ingreso,100.00,salary,paycheck".



Definition record : Ledger.NonceRecord :=
  {| Ledger.id := 1; Ledger.usuario := js "alice";
     Ledger.nonce := js "030a11181f262d343b424950575e656c";
     Ledger.fecha := 1700000000 |}.

Definition ledger : option Ledger.Table :=
  Some (Ledger.insert (js "alice") (js "030a11181f262d343b424950575e656c")
          1700000000 Ledger.empty_table).


Definition env_negative : gmap string jsstring :=
  <[ "TLS_TIMEOUT_MS"%string := js "-5" ]> env.

Definition env_port : gmap string jsstring :=
  <[ "PYTHON_SERVER_PORT"%string := js "99999" ]> env.

End Sample.

(** ** Accounts: the table usuarios, registration, login and the token
    check of server.js *)

Module Auth.

(** The two libraries behind the handlers. [bcrypt_hash salt rounds clave]
    is [bcrypt.hash(clave, rounds)] with the random salt it draws, [None]
    when the library reports an error; [bcrypt_compare clave hash] is
    [bcrypt.compare]; [jwt_sign secret usuario expiresIn now] is
    [jwt.sign({ usuario }, secret, { expiresIn, issuer })], [None] when it
    throws; [jwt_verify secret token now] is [jwt.verify], giving the
    [usuario] of the payload of a token it accepts. *)
Record Libraries := {
  bcrypt_hash : list N -> JsNumber -> jsstring -> option jsstring;
  bcrypt_compare : jsstring -> jsstring -> bool;
  jwt_sign : jsstring -> jsstring -> jsstring -> Z -> option jsstring;
  jwt_verify : jsstring -> jsstring -> Z -> option jsstring
}.

(** A row of usuarios: [id SERIAL PRIMARY KEY],
    [usuario VARCHAR(32) NOT NULL UNIQUE], [clave VARCHAR(255) NOT NULL],
    [fecha_registro TIMESTAMP DEFAULT CURRENT_TIMESTAMP]. *)
Record UserRow := {
  user_id : N;
  user_usuario : jsstring;
  user_clave : jsstring;
  user_fecha : Z
}.

Record UserTable := { user_rows : list UserRow; user_next_id : N }.

Definition empty_users : UserTable := {| user_rows := []; user_next_id := 1 |}.

(** [SELECT ... FROM usuarios WHERE usuario = $1] *)
Definition select_usuario (u : jsstring) (t : UserTable) : list UserRow :=
  List.filter (fun r => jsstring_eqb (user_usuario r) u) (user_rows t).

(** What an INSERT into usuarios can end with: the row is stored, or the
    database raises an error with its code (23505 for a duplicate
    usuario, 22001 for a value longer than its column). *)
Inductive InsertOutcome :=
| Inserted
| DbError (code : string).

(** [INSERT INTO usuarios (usuario, clave) VALUES ($1, $2)] under the
    constraints of the table. *)
Definition insert_usuario (u h : jsstring) (now : Z) (t : UserTable)
    : InsertOutcome * UserTable :=
  if (32 <? length u)%nat || (255 <? length h)%nat then
    (DbError "22001", t)
  else
    match select_usuario u t with
    | _ :: _ =>
        (DbError "23505",
         {| user_rows := user_rows t; user_next_id := user_next_id t + 1 |})
    | [] =>
        (Inserted,
         {| user_rows := user_rows t
                           ++ [{| user_id := user_next_id t;
                                  user_usuario := u; user_clave := h;
                                  user_fecha := now |}];
            user_next_id := user_next_id t + 1 |})
    end.

(** [parseInt(process.env.NAME) || fallback] *)
Definition env_number (env : gmap string jsstring) (name : string)
    (fallback : N) : JsNumber :=
  num_or (parseInt (env !! name)) (Decimal false fallback 0).

Definition SALT_ROUNDS (env : gmap string jsstring) : JsNumber :=
  env_number env "SALT_ROUNDS" 12.
Definition MAX_PASSWORD_LENGTH (env : gmap string jsstring) : JsNumber :=
  env_number env "MAX_PASSWORD_LENGTH" 128.
Definition MIN_PASSWORD_LENGTH (env : gmap string jsstring) : JsNumber :=
  env_number env "MIN_PASSWORD_LENGTH" 6.

(** [n < x] for a length [n] and a number [x] without a fractional part,
    as parseInt gives them. *)
Definition length_lt (n : nat) (x : JsNumber) : bool :=
  match x with
  | NaN => false
  | Infinity neg => negb neg
  | Decimal neg m e =>
      if neg then false
      else (Z.of_nat n <? Z.of_N m * 10 ^ e)%Z
  end.

(** [n > x], likewise. *)
Definition length_gt (n : nat) (x : JsNumber) : bool :=
  match x with
  | NaN => false
  | Infinity neg => neg
  | Decimal neg m e =>
      if neg then (0 <? Z.of_nat n + Z.of_N m * 10 ^ e)%Z
      else (Z.of_N m * 10 ^ e <? Z.of_nat n)%Z
  end.

(** A character the pattern of user names lets through: a letter, a
    digit, an underscore or a hyphen. *)
Definition is_user_char (c : N) : bool :=
  ((97 <=? c) && (c <=? 122)) || ((65 <=? c) && (c <=? 90))
  || isDigit c || (c =? 95) || (c =? 45).

(** The test of the pattern: one or more such characters and nothing
    else. *)
Definition valid_usuario (u : jsstring) : bool :=
  match u with
  | [] => false
  | _ => forallb is_user_char u
  end.

(** The body of a reply: an error text, an error text with a number
    spliced in between two parts, or a result. *)
Inductive AuthBody :=
| AuthError (error : string)
| AuthErrorWith (before : string) (number : JsNumber) (after : string)
| AuthResult (exito : bool) (mensaje : string) (token : option jsstring).

Record AuthReply := { auth_status : N; auth_body : AuthBody }.

Definition refuse (code : N) (error : string) : AuthReply :=
  {| auth_status := code; auth_body := AuthError error |}.

Definition answer (exito : bool) (mensaje : string) (token : option jsstring)
    : AuthReply :=
  {| auth_status := 200; auth_body := AuthResult exito mensaje token |}.

Definition error_requeridos : string := "usuario y clave requeridos".
Definition error_usuario_longitud : string :=
  "usuario inválido (3-32 caracteres)".
Definition error_clave_corta : string := "clave muy corta (mínimo ".
Definition error_clave_larga : string := "clave muy larga (máximo ".
Definition error_caracteres : string := " caracteres)".
Definition error_usuario_caracteres : string :=
  "usuario solo puede contener letras, números, guiones y guiones bajos".
Definition error_credenciales : string := "Usuario o contraseña incorrectos".
Definition error_sin_token : string :=
  "Acceso denegado. No se proporcionó token.".
Definition error_token : string := "Token inválido o expirado.".
Definition mensaje_ya_registrado : string := "Usuario ya registrado.".
Definition mensaje_registrado : string := "Usuario registrado exitosamente.".
Definition mensaje_login : string := "Login correcto".

(** What [next(err)] ends in. *)
Definition internal_error : AuthReply := refuse 500 error_interno.

(** [clave.length] where there is one: a string and an array have a
    length, the other values have none, and a comparison with
    [undefined] is false. *)
Definition clave_length (clave : JsValue) : option nat :=
  match clave with
  | VString p => Some (length p)
  | VArray items => Some (length items)
  | _ => None
  end.

(** The handler of POST /api/register: the reply and the table
    afterwards. bcrypt refuses a password that is not a string. *)
Definition register (L : Libraries) (env : gmap string jsstring)
    (salt : list N) (now : Z) (body_usuario clave : JsValue) (t : UserTable)
    : AuthReply * UserTable :=
  let usuario := sanitizeInput body_usuario in
  if negb (truthy (VString usuario)) || negb (truthy clave)
  then (refuse 400 error_requeridos, t)
  else if (length usuario <? 3)%nat || (32 <? length usuario)%nat
  then (refuse 400 error_usuario_longitud, t)
  else if match clave_length clave with
          | Some n => length_lt n (MIN_PASSWORD_LENGTH env)
          | None => false
          end
  then ({| auth_status := 400;
           auth_body := AuthErrorWith error_clave_corta
                          (MIN_PASSWORD_LENGTH env) error_caracteres |}, t)
  else if match clave_length clave with
          | Some n => length_gt n (MAX_PASSWORD_LENGTH env)
          | None => false
          end
  then ({| auth_status := 400;
           auth_body := AuthErrorWith error_clave_larga
                          (MAX_PASSWORD_LENGTH env) error_caracteres |}, t)
  else if negb (valid_usuario usuario)
  then (refuse 400 error_usuario_caracteres, t)
  else
    match clave with
    | VString p =>
        match bcrypt_hash L salt (SALT_ROUNDS env) p with
        | Some hashed =>
            match select_usuario usuario t with
            | _ :: _ => (answer false mensaje_ya_registrado None, t)
            | [] =>
                match insert_usuario usuario hashed now t with
                | (Inserted, t') => (answer true mensaje_registrado None, t')
                | (DbError code, t') =>
                    if String.eqb code "23505"
                    then (answer false mensaje_ya_registrado None, t')
                    else (internal_error, t')
                end
            end
        | None => (internal_error, t)
        end
    | _ => (internal_error, t)
    end.

(** [process.env.JWT_EXPIRATION || '1h'] *)
Definition JWT_EXPIRATION (env : gmap string jsstring) : jsstring :=
  env_or env "JWT_EXPIRATION" (js "1h").

(** The handler of POST /api/login, behind its rate limiter. Signing
    throws without a secret. *)
Definition login (L : Libraries) (env : gmap string jsstring) (now : Z)
    (body_usuario clave : JsValue) (t : UserTable) : AuthReply :=
  let usuario := sanitizeInput body_usuario in
  if negb (truthy (VString usuario)) || negb (truthy clave)
  then refuse 400 error_requeridos
  else
    match select_usuario usuario t with
    | [] => refuse 401 error_credenciales
    | row :: _ =>
        match clave with
        | VString p =>
            if bcrypt_compare L p (user_clave row) then
              match env !! "JWT_SECRET" with
              | Some (c :: s) =>
                  match jwt_sign L (c :: s) usuario (JWT_EXPIRATION env) now with
                  | Some token => answer true mensaje_login (Some token)
                  | None => internal_error
                  end
              | _ => internal_error
              end
            else refuse 401 error_credenciales
        | _ => internal_error
        end
    end.

(** [authHeader && authHeader.split(' ')[1]]: nothing when the header is
    absent or has no second word; an empty header gives the empty
    string. *)
Definition bearer_token (authHeader : option jsstring) : option jsstring :=
  match authHeader with
  | None => None
  | Some [] => Some []
  | Some h => nth_error (split 32 h) 1
  end.

(** The middleware verificarToken: the reply that ends the request, or
    the [usuario] of the verified token for the handler behind it.
    Verification fails without a secret. *)
Definition verificarToken (L : Libraries) (env : gmap string jsstring)
    (now : Z) (authHeader : option jsstring) : Reply + jsstring :=
  match bearer_token authHeader with
  | None => inl {| status := 401; body := BodyError error_sin_token |}
  | Some token =>
      match env !! "JWT_SECRET" with
      | Some (c :: s) =>
          match jwt_verify L (c :: s) token now with
          | Some usuario => inr usuario
          | None => inl {| status := 403; body := BodyError error_token |}
          end
      | _ => inl {| status := 403; body := BodyError error_token |}
      end
  end.

(** The route POST /api/send: the token check, then the handler. *)
Definition send_route (L : Libraries) (env : gmap string jsstring)
    (rootCA : list N) (g : Rng) (now_ms : Z) (authHeader : option jsstring)
    (mensaje : JsValue) (events : list SocketEvent)
    : option Reply * list SocketCall * Rng :=
  match verificarToken L env (now_ms / 1000) authHeader with
  | inl reply => (Some reply, [], g)
  | inr usuario => api_send env rootCA g now_ms usuario mensaje events
  end.


End Auth.

(** ** Movements: the table movimientos, its listing and the statistics
    view *)

Module Movimientos.

(** A row of movimientos. [cantidad DECIMAL(10, 2)] is kept in
    hundredths; [descripcion] may be null; [fecha] is taken to hold a
    date, as it does by default. *)
Record Movimiento := {
  mov_id : N;
  nombre_usuario_fk : jsstring;
  mov_tipo : jsstring;
  mov_cantidad : Z;
  mov_categoria : jsstring;
  mov_descripcion : option jsstring;
  mov_fecha : Z;
  mov_nonce : jsstring
}.

(** The columns GET /api/movimientos selects. *)
Record Fila := {
  tipo : jsstring;
  cantidad : Z;
  categoria : jsstring;
  descripcion : option jsstring;
  fecha : Z
}.

Definition columnas (m : Movimiento) : Fila :=
  {| tipo := mov_tipo m; cantidad := mov_cantidad m;
     categoria := mov_categoria m; descripcion := mov_descripcion m;
     fecha := mov_fecha m |}.

Definition de_usuario (u : jsstring) (m : Movimiento) : bool :=
  jsstring_eqb (nombre_usuario_fk m) u.

(** [ORDER BY fecha DESC], by insertion; rows of the same date keep the
    order they are met in, which SQL leaves open. *)
Fixpoint insert_by_fecha (m : Movimiento) (l : list Movimiento)
    : list Movimiento :=
  match l with
  | [] => [m]
  | x :: r =>
      if (mov_fecha x <? mov_fecha m)%Z then m :: l
      else x :: insert_by_fecha m r
  end.

Definition order_by_fecha_desc (l : list Movimiento) : list Movimiento :=
  fold_right insert_by_fecha [] l.

(** The query of GET /api/movimientos:
    [SELECT tipo, cantidad, categoria, descripcion, fecha FROM movimientos
     WHERE nombre_usuario_fk = $1 ORDER BY fecha DESC LIMIT 50]. *)
Definition get_movimientos (usuario : jsstring) (table : list Movimiento)
    : list Fila :=
  map columnas
    (firstn 50 (order_by_fecha_desc (List.filter (de_usuario usuario) table))).

(** A row of the view v_estadisticas_usuario, and the object the handler
    answers with; the numbers are kept as values, whatever their
    rendering in JSON. *)
Record Estadisticas := {
  est_usuario : jsstring;
  total_movimientos : N;
  total_ingresos : Z;
  total_gastos : Z;
  balance_total : Z;
  ultimo_movimiento : option Z
}.

(** [usuarios u LEFT JOIN movimientos m ON u.usuario = m.nombre_usuario_fk]:
    a user without movements gives one row with nulls on the right. *)
Definition join_rows (movs : list Movimiento) (u : Auth.UserRow)
    : list (Auth.UserRow * option Movimiento) :=
  match List.filter (de_usuario (Auth.user_usuario u)) movs with
  | [] => [(u, None)]
  | ms => map (fun m => (u, Some m)) ms
  end.

Definition left_join (users : list Auth.UserRow) (movs : list Movimiento)
    : list (Auth.UserRow * option Movimiento) :=
  flat_map (join_rows movs) users.

(** The values of a column, each once, in the order they first appear. *)
Fixpoint distinct (keys : list jsstring) : list jsstring :=
  match keys with
  | [] => []
  | k :: r => k :: List.filter (fun k' => negb (jsstring_eqb k' k)) (distinct r)
  end.

(** [CASE WHEN m.tipo = kind THEN m.cantidad ELSE 0 END]; a null [tipo]
    takes the ELSE branch. *)
Definition cantidad_si (kind : jsstring) (m : option Movimiento) : Z :=
  match m with
  | Some m => if jsstring_eqb (mov_tipo m) kind then mov_cantidad m else 0%Z
  | None => 0%Z
  end.

Definition suma (xs : list Z) : Z := fold_right Z.add 0%Z xs.

(** [MAX] over the values that are not null; null when there is none. *)
Definition maximo (xs : list (option Z)) : option Z :=
  fold_right
    (fun x acc =>
       match x, acc with
       | Some a, Some b => Some (Z.max a b)
       | Some a, None => Some a
       | None, _ => acc
       end)
    None xs.

(** The select list of the view over one group. *)
Definition agregar (usuario : jsstring)
    (grupo : list (Auth.UserRow * option Movimiento)) : Estadisticas :=
  let ms := map snd grupo in
  let ingresos := suma (map (cantidad_si (js "ingreso")) ms) in
  let gastos := suma (map (cantidad_si (js "gasto")) ms) in
  {| est_usuario := usuario;
     total_movimientos :=
       N.of_nat (length (List.filter (fun m => match m with Some _ => true
                                                         | None => false end) ms));
     total_ingresos := ingresos;
     total_gastos := gastos;
     balance_total := (ingresos - gastos)%Z;
     ultimo_movimiento := maximo (map (option_map mov_fecha) ms) |}.

(** The view v_estadisticas_usuario of setup_database.js: the join,
    grouped by [u.usuario]. *)
Definition v_estadisticas_usuario (users : list Auth.UserRow)
    (movs : list Movimiento) : list Estadisticas :=
  let joined := left_join users movs in
  map
    (fun k =>
       agregar k
         (List.filter (fun r => jsstring_eqb (Auth.user_usuario (fst r)) k)
            joined))
    (distinct (map (fun r => Auth.user_usuario (fst r)) joined)).

(** The handler of GET /api/estadisticas: the first row of the view for
    the user, or zeros when there is none. *)
Definition get_estadisticas (usuario : jsstring) (users : list Auth.UserRow)
    (movs : list Movimiento) : Estadisticas :=
  match List.filter (fun r => jsstring_eqb (est_usuario r) usuario)
          (v_estadisticas_usuario users movs) with
  | [] =>
      {| est_usuario := usuario; total_movimientos := 0;
         total_ingresos := 0; total_gastos := 0; balance_total := 0;
         ultimo_movimiento := None |}
  | r :: _ => r
  end.

(** [CHECK (tipo IN ('ingreso', 'gasto'))] *)
Definition tipo_check (m : Movimiento) : bool :=
  jsstring_eqb (mov_tipo m) (js "ingreso")
  || jsstring_eqb (mov_tipo m) (js "gasto").

End Movimientos.

(** ** The setup script, setup_database.js *)

Module Setup.

Definition maxRetries : nat := 10.
Definition retryDelay : N := 2000.

(** The connection loop: attempt [i] succeeds when [connects i] holds.
    The result is the attempt that connected, if any, with the
    milliseconds spent waiting between attempts. *)
Fixpoint connect_from (fuel i : nat) (connects : nat -> bool) (waited : N)
    : option nat * N :=
  match fuel with
  | O => (None, waited)
  | S k =>
      if connects i then (Some i, waited)
      else if (i =? maxRetries)%nat then (None, waited)
      else connect_from k (S i) connects (waited + retryDelay)
  end.

Definition connect (connects : nat -> bool) : option nat * N :=
  connect_from maxRetries 1 connects 0.

(** The database: each table if it exists, and whether the view does. *)
Record Database := {
  usuarios : option Auth.UserTable;
  movimientos : option (list Movimientos.Movimiento);
  nonces_usados : option Ledger.Table;
  vista : bool
}.

(** The users the script registers. *)
Definition usuarios_iniciales : list (jsstring * jsstring) :=
  [(js "admin", js "admin")].

Definition SALT_ROUNDS : JsNumber := Decimal false 12 0.

(** Step 1: one hash per user, each with its own salt; [None] if bcrypt
    fails for one of them. *)
Fixpoint hash_all (L : Auth.Libraries) (salts : nat -> list N) (i : nat)
    (users : list (jsstring * jsstring)) : option (list (jsstring * jsstring)) :=
  match users with
  | [] => Some []
  | (u, clave) :: rest =>
      match Auth.bcrypt_hash L (salts i) SALT_ROUNDS clave with
      | Some h =>
          match hash_all L salts (S i) rest with
          | Some hs => Some ((u, h) :: hs)
          | None => None
          end
      | None => None
      end
  end.

(** A statement sent to the database: the database afterwards, or [None]
    when the database answers with an error. The indexes the script also
    creates hold no data and are left out. *)
Definition Statement := Database -> option Database.

(** [DROP VIEW IF EXISTS v_estadisticas_usuario] *)
Definition drop_view : Statement := fun db =>
  Some {| usuarios := usuarios db; movimientos := movimientos db;
          nonces_usados := nonces_usados db; vista := false |}.

(** [DROP TABLE IF EXISTS movimientos]: refused while the view, which
    reads the table, exists. *)
Definition drop_movimientos : Statement := fun db =>
  match movimientos db with
  | Some _ =>
      if vista db then None
      else Some {| usuarios := usuarios db; movimientos := None;
                   nonces_usados := nonces_usados db; vista := vista db |}
  | None => Some db
  end.

(** [DROP TABLE IF EXISTS nonces_usados] *)
Definition drop_nonces_usados : Statement := fun db =>
  Some {| usuarios := usuarios db; movimientos := movimientos db;
          nonces_usados := Ledger.drop_table_if_exists (nonces_usados db);
          vista := vista db |}.

(** [DROP TABLE IF EXISTS usuarios]: refused while the view reads the
    table or the foreign key of movimientos refers to it. *)
Definition drop_usuarios : Statement := fun db =>
  match usuarios db with
  | Some _ =>
      match movimientos db with
      | Some _ => None
      | None =>
          if vista db then None
          else Some {| usuarios := None; movimientos := movimientos db;
                       nonces_usados := nonces_usados db; vista := vista db |}
      end
  | None => Some db
  end.

(** [CREATE TABLE usuarios (...)]: refused if the table exists. *)
Definition create_usuarios : Statement := fun db =>
  match usuarios db with
  | None =>
      Some {| usuarios := Some Auth.empty_users; movimientos := movimientos db;
              nonces_usados := nonces_usados db; vista := vista db |}
  | Some _ => None
  end.

(** [CREATE TABLE movimientos (...)]: refused if the table exists, or if
    the table its foreign key refers to does not. *)
Definition create_movimientos : Statement := fun db =>
  match movimientos db, usuarios db with
  | None, Some _ =>
      Some {| usuarios := usuarios db; movimientos := Some [];
              nonces_usados := nonces_usados db; vista := vista db |}
  | _, _ => None
  end.

(** [CREATE TABLE nonces_usados (...)] *)
Definition create_nonces_usados : Statement := fun db =>
  match Ledger.create_table (nonces_usados db) with
  | Some t =>
      Some {| usuarios := usuarios db; movimientos := movimientos db;
              nonces_usados := t; vista := vista db |}
  | None => None
  end.

(** The row change of
    [INSERT ... ON CONFLICT (usuario) DO UPDATE SET clave = EXCLUDED.clave]. *)
Definition upsert_usuario (u h : jsstring) (now : Z) (t : Auth.UserTable)
    : Auth.UserTable :=
  match Auth.select_usuario u t with
  | _ :: _ =>
      {| Auth.user_rows :=
           map (fun r =>
                  if jsstring_eqb (Auth.user_usuario r) u
                  then {| Auth.user_id := Auth.user_id r;
                          Auth.user_usuario := Auth.user_usuario r;
                          Auth.user_clave := h;
                          Auth.user_fecha := Auth.user_fecha r |}
                  else r)
               (Auth.user_rows t);
         Auth.user_next_id := Auth.user_next_id t + 1 |}
  | [] =>
      {| Auth.user_rows :=
           Auth.user_rows t
             ++ [{| Auth.user_id := Auth.user_next_id t;
                    Auth.user_usuario := u; Auth.user_clave := h;
                    Auth.user_fecha := now |}];
         Auth.user_next_id := Auth.user_next_id t + 1 |}
  end.

(** The statement itself: refused without the table, or for a value
    longer than its column. *)
Definition insert_or_update (now : Z) (uh : jsstring * jsstring)
    : Statement := fun db =>
  match usuarios db with
  | Some t =>
      if (32 <? length (fst uh))%nat || (255 <? length (snd uh))%nat then None
      else Some {| usuarios := Some (upsert_usuario (fst uh) (snd uh) now t);
                   movimientos := movimientos db;
                   nonces_usados := nonces_usados db; vista := vista db |}
  | None => None
  end.

(** [CREATE OR REPLACE VIEW v_estadisticas_usuario AS ...]: refused
    without the two tables it reads. *)
Definition create_view : Statement := fun db =>
  match usuarios db, movimientos db with
  | Some _, Some _ =>
      Some {| usuarios := usuarios db; movimientos := movimientos db;
              nonces_usados := nonces_usados db; vista := true |}
  | _, _ => None
  end.

(** Steps 3 to 5, in the order of the script. *)
Definition statements (hashes : list (jsstring * jsstring)) (now : Z)
    : list Statement :=
  [drop_view; drop_movimientos; drop_nonces_usados; drop_usuarios;
   create_usuarios; create_movimientos; create_nonces_usados]
  ++ map (insert_or_update now) hashes
  ++ [create_view].

(** The statements are sent one by one, outside a transaction: an error
    stops the script and leaves what the earlier statements did. *)
Fixpoint execute (sts : list Statement) (db : Database) : bool * Database :=
  match sts with
  | [] => (true, db)
  | st :: rest =>
      match st db with
      | Some db' => execute rest db'
      | None => (false, db)
      end
  end.

(** The script: the exit code when it ends the process with one, and the
    database it leaves. The queries of step 6 only read, and the writing
    of the reference file in step 7 is taken to succeed. *)
Definition setupDatabase (L : Auth.Libraries) (salts : nat -> list N)
    (connects : nat -> bool) (now : Z) (db : Database)
    : option N * Database :=
  match hash_all L salts 0 usuarios_iniciales with
  | None => (Some 1, db)
  | Some hashes =>
      match fst (connect connects) with
      | None => (Some 1, db)
      | Some _ =>
          let '(ok, db') := execute (statements hashes now) db in
          (if ok then None else Some 1, db')
      end
  end.

End Setup.

(** ** What happens to the nonce ledger over time *)

Module History.








End History.

(** ** Shutdown on a signal (server.js, gracefulShutdown) *)

Module Shutdown.

Inductive Signal := SIGTERM | SIGINT.

(** What reaches the process: a signal, or the end of [dbPool.end()],
    well or with an error. *)
Inductive Event :=
| Signalled (s : Signal)
| PoolEnded (ok : bool).

(** The flag [isShuttingDown], the signal being handled, how many times
    [dbPool.end()] was called, and the code the process exited with. *)
Record State := {
  isShuttingDown : bool;
  handling : option Signal;
  pool_end_calls : nat;
  exit_code : option N
}.

Definition running : State :=
  {| isShuttingDown := false; handling := None; pool_end_calls := 0;
     exit_code := None |}.

(** [signal === 'SIGINT' ? 130 : 0] *)
Definition exitCode (signal : Signal) : N :=
  match signal with SIGINT => 130 | SIGTERM => 0 end.

(** One step of gracefulShutdown and of its continuation after the
    await; nothing happens once the process has exited. *)
Definition step (st : State) (ev : Event) : State :=
  match exit_code st with
  | Some _ => st
  | None =>
      match ev with
      | Signalled s =>
          if isShuttingDown st then st
          else {| isShuttingDown := true; handling := Some s;
                  pool_end_calls := S (pool_end_calls st);
                  exit_code := None |}
      | PoolEnded _ =>
          match handling st with
          | Some s =>
              {| isShuttingDown := isShuttingDown st;
                 handling := handling st;
                 pool_end_calls := pool_end_calls st;
                 exit_code := Some (exitCode s) |}
          | None => st
          end
      end
  end.

Definition run (events : list Event) : State := fold_left step events running.

(** The first signal among the events. *)
Fixpoint first_signal (events : list Event) : option Signal :=
  match events with
  | [] => None
  | Signalled s :: _ => Some s
  | PoolEnded _ :: rest => first_signal rest
  end.

End Shutdown.

(** ** Well-formed strings *)

(** A string of code units in which every surrogate is half of a pair:
    the strings that are the UTF-16 form of a sequence of characters. *)
Fixpoint well_formed (s : jsstring) : bool :=
  match s with
  | [] => true
  | c :: r =>
      (c <? 0x10000)
      && (if is_high_surrogate c then
            match r with
            | d :: r' => is_low_surrogate d && well_formed r'
            | [] => false
            end
          else negb (is_low_surrogate c) && well_formed r)
  end.

(** ** Requests in sequence, and stand-ins for the two libraries *)

Module Session.

(** A registration request: the salt bcrypt draws for it, the time, and
    the two fields of the body. *)
Record Registration := {
  reg_salt : list N;
  reg_now : Z;
  reg_usuario : JsValue;
  reg_clave : JsValue
}.

(** The table after a series of registrations, handled one after the
    other. *)
Definition register_all (L : Auth.Libraries) (env : gmap string jsstring)
    (requests : list Registration) (t : Auth.UserTable) : Auth.UserTable :=
  fold_left
    (fun t r =>
       snd (Auth.register L env (reg_salt r) (reg_now r) (reg_usuario r)
              (reg_clave r) t))
    requests t.

(** A password check with the interface of bcrypt and none of its
    strength, for the examples: the hash is the salt, a dollar sign and
    the password. *)
Definition plain_hash (salt : list N) (rounds : JsNumber) (clave : jsstring)
    : option jsstring :=
  Some (salt ++ 36 :: clave).

Definition plain_compare (clave hash : jsstring) : bool :=
  match split 36 hash with
  | [_; stored] => jsstring_eqb clave stored
  | _ => false
  end.

(** A token with the interface of a JSON Web Token, for the examples:
    the user name, a dot and the secret. *)
Definition plain_sign (secret usuario expiresIn : jsstring) (now : Z)
    : option jsstring :=
  Some (usuario ++ 46 :: secret).

Definition plain_verify (secret token : jsstring) (now : Z)
    : option jsstring :=
  match split 46 token with
  | [usuario; key] => if jsstring_eqb key secret then Some usuario else None
  | _ => None
  end.

Definition plain_libraries : Auth.Libraries :=
  {| Auth.bcrypt_hash := plain_hash; Auth.bcrypt_compare := plain_compare;
     Auth.jwt_sign := plain_sign; Auth.jwt_verify := plain_verify |}.

Definition env : gmap string jsstring :=
  <[ "JWT_SECRET"%string := js "s3cret" ]> Sample.env.

Definition salt : list N := js "0123".

Definition alice : Registration :=
  {| reg_salt := salt; reg_now := 1700000000;
     reg_usuario := VString (js " alice "); reg_clave := VString (js "wonderland") |}.

Definition bob : Registration :=
  {| reg_salt := salt; reg_now := 1700000100;
     reg_usuario := VString (js "bob_2"); reg_clave := VString (js "builder") |}.

(** Two accounts and three movements of the first. *)
Definition users : list Auth.UserRow :=
  [ {| Auth.user_id := 1; Auth.user_usuario := js "alice";
       Auth.user_clave := js "0123$wonderland"; Auth.user_fecha := 1700000000 |};
    {| Auth.user_id := 2; Auth.user_usuario := js "bob_2";
       Auth.user_clave := js "0123$builder"; Auth.user_fecha := 1700000100 |} ].

Definition movement (n : N) (tipo : jsstring) (cents fecha : Z)
    : Movimientos.Movimiento :=
  {| Movimientos.mov_id := n; Movimientos.nombre_usuario_fk := js "alice";
     Movimientos.mov_tipo := tipo; Movimientos.mov_cantidad := cents;
     Movimientos.mov_categoria := js "home"; Movimientos.mov_descripcion := None;
     Movimientos.mov_fecha := fecha; Movimientos.mov_nonce := [] |}.

Definition movements : list Movimientos.Movimiento :=
  [ movement 1 (js "ingreso") 100000 1700000200;
    movement 2 (js "gasto") 2550 1700000400;
    movement 3 (js "gasto") 1000 1700000300 ].



End Session.

(** Digests and serialised payloads are not unfolded by simplification. *)
Arguments sha256 : simpl never.
Arguments hmac_sha256 : simpl never.
Arguments hmacSha256Hex : simpl never.
Arguments utf8 : simpl never.
Arguments to_hex : simpl never.
Arguments compose : simpl never.
Arguments JSON.stringify : simpl never.
Arguments JSON.quote : simpl never.
Arguments JSON.number_to_string : simpl never.
Arguments tlsOptions : simpl never.
Arguments valid_timeout : simpl never.
Arguments valid_port : simpl never.
Arguments connect_exception : simpl never.
Arguments tls_timeout_ms : simpl never.

(** * Properties *)

(** ** Test vectors *)

Section TestVectors.

(** FIPS 180-4, the one-block message. *)
Example sha256_abc :
  to_hex (sha256 (js "abc"))
  = js "ba7816bf8f01cfea414140de5dae2223b00361a396177a9cb410ff61f20015ad".
Proof. vm_compute. reflexivity. Qed.

(** FIPS 180-4, the two-block message. *)
Example sha256_two_blocks :
  to_hex (sha256
            (js "abcdbcdecdefdefgefghfghighijhijkijkljklmklmnlmnomnopnopq"))
  = js "248d6a61d20638b8e5c026930c3e6039a33ce45964ff2167f6ecedd419db06c1".
Proof. vm_compute. reflexivity. Qed.

(** RFC 4231, test case 2. *)
Example hmac_rfc4231_case2 :
  hmacSha256Hex (js "Jefe") (js "what do ya want for nothing?")
  = js "5bdcc146bf60754e6a042426089575c75a003f089d2739839dec58b964ec3843".
Proof. vm_compute. reflexivity. Qed.

(** A key longer than a block is hashed first. *)
Example hmac_long_key :
  hmacSha256Hex
    (js "0123456789012345678901234567890123456789012345678901234567890123456789")
    (js "a1b2|1700000000|alice|ingreso,100.00,salary,paycheck")
  = js "5e58cbdd060358e0587a2bb96b93d3b425e96aa8d0bb65bdb5461881094165d3".
Proof. vm_compute. reflexivity. Qed.

(** Two bytes, three bytes, a surrogate pair, a lone surrogate. *)
Example utf8_sample :
  utf8 [0xE9; 0x20AC; 0xD83D; 0xDE00; 0xD800]
  = [195; 169; 226; 130; 172; 240; 159; 152; 128; 239; 191; 189].
Proof. vm_compute. reflexivity. Qed.

(** The tag of the sample call. *)
Example sample_tag :
  hmacSha256Hex (js "K")
    (dataToSign (next_nonce Sample.rng) (Sample.now_ms / 1000)%Z
       Sample.usuario Sample.mensaje)
  = hmacSha256Hex (js "K")
      (js "2a2a2a2a2a2a2a2a2a2a2a2a2a2a2a2a|1700000000|alice|ingreso,100.00,salary,paycheck").
Proof. vm_compute. reflexivity. Qed.

Example parseFloat_stops_at_letters :
  parseFloat (js "5abc") = Decimal false 5 0.
Proof. reflexivity. Qed.

Example parseFloat_fraction_and_exponent :
  parseFloat (js " -.5e-3x") = Decimal true 5 (-4).
Proof. reflexivity. Qed.

Example parseFloat_needs_a_digit : parseFloat (js ".") = NaN.
Proof. reflexivity. Qed.

(** Below half the least double the amount is zero. *)
Example parseFloat_underflow :
  le_zero (parseFloat (js "2e-324")) = true
  /\ le_zero (parseFloat (js "5e-324")) = false.
Proof. split; vm_compute; reflexivity. Qed.

Example parseInt_hexadecimal :
  parseInt (Some (js "0x1F")) = Decimal false 31 0.
Proof. reflexivity. Qed.

Example split_keeps_empty_fields :
  split 44 (js "a,b,,c") = [js "a"; js "b"; []; js "c"].
Proof. reflexivity. Qed.

(** The markup is removed after the trimming, so a blank that stood
    inside it stays. *)
Example sanitize_leaves_inner_blank :
  sanitizeInput (VString (js "' a '")) = js " a ".
Proof. reflexivity. Qed.

Example number_to_string_negative :
  JSON.number_to_string (-1700000000) = js "-1700000000".
Proof. vm_compute. reflexivity. Qed.

End TestVectors.

(** ** Strings *)

Section StringFacts.

Import Spec.
Implicit Types s t : jsstring.

Lemma jsstring_eqb_eq s t : jsstring_eqb s t = true <-> s = t.
Proof.
  revert t. induction s as [|x s IH]; intros [|y t]; simpl; split;
    try congruence; try reflexivity.
  - rewrite andb_true_iff, N.eqb_eq, IH. intros [-> ->]. reflexivity.
  - intros [= -> ->]. rewrite N.eqb_refl. simpl. apply IH. reflexivity.
Qed.

Lemma jsstring_eqb_refl s : jsstring_eqb s s = true.
Proof. apply jsstring_eqb_eq. reflexivity. Qed.

Lemma jsstring_eqb_neq s t : jsstring_eqb s t = false <-> s <> t.
Proof.
  rewrite <- jsstring_eqb_eq. destruct (jsstring_eqb s t); split;
    congruence.
Qed.

Lemma trimStart_split s :
  exists l, s = l ++ trimStart s
            /\ forallb isWhiteSpace l = true
            /\ starts_clean (trimStart s).
Proof.
  induction s as [|c s (l & Hs & Hl & Hc)]; simpl.
  - exists []. auto.
  - destruct (isWhiteSpace c) eqn:Hw.
    + exists (c :: l). simpl. rewrite Hw, Hl. split; [congruence | auto].
    + exists []. simpl. auto.
Qed.

Lemma trimStart_clean s : starts_clean s -> trimStart s = s.
Proof. destruct s as [|c s]; simpl; [auto | intros ->; reflexivity]. Qed.

Lemma forallb_rev (f : N -> bool) s : forallb f (rev s) = forallb f s.
Proof.
  induction s as [|c s IH]; simpl; [reflexivity|].
  rewrite forallb_app, IH. simpl. rewrite andb_true_r. apply andb_comm.
Qed.

Lemma trimEnd_split s :
  exists r, s = trimEnd s ++ r
            /\ forallb isWhiteSpace r = true
            /\ ends_clean (trimEnd s).
Proof.
  unfold trimEnd, ends_clean.
  destruct (trimStart_split (rev s)) as (l & Hs & Hl & Hc).
  exists (rev l). rewrite forallb_rev, rev_involutive. repeat split; auto.
  rewrite <- (rev_involutive s), Hs at 1. apply rev_app_distr.
Qed.

(** Stripping the end of a string that starts clean leaves a string that
    starts clean. *)
Lemma trimEnd_starts_clean s : starts_clean s -> starts_clean (trimEnd s).
Proof.
  intros Hc. destruct (trimEnd_split s) as (r & Hs & _ & _).
  destruct (trimEnd s) as [|c u]; simpl; [exact I|].
  rewrite Hs in Hc. exact Hc.
Qed.

(** [trim] removes a run of white space at each end and nothing else,
    and what is left has white space at neither end. *)
Lemma trim_split s :
  exists l r, s = l ++ trim s ++ r
              /\ forallb isWhiteSpace l = true
              /\ forallb isWhiteSpace r = true
              /\ starts_clean (trim s) /\ ends_clean (trim s).
Proof.
  unfold trim.
  destruct (trimStart_split s) as (l & Hs & Hl & Hc).
  destruct (trimEnd_split (trimStart s)) as (r & Hs' & Hr & Hc').
  exists l, r. repeat split; auto.
  - rewrite <- Hs'. exact Hs.
  - apply trimEnd_starts_clean, Hc.
Qed.

Lemma trim_length s : (length (trim s) <= length s)%nat.
Proof.
  destruct (trim_split s) as (l & r & Hs & _).
  rewrite Hs at 2. rewrite !length_app. lia.
Qed.

Lemma strip_markup_clean s :
  Forall (fun c => is_markup_char c = false) (strip_markup s).
Proof.
  apply List.Forall_forall. intros c Hin. apply filter_In in Hin.
  destruct Hin as [_ H]. apply negb_true_iff in H. exact H.
Qed.

Lemma strip_markup_length s : (length (strip_markup s) <= length s)%nat.
Proof. apply List.filter_length_le. Qed.

(** No field of a split is longer than the string. *)
Lemma split_field_length sep s :
  Forall (fun f => (length f <= length s)%nat) (split sep s).
Proof.
  induction s as [|c s IH]; simpl.
  - constructor; [simpl; lia | constructor].
  - destruct (c =? sep).
    + constructor; [simpl; lia|].
      eapply List.Forall_impl; [|exact IH]. simpl. intros; lia.
    + destruct (split sep s) as [|f fs] eqn:E.
      * constructor; [simpl; lia | constructor].
      * inversion IH as [|? ? Hf Hfs]; subst. constructor; [simpl; lia|].
        eapply List.Forall_impl; [|exact Hfs]. simpl. intros; lia.
Qed.

End StringFacts.

(** ** Runs of the socket listeners *)

Section RunFacts.

Variable payload : jsstring.

(** The promise keeps the first settlement. *)
Lemma run_promise events r :
  promise (fold_left (on_event payload) events r)
  = match promise r with
    | Some s => Some s
    | None => first_settlement events
    end.
Proof.
  revert r. induction events as [|ev events IH]; intros r; simpl.
  - destruct (promise r); reflexivity.
  - rewrite IH. destruct ev; simpl.
    + destruct (connect_listener r); reflexivity.
    + destruct (promise r); reflexivity.
    + destruct (promise r); reflexivity.
    + destruct (promise r); reflexivity.
Qed.

(** The listeners never open a channel. *)
Lemma run_connects events r :
  List.filter is_connect (calls (fold_left (on_event payload) events r))
  = List.filter is_connect (calls r).
Proof.
  revert r. induction events as [|ev events IH]; intros r; simpl;
    [reflexivity|].
  rewrite IH. destruct ev; simpl; try destruct (connect_listener r); simpl;
    rewrite ?List.filter_app; simpl; rewrite ?app_nil_r; reflexivity.
Qed.

(** The connect callback writes the payload and a newline, once. *)
Lemma run_writes events r :
  List.filter is_write (calls (fold_left (on_event payload) events r))
  = List.filter is_write (calls r)
      ++ (if connect_listener r && existsb is_secure_connect events
          then [SocketWrite (payload ++ [10])] else []).
Proof.
  revert r. induction events as [|ev events IH]; intros r; simpl.
  - rewrite andb_false_r, app_nil_r. reflexivity.
  - destruct ev; simpl.
    + destruct (connect_listener r) eqn:E; rewrite IH; simpl.
      * rewrite List.filter_app. simpl. rewrite <- app_assoc. reflexivity.
      * rewrite E. reflexivity.
    + rewrite IH. simpl. rewrite List.filter_app. simpl.
      rewrite app_nil_r. reflexivity.
    + rewrite IH. simpl. rewrite List.filter_app. simpl.
      rewrite app_nil_r. reflexivity.
    + rewrite IH. simpl. rewrite List.filter_app. simpl.
      rewrite app_nil_r. reflexivity.
Qed.

(** Calls are only ever added. *)
Lemma run_calls_grow events r :
  exists more, calls (fold_left (on_event payload) events r) = calls r ++ more.
Proof.
  revert r. induction events as [|ev events IH]; intros r; simpl.
  - exists []. symmetry. apply app_nil_r.
  - destruct (IH (on_event payload r ev)) as [more ->].
    destruct ev; simpl; try destruct (connect_listener r); simpl;
      rewrite <- ?app_assoc; eauto.
Qed.

Lemma run_closes_kept events r :
  existsb closes (calls r) = true ->
  existsb closes (calls (fold_left (on_event payload) events r)) = true.
Proof.
  intros H. destruct (run_calls_grow events r) as [more ->].
  rewrite existsb_app, H. reflexivity.
Qed.

(** A listener that settles the promise also closes the socket. *)
Lemma run_closes events r :
  first_settlement events <> None ->
  existsb closes (calls (fold_left (on_event payload) events r)) = true.
Proof.
  revert r. induction events as [|ev events IH]; intros r; simpl;
    [congruence|].
  destruct ev; simpl; intros H.
  - apply IH, H.
  - apply run_closes_kept. simpl. rewrite existsb_app. simpl.
    apply orb_true_r.
  - apply run_closes_kept. simpl. rewrite existsb_app. simpl.
    apply orb_true_r.
  - apply run_closes_kept. simpl. rewrite existsb_app. simpl.
    apply orb_true_r.
Qed.

Lemma first_settlement_after_connects pre ev post :
  Forall (fun e => e = EvSecureConnect) pre ->
  settlement_of ev <> None ->
  first_settlement (pre ++ ev :: post) = settlement_of ev.
Proof.
  induction 1 as [|e pre -> _ IH]; simpl; intros H.
  - destruct (settlement_of ev); congruence.
  - apply IH, H.
Qed.

End RunFacts.

(** ** Digests *)

Section DigestFacts.

Lemma be_bytes_length n x : length (be_bytes n x) = n.
Proof.
  revert x. induction n as [|n IH]; intros x; simpl; [reflexivity|].
  rewrite length_app, IH. simpl. lia.
Qed.

Lemma be_bytes_small n x : Forall (fun b => b < 256) (be_bytes n x).
Proof.
  revert x. induction n as [|n IH]; intros x; simpl; [constructor|].
  apply Forall_app. split; [apply IH|].
  constructor; [|constructor]. apply N.mod_lt. discriminate.
Qed.

Lemma round_length st kw : length (round st kw) = length st.
Proof.
  unfold round.
  do 9 (destruct st as [|? st]; [reflexivity|]). reflexivity.
Qed.

Lemma rounds_length kws st : length (fold_left round kws st) = length st.
Proof.
  revert st. induction kws as [|kw kws IH]; intros st; simpl; [reflexivity|].
  rewrite IH. apply round_length.
Qed.

Lemma compress_length h block : length (compress h block) = length h.
Proof.
  unfold compress. rewrite length_map, length_combine, rounds_length. lia.
Qed.

Lemma hash_length bs h :
  length (fold_left compress bs h) = length h.
Proof.
  revert h. induction bs as [|b bs IH]; intros h; simpl; [reflexivity|].
  rewrite IH. apply compress_length.
Qed.

Lemma word_bytes_length ws :
  length (flat_map (be_bytes 4) ws) = (4 * length ws)%nat.
Proof.
  induction ws as [|w ws IH]; [reflexivity|].
  change (flat_map (be_bytes 4) (w :: ws))
    with (be_bytes 4 w ++ flat_map (be_bytes 4) ws).
  rewrite length_app, be_bytes_length, IH. simpl. lia.
Qed.

Lemma word_bytes_small ws : Forall (fun b => b < 256) (flat_map (be_bytes 4) ws).
Proof.
  induction ws as [|w ws IH]; [constructor|].
  change (flat_map (be_bytes 4) (w :: ws))
    with (be_bytes 4 w ++ flat_map (be_bytes 4) ws).
  apply Forall_app. split; [apply be_bytes_small | exact IH].
Qed.

(** A SHA-256 digest is 32 bytes. *)
Lemma sha256_length msg : length (sha256 msg) = 32%nat.
Proof.
  unfold sha256. rewrite word_bytes_length, hash_length. reflexivity.
Qed.

Lemma sha256_small msg : Forall (fun b => b < 256) (sha256 msg).
Proof. apply word_bytes_small. Qed.

Lemma hex_char_lower d : d < 16 -> Spec.is_lower_hex (hex_char d) = true.
Proof.
  intros Hd. unfold Spec.is_lower_hex, isDigit, hex_char.
  destruct (N.ltb_spec d 10).
  - apply orb_true_iff. left. apply andb_true_iff.
    split; apply N.leb_le; lia.
  - apply orb_true_iff. right. apply andb_true_iff.
    split; apply N.leb_le; lia.
Qed.

Lemma to_hex_length bytes : length (to_hex bytes) = (2 * length bytes)%nat.
Proof.
  unfold to_hex. induction bytes as [|b bytes IH]; simpl; [reflexivity|].
  rewrite IH. lia.
Qed.

Lemma to_hex_lower bytes :
  Forall (fun b => b < 256) bytes ->
  Forall (fun c => Spec.is_lower_hex c = true) (to_hex bytes).
Proof.
  unfold to_hex. induction 1 as [|b bytes Hb _ IH]; simpl; [constructor|].
  constructor; [|constructor; [|exact IH]]; apply hex_char_lower.
  - apply N.Div0.div_lt_upper_bound. lia.
  - apply N.mod_lt. discriminate.
Qed.

(** The tag is 64 lowercase hexadecimal digits: 256 bits. *)
Lemma hmacSha256Hex_shape key data :
  length (hmacSha256Hex key data) = 64%nat
  /\ Forall (fun c => Spec.is_lower_hex c = true) (hmacSha256Hex key data).
Proof.
  unfold hmacSha256Hex, hmac_sha256. split.
  - rewrite to_hex_length, sha256_length. reflexivity.
  - apply to_hex_lower, sha256_small.
Qed.

Lemma hex_char_inj a b : a < 16 -> b < 16 -> hex_char a = hex_char b -> a = b.
Proof.
  unfold hex_char. intros Ha Hb.
  destruct (N.ltb_spec a 10), (N.ltb_spec b 10); lia.
Qed.

(** Different bytes give different hexadecimal strings. *)
Lemma to_hex_inj xs ys :
  Forall (fun b => b < 256) xs -> Forall (fun b => b < 256) ys ->
  to_hex xs = to_hex ys -> xs = ys.
Proof.
  unfold to_hex. intros Hx. revert ys.
  induction Hx as [|x xs Hx _ IH]; intros ys Hy; destruct Hy as [|y ys Hy Hys];
    simpl; try discriminate; [reflexivity|].
  intros [= Hhi Hlo Hrest]. f_equal; [|apply IH; assumption].
  apply hex_char_inj in Hhi, Hlo;
    try (apply N.mod_lt; discriminate);
    try (apply N.Div0.div_lt_upper_bound; lia).
  rewrite (N.div_mod x 16), (N.div_mod y 16) by discriminate. congruence.
Qed.

Lemma next_bytes_small n g : Forall (fun b => b < 256) (next_bytes n g).
Proof.
  unfold next_bytes. apply List.Forall_forall. intros b Hin.
  apply in_map_iff in Hin. destruct Hin as (i & <- & _).
  pose proof (Byte.to_N_bounded (draw g i)). lia.
Qed.

End DigestFacts.

(** ** The relay client *)

Section RelayFacts.

Implicit Types env : gmap string jsstring.

Lemma dataToSign_canonical nonce timestamp usuario mensaje :
  dataToSign nonce timestamp usuario mensaje
  = Spec.canonical_string nonce timestamp usuario mensaje.
Proof. reflexivity. Qed.

Lemma compose_eq key g now_ms usuario mensaje :
  compose key g now_ms usuario mensaje
  = (JSON.stringify
       (payload_object usuario mensaje (next_nonce g) (now_ms / 1000)%Z
          (hmacSha256Hex key
             (dataToSign (next_nonce g) (now_ms / 1000)%Z usuario mensaje))),
     advance 16 g).
Proof. reflexivity. Qed.

Lemma enviar_configured env rootCA g now_ms usuario mensaje events key :
  env !! "HMAC_KEY" = Some key -> key <> [] ->
  connect_exception (tlsOptions env rootCA) = None ->
  enviarTransaccionTCP env rootCA g now_ms usuario mensaje events
  = (fold_left (on_event (fst (compose key g now_ms usuario mensaje)))
       events (opened env rootCA),
     advance 16 g).
Proof.
  intros Hk Hne Hv. unfold enviarTransaccionTCP. rewrite Hk.
  destruct key as [|k ey]; [congruence|]. rewrite compose_eq, Hv.
  reflexivity.
Qed.

(** When [tls.connect] throws, the promise is rejected at once with
    what it throws, whatever the events. *)
Lemma enviar_thrown env rootCA g now_ms usuario mensaje events key thrown :
  env !! "HMAC_KEY" = Some key -> key <> [] ->
  connect_exception (tlsOptions env rootCA) = Some thrown ->
  enviarTransaccionTCP env rootCA g now_ms usuario mensaje events
  = ({| calls := [TlsConnect (tlsOptions env rootCA)];
        connect_listener := false;
        promise := Some (Rejected thrown) |},
     advance 16 g).
Proof.
  intros Hk Hne Hv. unfold enviarTransaccionTCP. rewrite Hk.
  destruct key as [|k ey]; [congruence|]. rewrite compose_eq, Hv.
  reflexivity.
Qed.

Lemma enviar_unconfigured env rootCA g now_ms usuario mensaje events :
  env !! "HMAC_KEY" = None \/ env !! "HMAC_KEY" = Some [] ->
  enviarTransaccionTCP env rootCA g now_ms usuario mensaje events
  = ({| calls := []; connect_listener := false;
        promise := Some (Rejected missing_key_error) |}, g).
Proof.
  intros [Hk|Hk]; unfold enviarTransaccionTCP; rewrite Hk; reflexivity.
Qed.

End RelayFacts.

Section TrimFacts.

Import Spec.

Lemma trimStart_ws_app w t :
  forallb isWhiteSpace w = true -> trimStart (w ++ t) = trimStart t.
Proof.
  induction w as [|c w IH]; simpl; [reflexivity|].
  intros H. apply andb_true_iff in H. destruct H as [-> H]. apply IH, H.
Qed.

(** White space after a clean line is all that [trim] removes. *)
Lemma trim_app_ws line w :
  starts_clean line -> ends_clean line -> forallb isWhiteSpace w = true ->
  trim (line ++ w) = line.
Proof.
  intros Hs He Hw. unfold trim.
  destruct line as [|c l].
  - simpl. rewrite <- (app_nil_r w), trimStart_ws_app by exact Hw.
    reflexivity.
  - rewrite trimStart_clean by (simpl in *; exact Hs).
    unfold trimEnd. rewrite rev_app_distr, trimStart_ws_app.
    + rewrite trimStart_clean by exact He. apply rev_involutive.
    + rewrite forallb_rev. exact Hw.
Qed.

End TrimFacts.

Section RelayClaims.

Import Spec.
Implicit Types env : gmap string jsstring.

Lemma written_is_payload env rootCA g now_ms usuario mensaje events key d :
  env !! "HMAC_KEY" = Some key -> key <> [] ->
  In (SocketWrite d)
     (calls (fst (enviarTransaccionTCP env rootCA g now_ms usuario mensaje
                    events))) ->
  d = fst (compose key g now_ms usuario mensaje) ++ [10].
Proof.
  intros Hk Hne Hin.
  destruct (connect_exception (tlsOptions env rootCA)) as [thrown|] eqn:Hv.
  { rewrite (enviar_thrown _ _ _ _ _ _ _ key thrown Hk Hne Hv) in Hin.
    destruct Hin as [Hin|[]]. discriminate Hin. }
  rewrite (enviar_configured _ _ _ _ _ _ _ key Hk Hne Hv) in Hin.
  cbn [fst] in Hin.
  assert (Hw : In (SocketWrite d)
                 (List.filter is_write
                    (calls (fold_left
                       (on_event (fst (compose key g now_ms usuario mensaje)))
                       events (opened env rootCA)))))
    by (apply filter_In; split; [exact Hin | reflexivity]).
  rewrite run_writes in Hw.
  cbn [opened calls connect_listener List.filter is_write app andb] in Hw.
  destruct (existsb is_secure_connect events).
  - destruct Hw as [H|[]].
    apply (f_equal (fun c => match c with SocketWrite x => x | _ => [] end))
      in H.
    symmetry. exact H.
  - destruct Hw.
Qed.

(** C1. The tag in the outgoing message is the lowercase hexadecimal
    HMAC-SHA256, under the shared key, of the canonical string: nonce,
    timestamp, identity and command, in that order, joined with a pipe.
    The tag has 64 hexadecimal digits, and every line written on the
    channel is the serialised message with that tag. *)
Theorem tag_is_hmac_of_canonical_string key g now_ms identity command :
  let nonce := next_nonce g in
  let timestamp := (now_ms / 1000)%Z in
  let tag :=
    to_hex (hmac_sha256 (utf8 key)
              (utf8 (canonical_string nonce timestamp identity command))) in
  fst (compose key g now_ms identity command)
  = JSON.stringify (payload_object identity command nonce timestamp tag)
  /\ JSON.string_property "mac"
       (payload_object identity command nonce timestamp tag) = Some tag
  /\ length tag = 64%nat
  /\ Forall (fun c => is_lower_hex c = true) tag
  /\ forall env rootCA events d,
       env !! "HMAC_KEY" = Some key -> key <> [] ->
       In (SocketWrite d)
          (calls (fst (enviarTransaccionTCP env rootCA g now_ms identity
                         command events))) ->
       d = JSON.stringify
             (payload_object identity command nonce timestamp tag) ++ [10].
Proof.
  intros nonce timestamp tag.
  assert (Hp : fst (compose key g now_ms identity command)
               = JSON.stringify
                   (payload_object identity command nonce timestamp tag))
    by reflexivity.
  assert (Hm : forall t,
             JSON.string_property "mac"
               (payload_object identity command nonce timestamp t) = Some t)
    by reflexivity.
  destruct (hmacSha256Hex_shape key
              (canonical_string nonce timestamp identity command))
    as [Hlen Hhex].
  repeat split; auto.
  intros env rootCA events d Hk Hne Hin. rewrite <- Hp.
  eapply written_is_payload; eassumption.
Qed.

Lemma tag_is_hmac_of_canonical_string_witness :
  In (SocketWrite
        (fst (compose (js "K") Sample.rng Sample.now_ms Sample.usuario
                Sample.mensaje) ++ [10]))
     (calls (fst (enviarTransaccionTCP Sample.env Sample.rootCA Sample.rng
                    Sample.now_ms Sample.usuario Sample.mensaje
                    [EvSecureConnect])))
  /\ fst (compose (js "K") Sample.rng Sample.now_ms Sample.usuario
            Sample.mensaje) ++ [10]
     = JSON.stringify
         (payload_object Sample.usuario Sample.mensaje
            (next_nonce Sample.rng) 1700000000
            (to_hex (hmac_sha256 (utf8 (js "K"))
               (utf8 (canonical_string (next_nonce Sample.rng) 1700000000
                        Sample.usuario Sample.mensaje))))) ++ [10].
Proof.
  assert (Hin : In (SocketWrite
                      (fst (compose (js "K") Sample.rng Sample.now_ms
                              Sample.usuario Sample.mensaje) ++ [10]))
                   (calls (fst (enviarTransaccionTCP Sample.env Sample.rootCA
                                  Sample.rng Sample.now_ms Sample.usuario
                                  Sample.mensaje [EvSecureConnect])))).
  { vm_compute. right. right. right. left. reflexivity. }
  split; [exact Hin|].
  apply (proj2 (proj2 (proj2 (proj2
           (tag_is_hmac_of_canonical_string (js "K") Sample.rng Sample.now_ms
              Sample.usuario Sample.mensaje))))
           Sample.env Sample.rootCA [EvSecureConnect]).
  - reflexivity.
  - discriminate.
  - exact Hin.
Defined.

(** C6. Without a signing key, an unset or empty HMAC_KEY, the call is
    rejected with the configuration error before any call on a socket:
    nothing is opened, nothing is written, no nonce is drawn. With a key
    the call goes on to open the channel, and the promise can carry that
    error only if the runtime itself delivered it as an error event. So
    whatever the configuration, a line is written only when there is a
    key, and it is the message signed under it. *)
Theorem missing_key_is_refused env rootCA g now_ms usuario mensaje events :
  (env !! "HMAC_KEY" = None \/ env !! "HMAC_KEY" = Some [] ->
   enviarTransaccionTCP env rootCA g now_ms usuario mensaje events
   = ({| calls := []; connect_listener := false;
         promise := Some (Rejected missing_key_error) |}, g))
  /\ (forall key, env !! "HMAC_KEY" = Some key -> key <> [] ->
      let run :=
        fst (enviarTransaccionTCP env rootCA g now_ms usuario mensaje events) in
      (exists more, calls run = TlsConnect (tlsOptions env rootCA) :: more)
      /\ (promise run = Some (Rejected missing_key_error) ->
          In (EvError missing_key_error) events))
  /\ (forall d,
        In (SocketWrite d)
           (calls (fst (enviarTransaccionTCP env rootCA g now_ms usuario
                          mensaje events))) ->
        exists key,
          env !! "HMAC_KEY" = Some key /\ key <> []
          /\ d = fst (compose key g now_ms usuario mensaje) ++ [10]).
Proof.
  split; [|split]; cycle 2.
  - intros d Hin. destruct (env !! "HMAC_KEY") as [[|k ey]|] eqn:Hk.
    + rewrite enviar_unconfigured in Hin by auto. destruct Hin.
    + exists (k :: ey). split; [reflexivity|]. split; [discriminate|].
      eapply written_is_payload; [exact Hk | discriminate | exact Hin].
    + rewrite enviar_unconfigured in Hin by auto. destruct Hin.
  - apply enviar_unconfigured.
  - intros key Hk Hne run. subst run.
    destruct (connect_exception (tlsOptions env rootCA)) as [thrown|] eqn:Hv.
    { rewrite (enviar_thrown _ _ _ _ _ _ _ key thrown Hk Hne Hv).
      cbn [fst calls promise]. split; [eauto|].
      intros [= ->]. unfold connect_exception in Hv.
      destruct (_ && _); [discriminate Hv|].
      destruct (valid_port _); discriminate Hv. }
    rewrite (enviar_configured _ _ _ _ _ _ _ key Hk Hne Hv). cbn [fst]. split.
    + destruct (run_calls_grow (fst (compose key g now_ms usuario mensaje))
                  events (opened env rootCA)) as [more ->].
      cbn [opened calls app]. eauto.
    + rewrite run_promise. cbn [opened promise]. clear.
      induction events as [|ev events IH]; simpl; [discriminate|].
      destruct ev; simpl; try discriminate; auto.
      intros [= ->]. auto.
Qed.

Lemma missing_key_is_refused_witness :
  enviarTransaccionTCP ∅ Sample.rootCA Sample.rng Sample.now_ms Sample.usuario
    Sample.mensaje [EvSecureConnect]
  = ({| calls := []; connect_listener := false;
        promise := Some (Rejected missing_key_error) |}, Sample.rng)
  /\ exists more,
       calls (fst (enviarTransaccionTCP Sample.env Sample.rootCA Sample.rng
                     Sample.now_ms Sample.usuario Sample.mensaje
                     [EvSecureConnect]))
       = TlsConnect (tlsOptions Sample.env Sample.rootCA) :: more.
Proof.
  split.
  - apply (proj1 (missing_key_is_refused ∅ Sample.rootCA Sample.rng
                    Sample.now_ms Sample.usuario Sample.mensaje
                    [EvSecureConnect])).
    left. reflexivity.
  - apply (proj1 (proj2 (missing_key_is_refused Sample.env Sample.rootCA
                           Sample.rng Sample.now_ms Sample.usuario
                           Sample.mensaje [EvSecureConnect])) (js "K")).
    + reflexivity.
    + discriminate.
Defined.

End RelayClaims.

Section ChannelClaims.

Import Spec.
Implicit Types env : gmap string jsstring.






(** C3, as amended. A call with a signing key, whose timeout and port
    [tls.connect] accepts, opens exactly one channel, first of all, and
    never another; once the channel is established it writes the composed
    message and a newline, at most once; the promise settles with the
    first data, timeout or error event, and on data it resolves with that
    first chunk trimmed of white space at both ends, so a status line
    without white space at its ends that arrives whole with its newline is
    returned as it is; whatever settles the promise also closes the
    socket; and the nonce is made of the next sixteen bytes of the random
    generator, which the call consumes, so the next call repeats it only
    if the generator repeats those bytes. *)
Theorem send_uses_one_channel_and_trims env rootCA g now_ms usuario mensaje
    events key :
  env !! "HMAC_KEY" = Some key -> key <> [] ->
  connect_exception (tlsOptions env rootCA) = None ->
  let result :=
    enviarTransaccionTCP env rootCA g now_ms usuario mensaje events in
  let run := fst result in
  let payload := fst (compose key g now_ms usuario mensaje) in
  (exists more,
     calls run = TlsConnect (tlsOptions env rootCA) :: more
     /\ List.filter is_connect more = [])
  /\ List.filter is_write (calls run)
     = (if existsb is_secure_connect events
        then [SocketWrite (payload ++ [10])] else [])
  /\ promise run = first_settlement events
  /\ (forall pre data post,
        events = pre ++ EvData data :: post ->
        Forall (fun e => e = EvSecureConnect) pre ->
        promise run = Some (Resolved (trim data)))
  /\ (forall line,
        events = [EvSecureConnect; EvData (line ++ [10])] ->
        starts_clean line -> ends_clean line ->
        promise run = Some (Resolved line))
  /\ (promise run <> None -> existsb closes (calls run) = true)
  /\ (exists mac,
        payload
        = JSON.stringify
            (payload_object usuario mensaje (next_nonce g)
               (now_ms / 1000)%Z mac))
  /\ snd result = advance 16 g
  /\ (next_nonce (snd result) = next_nonce g ->
      next_bytes 16 (snd result) = next_bytes 16 g).
Proof.
  intros Hk Hne Hv result run payload. subst run result payload.
  rewrite (enviar_configured _ _ _ _ _ _ _ key Hk Hne Hv). cbn [fst snd].
  set (payload := fst (compose key g now_ms usuario mensaje)).
  assert (Hp : promise (fold_left (on_event payload) events
                          (opened env rootCA))
               = first_settlement events)
    by (rewrite run_promise; reflexivity).
  repeat split.
  - destruct (run_calls_grow payload events (opened env rootCA))
      as [more Hmore].
    pose proof (run_connects payload events (opened env rootCA)) as Hc.
    rewrite Hmore in Hc |- *. cbn [opened calls app] in Hc |- *.
    eexists. split; [reflexivity|].
    cbn [List.filter is_connect] in Hc. injection Hc as Hc. exact Hc.
  - rewrite run_writes. reflexivity.
  - exact Hp.
  - intros pre data post -> Hpre. rewrite Hp.
    apply first_settlement_after_connects; [exact Hpre | discriminate].
  - intros line -> Hs He. rewrite Hp. simpl.
    rewrite trim_app_ws; auto.
  - rewrite Hp. apply run_closes.
  - eexists. unfold payload. rewrite compose_eq. reflexivity.
  - intros Hn. apply to_hex_inj; auto using next_bytes_small.
Qed.

Lemma send_uses_one_channel_and_trims_witness :
  promise (fst (enviarTransaccionTCP Sample.env Sample.rootCA Sample.rng
                  Sample.now_ms Sample.usuario Sample.mensaje
                  [EvSecureConnect; EvData (js "OK" ++ [10])]))
  = Some (Resolved (js "OK")).
Proof.
  pose proof (send_uses_one_channel_and_trims Sample.env Sample.rootCA
                Sample.rng Sample.now_ms Sample.usuario Sample.mensaje
                [EvSecureConnect; EvData (js "OK" ++ [10])] (js "K")
                eq_refl ltac:(discriminate) eq_refl)
    as (_ & _ & _ & _ & H & _).
  apply (H (js "OK")); reflexivity.
Defined.

(** C3, as written, fails: a status line that starts with a blank comes
    back without the blank, and a chunk that holds two lines comes back
    as two lines. Nor does every call open a channel: with a negative
    TLS_TIMEOUT_MS, or a PYTHON_SERVER_PORT that is no port, [tls.connect]
    throws, and the call is rejected with nothing written, whatever the
    peer would have sent. *)
Lemma status_line_is_not_verbatim :
  promise (fst (enviarTransaccionTCP Sample.env Sample.rootCA Sample.rng
                  Sample.now_ms Sample.usuario Sample.mensaje
                  [EvSecureConnect; EvData (js " OK" ++ [10])]))
  = Some (Resolved (js "OK"))
  /\ promise (fst (enviarTransaccionTCP Sample.env Sample.rootCA Sample.rng
                     Sample.now_ms Sample.usuario Sample.mensaje
                     [EvSecureConnect;
                      EvData (js "OK" ++ [10] ++ js "MORE" ++ [10])]))
     = Some (Resolved (js "OK" ++ [10] ++ js "MORE"))
  /\ fst (enviarTransaccionTCP Sample.env_negative Sample.rootCA Sample.rng
            Sample.now_ms Sample.usuario Sample.mensaje
            [EvSecureConnect; EvData (js "OK" ++ [10])])
     = {| calls := [TlsConnect (tlsOptions Sample.env_negative Sample.rootCA)];
          connect_listener := false;
          promise := Some (Rejected out_of_range_error) |}
  /\ fst (enviarTransaccionTCP Sample.env_port Sample.rootCA Sample.rng
            Sample.now_ms Sample.usuario Sample.mensaje
            [EvSecureConnect; EvData (js "OK" ++ [10])])
     = {| calls := [TlsConnect (tlsOptions Sample.env_port Sample.rootCA)];
          connect_listener := false;
          promise := Some (Rejected bad_port_error) |}
  /\ ~ Claimed.returns_status_line_verbatim.
Proof.
  split; [vm_compute; reflexivity|].
  split; [vm_compute; reflexivity|].
  split; [vm_compute; reflexivity|].
  split; [vm_compute; reflexivity|].
  assert (H : promise (fst (enviarTransaccionTCP Sample.env Sample.rootCA
                              Sample.rng Sample.now_ms Sample.usuario
                              Sample.mensaje
                              [EvSecureConnect; EvData (js " OK" ++ [10])]))
              = Some (Resolved (js "OK")))
    by (vm_compute; reflexivity).
  intros Hclaim.
  specialize (Hclaim Sample.env Sample.rootCA Sample.rng Sample.now_ms
                Sample.usuario Sample.mensaje (js "K") (js " OK")
                eq_refl ltac:(discriminate)).
  rewrite H in Hclaim.
  assert (Hnl : ~ In 10 (js " OK")) by (vm_compute; intuition discriminate).
  specialize (Hclaim Hnl). discriminate Hclaim.
Qed.

End ChannelClaims.

(** ** Decimal numerals *)

Section DecimalFacts.

Lemma digits_value_snoc ds d :
  digits_value (ds ++ [d]) = 10 * digits_value ds + (d - 48).
Proof. unfold digits_value. rewrite fold_left_app. reflexivity. Qed.

Lemma isDigit_digit d : d < 10 -> isDigit (48 + d) = true.
Proof.
  intros Hd. unfold isDigit. apply andb_true_iff.
  split; apply N.leb_le; lia.
Qed.

Lemma decimal_digits_step k n acc :
  JSON.decimal_digits (S k) n acc
  = if n / 10 =? 0 then (48 + n mod 10) :: acc
    else JSON.decimal_digits k (n / 10) ((48 + n mod 10) :: acc).
Proof. reflexivity. Qed.

(** The digits [decimal_digits] puts in front of its accumulator. *)
Lemma decimal_digits_spec k n acc :
  n < 2 ^ N.of_nat (S k) ->
  exists ds,
    JSON.decimal_digits (S k) n acc = ds ++ acc
    /\ ds <> [] /\ forallb isDigit ds = true /\ digits_value ds = n.
Proof.
  revert n acc. induction k as [|k IH]; intros n acc Hn;
    rewrite decimal_digits_step;
    assert (Hd : n mod 10 < 10) by (apply N.mod_lt; discriminate);
    pose proof (N.div_mod n 10 ltac:(discriminate)) as Hdm;
    destruct (N.eqb_spec (n / 10) 0) as [Hq|Hq].
  - exists [48 + n mod 10]. cbn [forallb app].
    rewrite isDigit_digit by exact Hd.
    repeat split; [discriminate|]. unfold digits_value. cbn [fold_left].
    rewrite Hq in Hdm. revert Hdm. generalize (n mod 10). intros; lia.
  - exfalso. apply Hq. apply N.div_small. simpl in Hn. lia.
  - exists [48 + n mod 10]. cbn [forallb app].
    rewrite isDigit_digit by exact Hd.
    repeat split; [discriminate|]. unfold digits_value. cbn [fold_left].
    rewrite Hq in Hdm. revert Hdm. generalize (n mod 10). intros; lia.
  - destruct (IH (n / 10) ((48 + n mod 10) :: acc))
      as (ds & Hds & Hne & Hall & Hval).
    { rewrite (Nat2N.inj_succ (S k)), N.pow_succ_r' in Hn.
      apply N.Div0.div_lt_upper_bound. lia. }
    exists (ds ++ [48 + n mod 10]). repeat split.
    + rewrite Hds, <- app_assoc. reflexivity.
    + destruct ds; discriminate.
    + rewrite forallb_app, Hall. cbn [forallb].
      rewrite isDigit_digit by exact Hd. reflexivity.
    + rewrite digits_value_snoc, Hval.
      replace (48 + n mod 10 - 48) with (n mod 10)
        by (generalize (n mod 10); intros; lia).
      symmetry. exact Hdm.
Qed.

Lemma N_to_string_spec n :
  JSON.N_to_string n <> []
  /\ forallb isDigit (JSON.N_to_string n) = true
  /\ digits_value (JSON.N_to_string n) = n.
Proof.
  unfold JSON.N_to_string.
  destruct (decimal_digits_spec (N.to_nat (N.size n)) n [])
    as (ds & -> & Hne & Hall & Hval).
  - rewrite Nat2N.inj_succ, N2Nat.id, N.pow_succ_r'.
    pose proof (N.size_gt n). lia.
  - rewrite app_nil_r. auto.
Qed.

(** Digits followed by something that is not a digit are read whole. *)
Lemma span_digits_app ds rest :
  forallb isDigit ds = true ->
  match rest with c :: _ => isDigit c = false | [] => True end ->
  span_digits (ds ++ rest) = (ds, rest).
Proof.
  intros Hall Hrest. induction ds as [|d ds IH]; simpl in *.
  - destruct rest as [|c r]; [reflexivity|]. simpl. rewrite Hrest.
    reflexivity.
  - apply andb_true_iff in Hall. destruct Hall as [-> Hall].
    rewrite IH by exact Hall. reflexivity.
Qed.

Lemma digit_not_space c : isDigit c = true -> isWhiteSpace c = false.
Proof.
  unfold isDigit, isWhiteSpace. rewrite andb_true_iff, !N.leb_le.
  intros [H1 H2].
  repeat match goal with
         | |- context [c =? ?k] =>
             replace (c =? k) with false by (symmetry; apply N.eqb_neq; lia)
         end.
  replace (c <=? 8202) with true by (symmetry; apply N.leb_le; lia).
  replace (8192 <=? c) with false by (symmetry; apply N.leb_gt; lia).
  reflexivity.
Qed.

(** [parseInt] reads back a positive number written in decimal. *)
Lemma parseInt_decimal n :
  parseInt (Some (JSON.N_to_string n)) = Decimal false n 0.
Proof.
  destruct (N_to_string_spec n) as (Hne & Hall & Hval).
  unfold parseInt. destruct (JSON.N_to_string n) as [|d ds] eqn:E;
    [congruence|].
  assert (Hd : isDigit d = true)
    by (simpl in Hall; apply andb_true_iff in Hall; tauto).
  assert (Hspan : span_digits (d :: ds) = (d :: ds, [])).
  { rewrite <- (app_nil_r (d :: ds)) at 1.
    apply span_digits_app; [exact Hall | exact I]. }
  assert (Hsign : read_sign (d :: ds) = (false, d :: ds)).
  { unfold read_sign. unfold isDigit in Hd. apply andb_true_iff in Hd.
    rewrite !N.leb_le in Hd.
    destruct (N.eq_dec d 45) as [->|]; [lia|].
    destruct (N.eq_dec d 43) as [->|]; [lia|].
    destruct d as [|p]; [reflexivity|].
    do 6 (destruct p as [p|p|]; try reflexivity); lia. }
  cbn [trimStart]. rewrite (digit_not_space d Hd), Hsign.
  assert (Hfin : Decimal false (digits_value (fst (span_digits (d :: ds)))) 0
                 = Decimal false n 0)
    by (rewrite Hspan; cbn [fst]; rewrite Hval; reflexivity).
  destruct (N.eq_dec d 48) as [->|Hd48].
  - destruct ds as [|x r].
    + rewrite Hspan in *. cbn [fst] in *. exact Hfin.
    + assert (Hx : isDigit x = true).
      { simpl in Hall. rewrite !andb_true_iff in Hall. tauto. }
      unfold isDigit in Hx. apply andb_true_iff in Hx.
      rewrite !N.leb_le in Hx.
      replace (x =? 120) with false by (symmetry; apply N.eqb_neq; lia).
      replace (x =? 88) with false by (symmetry; apply N.eqb_neq; lia).
      cbn [orb]. exact Hfin.
  - assert (Hgen : forall s, s = d :: ds ->
              match s with
              | 48 :: x :: r =>
                  if (x =? 120) || (x =? 88)
                  then match fst (span_hex r) with
                       | [] => NaN
                       | (_ :: _) as hs => Decimal false (hex_value hs) 0
                       end
                  else Decimal false (digits_value (fst (span_digits s))) 0
              | _ =>
                  match fst (span_digits s) with
                  | [] => NaN
                  | (_ :: _) as xs => Decimal false (digits_value xs) 0
                  end
              end = Decimal false n 0).
    { intros s ->. rewrite Hspan. cbn [fst].
      rewrite <- Hval.
      destruct d as [|p]; [reflexivity|].
      do 6 (destruct p as [p|p|]; try reflexivity).
      congruence. }
    apply (Hgen (d :: ds) eq_refl).
Qed.

End DecimalFacts.

(** ** The channel options *)

Section TlsClaims.

Import Spec.
Implicit Types env : gmap string jsstring.

Lemma parseInt_shape v :
  parseInt v = NaN \/ exists neg m, parseInt v = Decimal neg m 0.
Proof.
  unfold parseInt. destruct v as [s|]; [|auto].
  destruct (read_sign (trimStart s)) as [neg s2].
  destruct s2 as [|c s3].
  - destruct (fst (span_digits [])); eauto.
  - destruct (N.eq_dec c 48) as [->|Hc].
    + destruct s3 as [|x r].
      * destruct (fst (span_digits [48])); eauto.
      * destruct ((x =? 120) || (x =? 88));
          [destruct (fst (span_hex r)); eauto | eauto].
    + assert (Hgen : forall s,
               s = c :: s3 ->
               match s with
               | 48 :: x :: r =>
                   if (x =? 120) || (x =? 88)
                   then match fst (span_hex r) with
                        | [] => NaN
                        | (_ :: _) as hs => Decimal neg (hex_value hs) 0
                        end
                   else Decimal neg (digits_value (fst (span_digits s))) 0
               | _ =>
                   match fst (span_digits s) with
                   | [] => NaN
                   | (_ :: _) as xs => Decimal neg (digits_value xs) 0
                   end
               end
               = match fst (span_digits s) with
                 | [] => NaN
                 | (_ :: _) as xs => Decimal neg (digits_value xs) 0
                 end).
      { intros s0 ->. destruct c as [|p]; [reflexivity|].
        do 6 (destruct p as [p|p|]; try reflexivity). congruence. }
      rewrite (Hgen (c :: s3) eq_refl).
      destruct (fst (span_digits (c :: s3))); eauto.
Qed.

Lemma truthy_integer neg m :
  truthy (VNumber (Decimal neg m 0)) = negb (m =? 0).
Proof. reflexivity. Qed.

(** The timeout is always a number of milliseconds other than zero. *)
Lemma tls_timeout_shape env :
  exists neg m, tls_timeout_ms env = Decimal neg m 0 /\ m <> 0.
Proof.
  unfold tls_timeout_ms, num_or.
  destruct (parseInt_shape (env !! "TLS_TIMEOUT_MS"))
    as [->|(neg & m & ->)].
  - exists false, 5000. split; [reflexivity | discriminate].
  - rewrite truthy_integer. destruct (N.eqb_spec m 0) as [->|Hm]; simpl.
    + exists false, 5000. split; [reflexivity | discriminate].
    + exists neg, m. auto.
Qed.

(** So [tls.connect] always sets it, and throws unless it is one that
    [socket.setTimeout] accepts. *)
Lemma connect_exception_cases env rootCA :
  connect_exception (tlsOptions env rootCA)
  = if valid_timeout (tls_timeout_ms env)
    then if valid_port (PYTHON_SERVER_PORT env) then None
         else Some bad_port_error
    else Some out_of_range_error.
Proof.
  unfold connect_exception, tlsOptions. cbn [timeout port].
  destruct (tls_timeout_shape env) as (neg & m & -> & Hm).
  rewrite truthy_integer.
  destruct (N.eqb_spec m 0) as [|_]; [contradiction|].
  destruct (valid_timeout (Decimal neg m 0)); reflexivity.
Qed.

(** A timeout that [socket.setTimeout] accepts is positive and finite. *)
Lemma valid_timeout_bounded neg m :
  m <> 0 -> valid_timeout (Decimal neg m 0) = true ->
  neg = false /\ (Z.of_N m < 2 ^ 1024)%Z.
Proof.
  intros Hm. unfold valid_timeout, isFinite, lt_zero, rounds_to_infinity,
    rounds_to_zero. cbn [Z.leb Z.compare].
  destruct (N.eqb_spec m 0) as [|_]; [contradiction|].
  rewrite andb_true_iff, !negb_true_iff, andb_false_iff. cbn [negb].
  intros [Hfin Hneg]. split.
  - destruct Hneg as [Hneg|Hneg]; [exact Hneg | discriminate Hneg].
  - apply Z.leb_gt in Hfin.
    assert (Hpos : (0 < 2 ^ 970)%Z) by (apply Z.pow_pos_nonneg; lia).
    change (10 ^ 0)%Z with 1%Z in Hfin.
    generalize dependent (2 ^ 970)%Z. generalize (2 ^ 1024)%Z. intros. lia.
Qed.

(** C4. The channel is opened with one trust anchor, the content of
    certs/rootCA.pem, and with certificate verification on; the lowest and
    the highest protocol version are both TLSv1.3, the newest the runtime
    knows; every cipher suite in the list is an authenticated-encryption
    suite of TLS 1.3; the timeout is 5000 ms when TLS_TIMEOUT_MS is unset,
    and the value of the variable when that is a positive decimal number.
    Every call with a signing key hands these options to [tls.connect].
    If [tls.connect] accepts them, their timeout is a positive and finite
    number of milliseconds, the same timeout is then set on the socket,
    and with the variables for the timeout and the port unset it does
    accept them. If it does not accept them, as for a timeout that is
    negative or not finite, it throws: no channel is opened and the call
    is rejected with what it throws. *)
Theorem channel_is_pinned_to_tls13 env rootCA :
  let o := tlsOptions env rootCA in
  ca o = [rootCA]
  /\ rejectUnauthorized o = true
  /\ minVersion o = js "TLSv1.3"
  /\ maxVersion o = minVersion o
  /\ last tls_versions = Some (minVersion o)
  /\ Forall (fun suite => In suite aead_suites) (split 58 (ciphers o))
  /\ (env !! "TLS_TIMEOUT_MS" = None -> timeout o = Decimal false 5000 0)
  /\ (forall n, n <> 0 ->
        env !! "TLS_TIMEOUT_MS" = Some (JSON.N_to_string n) ->
        timeout o = Decimal false n 0)
  /\ (connect_exception o = None ->
      exists m,
        timeout o = Decimal false m 0 /\ m <> 0 /\ (Z.of_N m < 2 ^ 1024)%Z)
  /\ (env !! "TLS_TIMEOUT_MS" = None -> env !! "PYTHON_SERVER_PORT" = None ->
      connect_exception o = None)
  /\ (valid_timeout (timeout o) = false ->
      connect_exception o = Some out_of_range_error)
  /\ (forall g now_ms usuario mensaje events key,
        env !! "HMAC_KEY" = Some key -> key <> [] ->
        let run :=
          fst (enviarTransaccionTCP env rootCA g now_ms usuario mensaje
                 events) in
        (connect_exception o = None ->
         exists more,
           calls run
           = TlsConnect o :: SetEncoding "utf8" :: SetTimeout (timeout o)
               :: more)
        /\ (forall thrown,
              connect_exception o = Some thrown ->
              calls run = [TlsConnect o]
              /\ promise run = Some (Rejected thrown))).
Proof.
  intros o. subst o.
  change (timeout (tlsOptions env rootCA)) with (tls_timeout_ms env).
  split; [reflexivity|]. split; [reflexivity|]. split; [reflexivity|].
  split; [reflexivity|]. split; [reflexivity|].
  split.
  { vm_compute. repeat (constructor; [tauto|]). constructor. }
  split.
  { intros H. unfold tls_timeout_ms. rewrite H. reflexivity. }
  split.
  { intros n Hn H. unfold tls_timeout_ms. rewrite H, parseInt_decimal.
    unfold num_or. rewrite truthy_integer.
    destruct (N.eqb_spec n 0); [congruence|]. reflexivity. }
  split.
  { rewrite connect_exception_cases.
    destruct (tls_timeout_shape env) as (neg & m & Hshape & Hm).
    rewrite Hshape.
    destruct (valid_timeout (Decimal neg m 0)) eqn:Hv; [|discriminate].
    intros _. destruct (valid_timeout_bounded neg m Hm Hv) as [-> Hb].
    exists m. auto. }
  split.
  { intros Ht Hp. rewrite connect_exception_cases.
    unfold tls_timeout_ms, PYTHON_SERVER_PORT.
    rewrite Ht, Hp. reflexivity. }
  split.
  { intros Hv. rewrite connect_exception_cases, Hv. reflexivity. }
  intros g now_ms usuario mensaje events key Hk Hne.
  cbv zeta. split.
  - intros Hv.
    rewrite (enviar_configured _ _ _ _ _ _ _ key Hk Hne Hv). cbn [fst].
    destruct (run_calls_grow (fst (compose key g now_ms usuario mensaje))
                events (opened env rootCA)) as [more ->].
    exists more. reflexivity.
  - intros thrown Hv.
    rewrite (enviar_thrown _ _ _ _ _ _ _ key thrown Hk Hne Hv).
    split; reflexivity.
Qed.

Lemma channel_is_pinned_to_tls13_witness :
  timeout (tlsOptions Sample.env Sample.rootCA) = Decimal false 5000 0
  /\ timeout (tlsOptions Sample.env_timeout Sample.rootCA)
     = Decimal false 1500 0
  /\ promise (fst (enviarTransaccionTCP Sample.env_negative Sample.rootCA
                     Sample.rng Sample.now_ms Sample.usuario Sample.mensaje
                     [EvSecureConnect]))
     = Some (Rejected out_of_range_error).
Proof.
  split; [|split].
  - pose proof (channel_is_pinned_to_tls13 Sample.env Sample.rootCA)
      as (_ & _ & _ & _ & _ & _ & Hdefault & _).
    apply Hdefault. reflexivity.
  - pose proof (channel_is_pinned_to_tls13 Sample.env_timeout Sample.rootCA)
      as (_ & _ & _ & _ & _ & _ & _ & Hset & _).
    apply (Hset 1500).
    + discriminate.
    + reflexivity.
  - pose proof (channel_is_pinned_to_tls13 Sample.env_negative Sample.rootCA)
      as (_ & _ & _ & _ & _ & _ & _ & _ & _ & _ & _ & Hcall).
    destruct (Hcall Sample.rng Sample.now_ms Sample.usuario Sample.mensaje
                [EvSecureConnect] (js "K") eq_refl ltac:(discriminate))
      as [_ Hthrown].
    exact (proj2 (Hthrown out_of_range_error eq_refl)).
Defined.

End TlsClaims.

(** ** Validation and sanitisation of the command *)

Section CommandClaims.

Import Spec.
Implicit Types env : gmap string jsstring.

Lemma four_fields (partes : list jsstring) :
  (length partes =? 4)%nat = true ->
  exists a b c d, partes = [a; b; c; d].
Proof.
  intros H. apply Nat.eqb_eq in H.
  do 5 (destruct partes as [|? partes]; try discriminate H).
  eauto.
Qed.

Lemma tipo_accepted tipo :
  negb (jsstring_eqb tipo (js "ingreso")) && negb (jsstring_eqb tipo (js "gasto"))
  = false <-> tipo = js "ingreso" \/ tipo = js "gasto".
Proof.
  rewrite andb_false_iff, !negb_false_iff, !jsstring_eqb_eq. reflexivity.
Qed.

Lemma sanitize_length s : (length (sanitizeInput (VString s)) <= length s)%nat.
Proof.
  simpl. pose proof (strip_markup_length (trim s)).
  pose proof (trim_length s). lia.
Qed.

(** What it takes for the handler to get past its checks. *)
Lemma check_mensaje_relays mensaje sanitized :
  check_mensaje mensaje = inr sanitized <->
  exists raw tipo cantidad categoria descripcion,
    mensaje = VString raw /\ raw <> [] /\ (length raw <= 250)%nat
    /\ sanitized = sanitizeInput mensaje
    /\ split 44 sanitized = [tipo; cantidad; categoria; descripcion]
    /\ (tipo = js "ingreso" \/ tipo = js "gasto")
    /\ isNaN (parseFloat cantidad) = false
    /\ le_zero (parseFloat cantidad) = false.
Proof.
  unfold check_mensaje. split.
  - destruct (truthy mensaje) eqn:Ht; cbn [negb]; [|discriminate].
    destruct mensaje as [| | | |raw| |items]; try discriminate.
    destruct (250 <? length raw)%nat eqn:Hlen; [discriminate|].
    apply Nat.ltb_ge in Hlen.
    destruct (length (split 44 (sanitizeInput (VString raw))) =? 4)%nat
      eqn:H4; cbn [negb]; [|discriminate].
    destruct (four_fields _ H4) as (a & b & c & d & Hparts).
    rewrite Hparts. cbn [nth].
    destruct (negb (jsstring_eqb a (js "ingreso"))
              && negb (jsstring_eqb a (js "gasto"))) eqn:Htipo;
      [discriminate|].
    apply tipo_accepted in Htipo.
    destruct (isNaN (parseFloat b) || le_zero (parseFloat b)) eqn:Hc;
      [discriminate|].
    apply orb_false_iff in Hc. destruct Hc as [Hnan Hpos].
    intros [= <-]. exists raw, a, b, c, d.
    repeat split; auto.
    intros ->. discriminate Ht.
  - intros (raw & a & b & c & d & -> & Hne & Hlen & -> & Hparts & Htipo
            & Hnan & Hpos).
    destruct raw as [|x raw]; [congruence|]. cbn [truthy negb].
    apply Nat.ltb_ge in Hlen. rewrite Hlen, Hparts. cbn [length Nat.eqb negb nth].
    apply tipo_accepted in Htipo. rewrite Htipo, Hnan, Hpos. reflexivity.
Qed.

(** Every refusal of the handler's checks is a 400. *)
Lemma check_mensaje_refuses mensaje reply :
  check_mensaje mensaje = inl reply -> status reply = 400.
Proof.
  unfold check_mensaje.
  destruct (negb (truthy mensaje)); [intros [= <-]; reflexivity|].
  destruct mensaje; try (intros [= <-]; reflexivity).
  destruct (250 <? length s)%nat; [intros [= <-]; reflexivity|].
  destruct (negb _); [intros [= <-]; reflexivity|].
  destruct (_ && _); [intros [= <-]; reflexivity|].
  destruct (_ || _); [intros [= <-]; reflexivity | discriminate].
Qed.

(** C7, as amended. A command is relayed only if it is a non-empty string
    of at most 250 code units whose sanitised form splits at the commas
    into exactly four sub-fields, the first being ingreso or gasto and the
    second starting with a numeral that parseFloat reads as a number
    greater than zero; the description is then at most 250 code units
    long. Every other command is answered with status 400, and then no
    socket call is made and no nonce is drawn. *)
Theorem relay_requires_valid_sanitized_command mensaje :
  (forall sanitized,
     check_mensaje mensaje = inr sanitized ->
     exists raw tipo cantidad categoria descripcion,
       mensaje = VString raw /\ raw <> [] /\ (length raw <= 250)%nat
       /\ sanitized = sanitizeInput mensaje
       /\ split 44 sanitized = [tipo; cantidad; categoria; descripcion]
       /\ (tipo = js "ingreso" \/ tipo = js "gasto")
       /\ isNaN (parseFloat cantidad) = false
       /\ le_zero (parseFloat cantidad) = false
       /\ (length descripcion <= 250)%nat)
  /\ (forall reply,
        check_mensaje mensaje = inl reply ->
        status reply = 400
        /\ forall env rootCA g now_ms usuario events,
             api_send env rootCA g now_ms usuario mensaje events
             = (Some reply, [], g)).
Proof.
  split.
  - intros sanitized Hcheck. apply check_mensaje_relays in Hcheck.
    destruct Hcheck
      as (raw & a & b & c & d & -> & Hne & Hlen & -> & Hparts & Hrest).
    exists raw, a, b, c, d. repeat split; try tauto.
    pose proof (split_field_length 44 (sanitizeInput (VString raw))) as Hf.
    rewrite Hparts in Hf.
    apply List.Forall_forall with (x := d) in Hf; [|simpl; tauto].
    pose proof (sanitize_length raw). lia.
  - intros reply H. split; [eapply check_mensaje_refuses; exact H|].
    intros. unfold api_send. rewrite H. reflexivity.
Qed.

Lemma relay_requires_valid_sanitized_command_witness :
  exists raw tipo cantidad categoria descripcion,
    VString (js "<gasto>, 12.50 ,comida,cena") = VString raw
    /\ raw <> [] /\ (length raw <= 250)%nat
    /\ js "gasto, 12.50 ,comida,cena"
       = sanitizeInput (VString (js "<gasto>, 12.50 ,comida,cena"))
    /\ split 44 (js "gasto, 12.50 ,comida,cena")
       = [tipo; cantidad; categoria; descripcion]
    /\ (tipo = js "ingreso" \/ tipo = js "gasto")
    /\ isNaN (parseFloat cantidad) = false
    /\ le_zero (parseFloat cantidad) = false
    /\ (length descripcion <= 250)%nat.
Proof.
  apply (proj1 (relay_requires_valid_sanitized_command
                  (VString (js "<gasto>, 12.50 ,comida,cena")))).
  vm_compute. reflexivity.
Defined.

(** C7, as written, fails. Markup around the operation kind is removed
    before the checks, so a command whose first sub-field is not an
    operation kind is relayed; and parseFloat stops at the first character
    that cannot continue a numeral, so a second sub-field that is not a
    decimal amount is accepted too. *)
Lemma relayed_command_need_not_have_the_shape :
  check_mensaje (VString (js "<ingreso>,5,a,b")) = inr (js "ingreso,5,a,b")
  /\ ~ command_shape (js "<ingreso>,5,a,b")
  /\ check_mensaje (VString (js "ingreso,5abc,a,b"))
     = inr (js "ingreso,5abc,a,b")
  /\ ~ command_shape (js "ingreso,5abc,a,b")
  /\ ~ Claimed.relays_only_shaped_commands.
Proof.
  assert (H1 : check_mensaje (VString (js "<ingreso>,5,a,b"))
               = inr (js "ingreso,5,a,b")) by (vm_compute; reflexivity).
  assert (H2 : ~ command_shape (js "<ingreso>,5,a,b")).
  { intros (t & c & cat & d & Hs & Ht & _).
    vm_compute in Hs. injection Hs as <- _ _ _.
    destruct Ht as [Ht|Ht]; vm_compute in Ht; discriminate Ht. }
  assert (H3 : check_mensaje (VString (js "ingreso,5abc,a,b"))
               = inr (js "ingreso,5abc,a,b")) by (vm_compute; reflexivity).
  assert (H4 : ~ command_shape (js "ingreso,5abc,a,b")).
  { intros (t & c & cat & d & Hs & _ & Hc).
    vm_compute in Hs. injection Hs as _ <- _ _.
    vm_compute in Hc. discriminate Hc. }
  repeat split; auto.
  intros Hclaim. apply H2. eapply Hclaim. exact H1.
Qed.

(** C10. The command is sanitised before it is signed: white space at
    both ends is removed, then every less-than sign, greater-than sign,
    apostrophe and double quote; an input that is not a string becomes
    the empty string. The result holds none of those four characters; it
    is the command in every message written on the channel and in the
    string the tag is computed over; and it can differ from the command
    that was submitted. *)
Theorem command_is_sanitized_before_signing :
  (forall input,
     Forall (fun c => is_markup_char c = false) (sanitizeInput input))
  /\ (forall s,
        sanitizeInput (VString s) = strip_markup (trim s)
        /\ exists l r,
             s = l ++ trim s ++ r
             /\ forallb isWhiteSpace l = true
             /\ forallb isWhiteSpace r = true
             /\ starts_clean (trim s) /\ ends_clean (trim s))
  /\ (forall input, (forall s, input <> VString s) -> sanitizeInput input = [])
  /\ (forall env rootCA g now_ms usuario mensaje events key d,
        env !! "HMAC_KEY" = Some key -> key <> [] ->
        In (SocketWrite d)
           (snd (fst (api_send env rootCA g now_ms usuario mensaje events))) ->
        d = JSON.stringify
              (payload_object usuario (sanitizeInput mensaje) (next_nonce g)
                 (now_ms / 1000)%Z
                 (hmacSha256Hex key
                    (dataToSign (next_nonce g) (now_ms / 1000)%Z usuario
                       (sanitizeInput mensaje)))) ++ [10])
  /\ (exists mensaje sanitized,
        check_mensaje (VString mensaje) = inr sanitized
        /\ sanitized <> mensaje).
Proof.
  split; [|split; [|split; [|split]]].
  - intros [| | | |s| |items]; simpl; try constructor. apply strip_markup_clean.
  - intros s. split; [reflexivity | apply trim_split].
  - intros [| | | |s| |items] H; try reflexivity. exfalso. apply (H s). reflexivity.
  - intros env rootCA g now_ms usuario mensaje events key d Hk Hne.
    unfold api_send.
    destruct (check_mensaje mensaje) as [reply|sanitized] eqn:Hcheck;
      [intros []|].
    apply check_mensaje_relays in Hcheck.
    destruct Hcheck as (raw & _ & _ & _ & _ & _ & _ & _ & -> & _).
    intros Hin.
    assert (Hin' : In (SocketWrite d)
                     (calls (fst (enviarTransaccionTCP env rootCA g now_ms
                                    usuario (sanitizeInput mensaje) events)))).
    { destruct (enviarTransaccionTCP env rootCA g now_ms usuario
                  (sanitizeInput mensaje) events) as [run g'].
      destruct (promise run) as [[v|e]|]; exact Hin. }
    rewrite (written_is_payload _ _ _ _ _ _ _ key d Hk Hne Hin').
    rewrite compose_eq. reflexivity.
  - exists (js " 'ingreso',5,a,b "), (js "ingreso,5,a,b").
    split; [vm_compute; reflexivity | discriminate].
Qed.

Lemma command_is_sanitized_before_signing_witness :
  In (SocketWrite
        (fst (compose (js "K") Sample.rng Sample.now_ms Sample.usuario
                (js "ingreso,5,a,b")) ++ [10]))
     (snd (fst (api_send Sample.env Sample.rootCA Sample.rng Sample.now_ms
                  Sample.usuario (VString (js " 'ingreso',5,a,b "))
                  [EvSecureConnect])))
  /\ fst (compose (js "K") Sample.rng Sample.now_ms Sample.usuario
            (js "ingreso,5,a,b")) ++ [10]
     = JSON.stringify
         (payload_object Sample.usuario
            (sanitizeInput (VString (js " 'ingreso',5,a,b ")))
            (next_nonce Sample.rng) (Sample.now_ms / 1000)%Z
            (hmacSha256Hex (js "K")
               (dataToSign (next_nonce Sample.rng) (Sample.now_ms / 1000)%Z
                  Sample.usuario
                  (sanitizeInput (VString (js " 'ingreso',5,a,b ")))))) ++ [10].
Proof.
  assert (Hin : In (SocketWrite
                      (fst (compose (js "K") Sample.rng Sample.now_ms
                              Sample.usuario (js "ingreso,5,a,b")) ++ [10]))
                   (snd (fst (api_send Sample.env Sample.rootCA Sample.rng
                                Sample.now_ms Sample.usuario
                                (VString (js " 'ingreso',5,a,b "))
                                [EvSecureConnect])))).
  { vm_compute. right. right. right. left. reflexivity. }
  split; [exact Hin|].
  pose proof command_is_sanitized_before_signing as (_ & _ & _ & Hsigned & _).
  apply (Hsigned Sample.env Sample.rootCA Sample.rng Sample.now_ms
           Sample.usuario (VString (js " 'ingreso',5,a,b "))
           [EvSecureConnect] (js "K")).
  - reflexivity.
  - discriminate.
  - exact Hin.
Defined.

End CommandClaims.

(** ** Reading back what JSON.stringify wrote *)

Section CodecFacts.

Import Wire.

Ltac divmod_lia := zify; Z.to_euclidean_division_equations; lia.

Lemma hex_char_isHex d : d < 16 -> isHexDigit (hex_char d) = true.
Proof.
  intros Hd. unfold isHexDigit, isDigit, hex_char.
  destruct (N.ltb_spec d 10).
  - replace (48 <=? 48 + d) with true by (symmetry; apply N.leb_le; lia).
    replace (48 + d <=? 57) with true by (symmetry; apply N.leb_le; lia).
    reflexivity.
  - replace (97 <=? 87 + d) with true by (symmetry; apply N.leb_le; lia).
    replace (87 + d <=? 102) with true by (symmetry; apply N.leb_le; lia).
    rewrite orb_true_r. reflexivity.
Qed.

Lemma hex_digit_value_char d : d < 16 -> hex_digit_value (hex_char d) = d.
Proof.
  intros Hd. unfold hex_digit_value, isDigit, hex_char.
  destruct (N.ltb_spec d 10).
  - replace (48 <=? 48 + d) with true by (symmetry; apply N.leb_le; lia).
    replace (48 + d <=? 57) with true by (symmetry; apply N.leb_le; lia).
    simpl. lia.
  - replace (87 + d <=? 57) with false by (symmetry; apply N.leb_gt; lia).
    rewrite andb_false_r.
    replace (97 <=? 87 + d) with true by (symmetry; apply N.leb_le; lia).
    replace (87 + d <=? 102) with true by (symmetry; apply N.leb_le; lia).
    simpl. lia.
Qed.

Lemma parse_raw c tail :
  c <> 34 -> c <> 92 -> 32 <= c ->
  parse_string_body (c :: tail) = prepend c (parse_string_body tail).
Proof.
  intros H1 H2 H3. cbn [parse_string_body].
  rewrite (proj2 (N.eqb_neq c 34) H1), (proj2 (N.eqb_neq c 92) H2).
  replace (c <? 32) with false by (symmetry; apply N.ltb_ge; exact H3).
  reflexivity.
Qed.

Lemma parse_unicode_escape c tail :
  c < 65536 ->
  parse_string_body (JSON.unicode_escape c ++ tail)
  = prepend c (parse_string_body tail).
Proof.
  intros Hc. unfold JSON.unicode_escape, JSON.hex4.
  cbn [app parse_string_body N.eqb Pos.eqb forallb].
  assert (H3 : (c / 4096) mod 16 < 16) by (apply N.mod_lt; discriminate).
  assert (H2 : (c / 256) mod 16 < 16) by (apply N.mod_lt; discriminate).
  assert (H1 : (c / 16) mod 16 < 16) by (apply N.mod_lt; discriminate).
  assert (H0 : c mod 16 < 16) by (apply N.mod_lt; discriminate).
  rewrite !hex_char_isHex by assumption. cbn [andb].
  unfold hex_value. cbn [fold_left].
  rewrite !hex_digit_value_char by assumption.
  replace (16 * (16 * (16 * (16 * 0 + (c / 4096) mod 16) + (c / 256) mod 16)
                 + (c / 16) mod 16) + c mod 16) with c by (clear - Hc; divmod_lia).
  reflexivity.
Qed.

Lemma surrogate_bounds c :
  is_high_surrogate c || is_low_surrogate c = true ->
  0xD800 <= c /\ c <= 0xDFFF.
Proof.
  unfold is_high_surrogate, is_low_surrogate.
  rewrite orb_true_iff, !andb_true_iff, !N.leb_le. lia.
Qed.

(** One escaped or copied code unit is read back as that code unit. *)
Lemma parse_quote_unit c tail :
  parse_string_body (JSON.quote_unit c ++ tail)
  = prepend c (parse_string_body tail).
Proof.
  unfold JSON.quote_unit.
  destruct (N.eqb_spec c 34) as [->|H34]; [reflexivity|].
  destruct (N.eqb_spec c 92) as [->|H92]; [reflexivity|].
  destruct (N.eqb_spec c 8) as [->|H8]; [reflexivity|].
  destruct (N.eqb_spec c 9) as [->|H9]; [reflexivity|].
  destruct (N.eqb_spec c 10) as [->|H10]; [reflexivity|].
  destruct (N.eqb_spec c 12) as [->|H12]; [reflexivity|].
  destruct (N.eqb_spec c 13) as [->|H13]; [reflexivity|].
  destruct (N.ltb_spec c 32) as [Hlt|Hge].
  - apply parse_unicode_escape. lia.
  - destruct (is_high_surrogate c || is_low_surrogate c) eqn:Hs.
    + apply parse_unicode_escape. apply surrogate_bounds in Hs. lia.
    + apply parse_raw; assumption.
Qed.

Lemma parse_quote_body_bounded n :
  forall s tail,
    (length s <= n)%nat ->
    parse_string_body (JSON.quote_body s ++ 34 :: tail) = Some (s, tail).
Proof.
  induction n as [|n IH]; intros s tail Hlen.
  - destruct s; [reflexivity | simpl in Hlen; lia].
  - destruct s as [|c r]; [reflexivity|].
    cbn [JSON.quote_body].
    assert (Hunit : parse_string_body
                      ((JSON.quote_unit c ++ JSON.quote_body r) ++ 34 :: tail)
                    = Some (c :: r, tail)).
    { rewrite <- app_assoc, parse_quote_unit, IH by (simpl in Hlen; lia).
      reflexivity. }
    destruct (is_high_surrogate c) eqn:Hhigh; [|exact Hunit].
    destruct r as [|d r'].
    + rewrite <- (app_nil_r (JSON.quote_unit c)). exact Hunit.
    + destruct (is_low_surrogate d) eqn:Hlow; [|exact Hunit].
      assert (Hc : 0xD800 <= c /\ c <= 0xDFFF)
        by (apply surrogate_bounds; rewrite Hhigh; reflexivity).
      assert (Hd : 0xD800 <= d /\ d <= 0xDFFF)
        by (apply surrogate_bounds; rewrite Hlow; apply orb_true_r).
      cbn [app]. rewrite parse_raw by lia. rewrite parse_raw by lia.
      rewrite IH by (simpl in Hlen; lia). reflexivity.
Qed.

(** The body of a quoted string, up to the closing quote, is read back as
    the string. *)
Lemma parse_quote_body s tail :
  parse_string_body (JSON.quote_body s ++ 34 :: tail) = Some (s, tail).
Proof. apply (parse_quote_body_bounded (length s)). lia. Qed.

Lemma parse_quote s tail :
  parse_atom (JSON.quote s ++ tail) = Some (JSON.AString s, tail).
Proof.
  unfold JSON.quote, parse_atom. cbn [app N.eqb Pos.eqb].
  rewrite <- app_assoc. cbn [app]. rewrite parse_quote_body. reflexivity.
Qed.

Lemma parse_number z tail :
  not_digit_first tail ->
  parse_atom (JSON.number_to_string z ++ tail) = Some (JSON.AInteger z, tail).
Proof.
  intros Htail. unfold JSON.number_to_string.
  destruct (Z.ltb_spec z 0) as [Hneg|Hpos].
  - destruct (N_to_string_spec (Z.abs_N z)) as (Hne & Hall & Hval).
    unfold parse_atom, parse_integer. cbn [app N.eqb Pos.eqb].
    rewrite span_digits_app by assumption.
    destruct (JSON.N_to_string (Z.abs_N z)) as [|d ds]; [congruence|].
    rewrite Hval. do 2 f_equal. f_equal. lia.
  - destruct (N_to_string_spec (Z.to_N z)) as (Hne & Hall & Hval).
    destruct (JSON.N_to_string (Z.to_N z)) as [|d ds] eqn:E; [congruence|].
    assert (Hd : isDigit d = true)
      by (simpl in Hall; apply andb_true_iff in Hall; tauto).
    unfold isDigit in Hd. apply andb_true_iff in Hd. rewrite !N.leb_le in Hd.
    unfold parse_atom, parse_integer. cbn [app].
    replace (d =? 34) with false by (symmetry; apply N.eqb_neq; lia).
    replace (d =? 45) with false by (symmetry; apply N.eqb_neq; lia).
    change (d :: ds ++ tail) with ((d :: ds) ++ tail).
    rewrite span_digits_app by assumption.
    rewrite Hval. do 2 f_equal. f_equal. lia.
Qed.

Lemma parse_stringify_atom a tail :
  not_digit_first tail ->
  parse_atom (JSON.stringify_atom a ++ tail) = Some (a, tail).
Proof.
  intros Htail. destruct a as [s|z]; cbn [JSON.stringify_atom].
  - apply parse_quote.
  - apply parse_number, Htail.
Qed.

Lemma parse_member fuel k v sep tail :
  sep = 125 \/ sep = 44 ->
  parse_members (S fuel) (JSON.stringify_member (k, v) ++ sep :: tail)
  = if sep =? 125 then Some ([(k, v)], tail)
    else match parse_members fuel tail with
         | Some (ms, rest) => Some ((k, v) :: ms, rest)
         | None => None
         end.
Proof.
  intros Hsep. unfold JSON.stringify_member, JSON.quote. cbn [fst snd].
  cbn [parse_members app N.eqb Pos.eqb].
  rewrite <- !app_assoc. cbn [app]. rewrite parse_quote_body.
  cbn [N.eqb Pos.eqb].
  rewrite parse_stringify_atom
    by (destruct Hsep as [->| ->]; reflexivity).
  destruct Hsep as [->| ->]; reflexivity.
Qed.

(** The properties of an object, up to the closing brace, are read back
    in order. *)
Lemma parse_join_members o :
  forall fuel tail,
    o <> [] -> (length o <= fuel)%nat ->
    parse_members fuel (JSON.join_members o ++ 125 :: tail) = Some (o, tail).
Proof.
  induction o as [|[k v] o IH]; intros fuel tail Hne Hlen; [congruence|].
  destruct fuel as [|fuel]; [simpl in Hlen; lia|].
  destruct o as [|m o'].
  - cbn [JSON.join_members]. rewrite parse_member by auto. reflexivity.
  - change (JSON.join_members ((k, v) :: m :: o'))
      with (JSON.stringify_member (k, v) ++ [44]
              ++ JSON.join_members (m :: o')).
    rewrite <- !app_assoc. cbn [app]. rewrite parse_member by auto.
    cbn [N.eqb Pos.eqb].
    rewrite IH by (simpl in *; try discriminate; lia). reflexivity.
Qed.

Lemma stringify_member_starts m :
  exists rest, JSON.stringify_member m = 34 :: rest.
Proof. unfold JSON.stringify_member, JSON.quote. simpl. eauto. Qed.

Lemma join_members_length o :
  (length o <= length (JSON.join_members o))%nat.
Proof.
  induction o as [|m o IH]; [simpl; lia|].
  destruct (stringify_member_starts m) as [rest Hm].
  destruct o as [|m' o'].
  - cbn [JSON.join_members]. rewrite Hm. simpl. lia.
  - change (JSON.join_members (m :: m' :: o'))
      with (JSON.stringify_member m ++ [44] ++ JSON.join_members (m' :: o')).
    rewrite Hm, !length_app. simpl in *. lia.
Qed.

(** An object written by JSON.stringify is read back as it was. *)
Lemma parse_stringify o tail :
  parse_object (JSON.stringify o ++ tail) = Some (o, tail).
Proof.
  unfold JSON.stringify, parse_object. cbn [app N.eqb Pos.eqb].
  destruct o as [|m o]; [reflexivity|].
  destruct (stringify_member_starts m) as [rest Hm].
  assert (Hfirst : exists rest', JSON.join_members (m :: o) = 34 :: rest').
  { destruct o as [|m' o'].
    - cbn [JSON.join_members]. eauto.
    - change (JSON.join_members (m :: m' :: o'))
        with (JSON.stringify_member m ++ [44]
                ++ JSON.join_members (m' :: o')).
      rewrite Hm. simpl. eauto. }
  destruct Hfirst as [rest' Hfirst].
  rewrite <- app_assoc. cbn [app].
  pose proof (join_members_length (m :: o)) as Hlen.
  rewrite <- (parse_join_members (m :: o)
                (length (JSON.join_members (m :: o) ++ 125 :: tail)) tail)
    by (try discriminate; rewrite length_app; lia).
  rewrite Hfirst. reflexivity.
Qed.

End CodecFacts.

(** ** One line per message *)

Section LineFacts.

Lemma hex_char_printable d : 48 <= hex_char d.
Proof. unfold hex_char. destruct (d <? 10); lia. Qed.

Lemma no_newline_app s t : no_newline s -> no_newline t -> no_newline (s ++ t).
Proof. intros Hs Ht. apply Forall_app. split; assumption. Qed.

Lemma no_newline_cons c s : c <> 10 -> no_newline s -> no_newline (c :: s).
Proof. intros Hc Hs. constructor; assumption. Qed.

Lemma unicode_escape_no_newline c : no_newline (JSON.unicode_escape c).
Proof.
  unfold JSON.unicode_escape, JSON.hex4.
  repeat (apply no_newline_cons;
          [try discriminate;
           match goal with
           | |- hex_char ?d <> 10 => pose proof (hex_char_printable d); lia
           end|]).
  constructor.
Qed.

Lemma quote_unit_no_newline c : no_newline (JSON.quote_unit c).
Proof.
  unfold JSON.quote_unit.
  repeat match goal with
         | |- context [if ?c =? ?k then _ else _] =>
             destruct (N.eqb_spec c k);
             [repeat (constructor; try discriminate)|]
         end.
  destruct (N.ltb_spec c 32); [apply unicode_escape_no_newline|].
  destruct (_ || _); [apply unicode_escape_no_newline|].
  constructor; [lia | constructor].
Qed.

Lemma quote_body_no_newline_bounded n :
  forall s, (length s <= n)%nat -> no_newline (JSON.quote_body s).
Proof.
  induction n as [|n IH]; intros s Hlen.
  - destruct s; [constructor | simpl in Hlen; lia].
  - destruct s as [|c r]; [constructor|]. cbn [JSON.quote_body].
    assert (Hunit : no_newline (JSON.quote_unit c ++ JSON.quote_body r)).
    { apply no_newline_app; [apply quote_unit_no_newline|].
      apply IH. simpl in Hlen. lia. }
    destruct (is_high_surrogate c) eqn:Hhigh; [|exact Hunit].
    destruct r as [|d r']; [apply quote_unit_no_newline|].
    destruct (is_low_surrogate d) eqn:Hlow; [|exact Hunit].
    assert (Hc : 0xD800 <= c /\ c <= 0xDFFF)
      by (apply surrogate_bounds; rewrite Hhigh; reflexivity).
    assert (Hd : 0xD800 <= d /\ d <= 0xDFFF)
      by (apply surrogate_bounds; rewrite Hlow; apply orb_true_r).
    apply no_newline_cons; [lia|]. apply no_newline_cons; [lia|].
    apply IH. simpl in Hlen. lia.
Qed.

Lemma quote_no_newline s : no_newline (JSON.quote s).
Proof.
  unfold JSON.quote. apply no_newline_cons; [discriminate|].
  apply no_newline_app.
  - apply (quote_body_no_newline_bounded (length s)). lia.
  - constructor; [discriminate | constructor].
Qed.

Lemma digits_no_newline ds : forallb isDigit ds = true -> no_newline ds.
Proof.
  induction ds as [|d ds IH]; simpl; [constructor|].
  rewrite andb_true_iff. intros [Hd Hds]. constructor; [|apply IH, Hds].
  unfold isDigit in Hd. apply andb_true_iff in Hd. rewrite !N.leb_le in Hd.
  lia.
Qed.

Lemma number_no_newline z : no_newline (JSON.number_to_string z).
Proof.
  unfold JSON.number_to_string. destruct (z <? 0)%Z.
  - apply no_newline_cons; [discriminate|].
    apply digits_no_newline, N_to_string_spec.
  - apply digits_no_newline, N_to_string_spec.
Qed.

Lemma member_no_newline m : no_newline (JSON.stringify_member m).
Proof.
  unfold JSON.stringify_member.
  apply no_newline_app; [apply quote_no_newline|].
  apply no_newline_cons; [discriminate|].
  destruct (snd m); [apply quote_no_newline | apply number_no_newline].
Qed.

Lemma join_members_no_newline o : no_newline (JSON.join_members o).
Proof.
  induction o as [|m o IH]; [constructor|].
  destruct o as [|m' o']; [apply member_no_newline|].
  change (JSON.join_members (m :: m' :: o'))
    with (JSON.stringify_member m ++ [44] ++ JSON.join_members (m' :: o')).
  apply no_newline_app; [apply member_no_newline|].
  apply no_newline_cons; [discriminate | exact IH].
Qed.

(** A serialised object holds no line feed. *)
Lemma stringify_no_newline o : no_newline (JSON.stringify o).
Proof.
  unfold JSON.stringify. apply no_newline_cons; [discriminate|].
  apply no_newline_app; [apply join_members_no_newline|].
  constructor; [discriminate | constructor].
Qed.

End LineFacts.

Section CodecClaims.

Import Wire.

Lemma payload_properties usuario mensaje nonce timestamp mac :
  JSON.string_property "tipo"
    (payload_object usuario mensaje nonce timestamp mac) = Some (js "MSG")
  /\ JSON.string_property "usuario"
       (payload_object usuario mensaje nonce timestamp mac) = Some usuario
  /\ JSON.string_property "mensaje"
       (payload_object usuario mensaje nonce timestamp mac) = Some mensaje
  /\ JSON.string_property "nonce"
       (payload_object usuario mensaje nonce timestamp mac) = Some nonce
  /\ JSON.integer_property "timestamp"
       (payload_object usuario mensaje nonce timestamp mac) = Some timestamp
  /\ JSON.string_property "mac"
       (payload_object usuario mensaje nonce timestamp mac) = Some mac.
Proof. repeat split; reflexivity. Qed.

(** What the relay writes is the encoding of the message it composed. *)
Lemma written_line_is_encoded key g now_ms usuario mensaje :
  fst (compose key g now_ms usuario mensaje) ++ [10]
  = encode
      {| msg_tipo := js "MSG"; msg_usuario := usuario;
         msg_mensaje := mensaje; msg_nonce := next_nonce g;
         msg_timestamp := (now_ms / 1000)%Z;
         msg_mac :=
           hmacSha256Hex key
             (dataToSign (next_nonce g) (now_ms / 1000)%Z usuario mensaje) |}.
Proof. reflexivity. Qed.

(** C8. For every message whose kind is MSG, decoding what the gateway
    writes for it gives the message back; and what the gateway writes is
    one line: a record with no line feed in it, followed by a line
    feed. *)
Theorem decode_inverts_encode m :
  msg_tipo m = js "MSG" ->
  decode (encode m) = Some m
  /\ exists record, encode m = record ++ [10] /\ no_newline record.
Proof.
  intros Htipo. split.
  - unfold decode, encode. rewrite parse_stringify.
    destruct (payload_properties (msg_usuario m) (msg_mensaje m) (msg_nonce m)
                (msg_timestamp m) (msg_mac m))
      as (-> & -> & -> & -> & -> & ->).
    change (jsstring_eqb [10] [10]) with true. cbn iota.
    rewrite jsstring_eqb_refl. destruct m; simpl in *. subst. reflexivity.
  - eexists. split; [reflexivity | apply stringify_no_newline].
Qed.

Lemma decode_inverts_encode_witness :
  decode
    (encode {| msg_tipo := js "MSG"; msg_usuario := Sample.usuario;
               msg_mensaje := Sample.mensaje; msg_nonce := js "00ff";
               msg_timestamp := 1700000000; msg_mac := js "abcd" |})
  = Some {| msg_tipo := js "MSG"; msg_usuario := Sample.usuario;
            msg_mensaje := Sample.mensaje; msg_nonce := js "00ff";
            msg_timestamp := 1700000000; msg_mac := js "abcd" |}.
Proof.
  apply (decode_inverts_encode
           {| msg_tipo := js "MSG"; msg_usuario := Sample.usuario;
              msg_mensaje := Sample.mensaje; msg_nonce := js "00ff";
              msg_timestamp := 1700000000; msg_mac := js "abcd" |}).
  reflexivity.
Defined.

Lemma property_cons name k v o :
  JSON.property name ((k, v) :: o)
  = if jsstring_eqb k name then Some v else JSON.property name o.
Proof. reflexivity. Qed.

(** C9. The payload has exactly the properties tipo, usuario, mensaje,
    nonce, timestamp and mac, in that order, and the key reaches it only
    through the value of mac: composed under two keys from the same
    inputs, the two payloads share everything up to the quoted tag and
    the closing brace after it, every property other than mac has the
    same value in both, and the random generator is left in the same
    state. *)
Theorem key_reaches_payload_only_through_tag key1 key2 g now_ms usuario
    mensaje :
  exists prefix o1 o2 mac1 mac2,
    fst (compose key1 g now_ms usuario mensaje) = JSON.stringify o1
    /\ fst (compose key2 g now_ms usuario mensaje) = JSON.stringify o2
    /\ map fst o1 = payload_fields /\ map fst o2 = payload_fields
    /\ (forall name,
          name <> js "mac" -> JSON.property name o1 = JSON.property name o2)
    /\ JSON.stringify o1 = prefix ++ JSON.quote mac1 ++ [125]
    /\ JSON.stringify o2 = prefix ++ JSON.quote mac2 ++ [125]
    /\ snd (compose key1 g now_ms usuario mensaje)
       = snd (compose key2 g now_ms usuario mensaje).
Proof.
  set (nonce := next_nonce g). set (ts := (now_ms / 1000)%Z).
  set (mac1 := hmacSha256Hex key1 (dataToSign nonce ts usuario mensaje)).
  set (mac2 := hmacSha256Hex key2 (dataToSign nonce ts usuario mensaje)).
  exists ([123]
            ++ JSON.stringify_member (js "tipo", JSON.AString (js "MSG"))
            ++ [44] ++ JSON.stringify_member (js "usuario", JSON.AString usuario)
            ++ [44] ++ JSON.stringify_member (js "mensaje", JSON.AString mensaje)
            ++ [44] ++ JSON.stringify_member (js "nonce", JSON.AString nonce)
            ++ [44] ++ JSON.stringify_member (js "timestamp", JSON.AInteger ts)
            ++ [44] ++ JSON.quote (js "mac") ++ [58]),
    (payload_object usuario mensaje nonce ts mac1),
    (payload_object usuario mensaje nonce ts mac2), mac1, mac2.
  split; [reflexivity|]. split; [reflexivity|].
  split; [reflexivity|]. split; [reflexivity|].
  split.
  { intros name Hname. unfold payload_object. rewrite !property_cons.
    assert (Hmac : jsstring_eqb (js "mac") name = false)
      by (apply jsstring_eqb_neq; congruence).
    rewrite Hmac. reflexivity. }
  split; [|split; [|reflexivity]].
  - unfold JSON.stringify, payload_object. cbn [JSON.join_members].
    unfold JSON.stringify_member at 6. cbn [fst snd JSON.stringify_atom].
    rewrite <- !app_assoc. reflexivity.
  - unfold JSON.stringify, payload_object. cbn [JSON.join_members].
    unfold JSON.stringify_member at 6. cbn [fst snd JSON.stringify_atom].
    rewrite <- !app_assoc. reflexivity.
Qed.

End CodecClaims.

(** ** The setup script, statement by statement *)

Section SetupFacts.

Import Setup.

Lemma connect_from_spec fuel i connects waited :
  (1 <= i)%nat -> (i + fuel = S maxRetries)%nat ->
  match connect_from fuel i connects waited with
  | (Some k, w) =>
      (i <= k <= maxRetries)%nat /\ connects k = true
      /\ (forall j, (i <= j < k)%nat -> connects j = false)
      /\ w = waited + retryDelay * N.of_nat (k - i)
  | (None, w) =>
      (forall j, (i <= j <= maxRetries)%nat -> connects j = false)
      /\ w = waited + retryDelay * N.of_nat (maxRetries - i)
  end.
Proof.
  unfold maxRetries, retryDelay.
  revert i waited. induction fuel as [|fuel IH]; intros i waited Hi Hsum;
    cbn [connect_from].
  - split; [intros j Hj; lia | lia].
  - destruct (connects i) eqn:Ec.
    + repeat split; try lia; assumption.
    + unfold maxRetries. destruct (Nat.eqb_spec i 10) as [->|Hne].
      * split; [|lia]. intros j Hj.
        replace j with 10%nat by lia. exact Ec.
      * specialize (IH (S i) (waited + 2000) ltac:(lia) ltac:(lia)).
        unfold retryDelay.
        destruct (connect_from fuel (S i) connects (waited + 2000))
          as [[k|] w].
        -- destruct IH as (Hk & Hck & Hbefore & ->).
           repeat split; try lia; auto.
           intros j Hj. destruct (Nat.eq_dec j i) as [->|]; [exact Ec|].
           apply Hbefore. lia.
        -- destruct IH as (Hall & ->). split; [|lia].
           intros j Hj. destruct (Nat.eq_dec j i) as [->|]; [exact Ec|].
           apply Hall. lia.
Qed.

Lemma hash_all_iniciales L salts :
  hash_all L salts 0 usuarios_iniciales
  = match Auth.bcrypt_hash L (salts 0%nat) SALT_ROUNDS (js "admin") with
    | Some h => Some [(js "admin", h)]
    | None => None
    end.
Proof.
  unfold usuarios_iniciales. cbn [hash_all].
  destruct (Auth.bcrypt_hash L (salts 0%nat) SALT_ROUNDS (js "admin"));
    reflexivity.
Qed.

Lemma connect_outcome connects :
  match fst (connect connects) with
  | Some _ => existsb connects (seq 1 10) = true
  | None => existsb connects (seq 1 10) = false
  end.
Proof.
  pose proof (connect_from_spec maxRetries 1 connects 0
                ltac:(lia) ltac:(reflexivity)) as H.
  unfold connect. unfold maxRetries in *.
  destruct (connect_from 10 1 connects 0) as [[k|] w]; cbn [fst].
  - destruct H as (Hk & Hck & _). apply existsb_exists. exists k.
    split; [apply in_seq; lia | exact Hck].
  - destruct H as [Hall _].
    destruct (existsb connects (seq 1 10)) eqn:E; [|reflexivity].
    apply existsb_exists in E. destruct E as (j & Hj & Hcj).
    apply in_seq in Hj. rewrite Hall in Hcj by lia. discriminate.
Qed.

(** The statements of the script are accepted by any database. *)
Lemma execute_statements h now db :
  (length h <= 255)%nat ->
  execute (statements [(js "admin", h)] now) db
  = (true,
     {| usuarios :=
          Some {| Auth.user_rows :=
                    [{| Auth.user_id := 1; Auth.user_usuario := js "admin";
                        Auth.user_clave := h; Auth.user_fecha := now |}];
                  Auth.user_next_id := 2 |};
        movimientos := Some [];
        nonces_usados := Some Ledger.empty_table;
        vista := true |}).
Proof.
  intros Hlen. unfold statements. cbn [map app].
  assert (Hfit : (255 <? length h)%nat = false)
    by (apply Nat.ltb_ge; exact Hlen).
  destruct db as [[u|] [m|] [n|] [|]];
    cbn -[Nat.ltb]; rewrite Hfit; reflexivity.
Qed.

Lemma setup_succeeds L salts connects now db h :
  Auth.bcrypt_hash L (salts 0%nat) SALT_ROUNDS (js "admin") = Some h ->
  (length h <= 255)%nat ->
  existsb connects (seq 1 10) = true ->
  setupDatabase L salts connects now db
  = (None,
     {| usuarios :=
          Some {| Auth.user_rows :=
                    [{| Auth.user_id := 1; Auth.user_usuario := js "admin";
                        Auth.user_clave := h; Auth.user_fecha := now |}];
                  Auth.user_next_id := 2 |};
        movimientos := Some [];
        nonces_usados := Some Ledger.empty_table;
        vista := true |}).
Proof.
  intros Hh Hlen Hconn. unfold setupDatabase.
  rewrite hash_all_iniciales, Hh.
  pose proof (connect_outcome connects) as Hc.
  destruct (fst (connect connects)); [|congruence].
  rewrite (execute_statements h now db Hlen). reflexivity.
Qed.

End SetupFacts.

(** ** The nonce ledger *)

Section LedgerClaims.

Import Ledger History.














End LedgerClaims.

(** ** The checks of POST /api/send, from the shape of a command *)

Section ValidationFacts.

Lemma span_digits_spec s :
  s = fst (span_digits s) ++ snd (span_digits s)
  /\ forallb isDigit (fst (span_digits s)) = true
  /\ not_digit_first (snd (span_digits s)).
Proof.
  induction s as [|c s IH]; simpl; [auto|].
  destruct (isDigit c) eqn:E.
  - destruct (span_digits s) as [d t]. simpl in *.
    destruct IH as (H1 & H2 & H3). rewrite E.
    split; [f_equal; exact H1 | auto].
  - simpl. auto.
Qed.

Lemma split_no_sep sep s : ~ In sep s -> split sep s = [s].
Proof.
  induction s as [|c s IH]; simpl; intros H; [reflexivity|].
  destruct (N.eqb_spec c sep) as [->|_]; [tauto|].
  rewrite IH by tauto. reflexivity.
Qed.

Lemma split_app_sep sep a b :
  ~ In sep a -> split sep (a ++ sep :: b) = a :: split sep b.
Proof.
  induction a as [|c a IH]; simpl; intros H.
  - rewrite N.eqb_refl. reflexivity.
  - destruct (N.eqb_spec c sep) as [->|_]; [tauto|].
    rewrite IH by tauto. reflexivity.
Qed.

Lemma digits_value_pos ds :
  existsb (fun c => isDigit c && negb (c =? 48)) ds = true ->
  0 < digits_value ds.
Proof.
  induction ds as [|d ds IH] using rev_ind; [discriminate|].
  rewrite existsb_app, digits_value_snoc, orb_true_iff. simpl.
  rewrite orb_false_r. intros [H|H].
  - specialize (IH H). lia.
  - apply andb_true_iff in H. destruct H as [Hd Hz].
    unfold isDigit in Hd. apply andb_true_iff in Hd.
    rewrite !N.leb_le in Hd. apply negb_true_iff, N.eqb_neq in Hz. lia.
Qed.

Lemma read_sign_digit d s :
  isDigit d = true -> read_sign (d :: s) = (false, d :: s).
Proof.
  intros Hd. unfold read_sign. unfold isDigit in Hd.
  apply andb_true_iff in Hd. rewrite !N.leb_le in Hd.
  destruct (N.eq_dec d 45) as [->|]; [lia|].
  destruct (N.eq_dec d 43) as [->|]; [lia|].
  destruct d as [|p]; [reflexivity|].
  do 6 (destruct p as [p|p|]; try reflexivity); lia.
Qed.

(** What [parseFloat] makes of digits, optionally followed by a point and
    more digits: the number written, as it is written. *)
Lemma parseFloat_amount ip fp :
  ip <> [] -> forallb isDigit ip = true -> forallb isDigit fp = true ->
  parseFloat (ip ++ match fp with [] => [] | _ => 46 :: fp end)
  = Decimal false (digits_value (ip ++ fp)) (- Z.of_nat (length fp)).
Proof.
  intros Hne Hip Hfp. destruct ip as [|d ip]; [congruence|].
  assert (Hd : isDigit d = true)
    by (simpl in Hip; apply andb_true_iff in Hip; tauto).
  unfold parseFloat. cbn [app trimStart].
  rewrite (digit_not_space d Hd), (read_sign_digit _ _ Hd).
  assert (HI : startsWith (js "Infinity")
                 (d :: ip ++ match fp with [] => [] | _ => 46 :: fp end)
               = false).
  { replace (js "Infinity") with (73 :: js "nfinity") by reflexivity.
    cbn [startsWith]. unfold isDigit in Hd. apply andb_true_iff in Hd.
    rewrite !N.leb_le in Hd.
    replace (73 =? d) with false by (symmetry; apply N.eqb_neq; lia).
    reflexivity. }
  rewrite HI.
  change (d :: ip ++ match fp with [] => [] | _ => 46 :: fp end)
    with ((d :: ip) ++ match fp with [] => [] | _ => 46 :: fp end).
  rewrite (span_digits_app (d :: ip))
    by (first [exact Hip | destruct fp; [exact I | reflexivity]]).
  destruct fp as [|f fp].
  - cbn [app length]. rewrite app_nil_r. reflexivity.
  - rewrite <- (app_nil_r (f :: fp)) at 1.
    rewrite (span_digits_app (f :: fp) []) by (first [exact Hfp | exact I]).
    cbn [app read_exponent]. f_equal. 
Qed.

Lemma decimal_amount_parts s :
  Spec.is_decimal_amount s = true ->
  exists ip fp,
    s = ip ++ match fp with [] => [] | _ => 46 :: fp end
    /\ ip <> [] /\ forallb isDigit ip = true /\ forallb isDigit fp = true.
Proof.
  unfold Spec.is_decimal_amount.
  destruct (span_digits_spec s) as (Hs & Hip & _).
  destruct (span_digits s) as [ip r]. cbn [fst snd] in *.
  destruct ip as [|d ip]; [discriminate|].
  destruct r as [|c f]; intros H.
  - exists (d :: ip), []. rewrite app_nil_r in *. repeat split; auto;
    discriminate.
  - rewrite !andb_true_iff in H. destruct H as [[Hc Hf] Hall].
    apply N.eqb_eq in Hc. subst c.
    exists (d :: ip), f. destruct f as [|f0 f]; [discriminate|].
    repeat split; auto; discriminate.
Qed.

Lemma comma_free_amount ip fp :
  forallb isDigit ip = true -> forallb isDigit fp = true ->
  ~ In 44 (ip ++ match fp with [] => [] | _ => 46 :: fp end).
Proof.
  intros Hip Hfp Hin.
  assert (Hd : forall ds, forallb isDigit ds = true -> ~ In 44 ds).
  { intros ds Hds H. rewrite forallb_forall in Hds.
    specialize (Hds _ H). discriminate. }
  apply in_app_or in Hin. destruct Hin as [Hin|Hin].
  - exact (Hd _ Hip Hin).
  - destruct fp as [|f fp]; [destruct Hin|].
    destruct Hin as [Hin|Hin]; [discriminate|]. exact (Hd _ Hfp Hin).
Qed.

Lemma has_nonzero_digit_parts ip fp :
  existsb (fun c => isDigit c && negb (c =? 48))
    (ip ++ match fp with [] => [] | _ => 46 :: fp end) = true ->
  existsb (fun c => isDigit c && negb (c =? 48)) (ip ++ fp) = true.
Proof.
  rewrite !existsb_app. destruct fp as [|f fp]; [auto|].
  cbn [existsb]. change (isDigit 46) with false. cbn [andb orb]. auto.
Qed.

End ValidationFacts.

Section ValidationExtras.

(** X1. The checks of POST /api/send let every well-formed command
    through. If the message has at most 250 characters and its sanitised
    form is [tipo,cantidad,categoria,descripcion], with [tipo] one of
    ingreso and gasto, [cantidad] digits with an optional point and more
    digits, one of them not zero, and no comma inside the last two
    fields, the handler relays the sanitised form. The bound on the
    length matters: it keeps a small amount from being read as zero. *)
Theorem well_formed_command_is_relayed raw tipo cantidad categoria
    descripcion :
  (length raw <= 250)%nat ->
  sanitizeInput (VString raw)
  = tipo ++ [44] ++ cantidad ++ [44] ++ categoria ++ [44] ++ descripcion ->
  tipo = js "ingreso" \/ tipo = js "gasto" ->
  Spec.is_positive_amount cantidad = true ->
  ~ In 44 categoria -> ~ In 44 descripcion ->
  check_mensaje (VString raw) = inr (sanitizeInput (VString raw)).
Proof.
  intros Hlen Hs Htipo Hamount Hcat Hdesc.
  unfold Spec.is_positive_amount in Hamount.
  apply andb_true_iff in Hamount. destruct Hamount as [Hdec Hnz].
  destruct (decimal_amount_parts _ Hdec) as (ip & fp & -> & Hne & Hip & Hfp).
  pose proof (parseFloat_amount ip fp Hne Hip Hfp) as Hparse.
  pose proof (digits_value_pos _ (has_nonzero_digit_parts _ _ Hnz)) as Hpos.
  set (cantidad := ip ++ match fp with [] => [] | _ => 46 :: fp end) in *.
  apply check_mensaje_relays.
  exists raw, tipo, cantidad, categoria, descripcion.
  assert (Htc : ~ In 44 tipo).
  { destruct Htipo as [-> | ->]; intros H;
      repeat (destruct H as [H|H]; [discriminate|]); exact H. }
  repeat split; auto.
  - intros ->. destruct tipo; discriminate.
  - rewrite Hs. cbn [app].
    rewrite (split_app_sep 44 tipo) by exact Htc.
    rewrite (split_app_sep 44 cantidad) by (apply comma_free_amount; assumption).
    rewrite (split_app_sep 44 categoria) by exact Hcat.
    rewrite (split_no_sep 44 descripcion) by exact Hdesc. reflexivity.
  - rewrite Hparse. reflexivity.
  - rewrite Hparse. cbn [le_zero orb]. unfold rounds_to_zero.
    destruct (Z.leb_spec 0 (- Z.of_nat (length fp))) as [He|He].
    + apply N.eqb_neq. lia.
    + apply Z.leb_gt. rewrite Z.opp_involutive.
      assert (Hfl : (length fp <= 250)%nat).
      { pose proof (sanitize_length raw) as Hsl. rewrite Hs in Hsl.
        rewrite !length_app in Hsl. subst cantidad.
        rewrite length_app in Hsl. destruct fp; simpl in *; lia. }
      assert (Hpow : (10 ^ Z.of_nat (length fp) <= 10 ^ 250)%Z)
        by (apply Z.pow_le_mono_r; lia).
      assert (Hbig : (10 ^ 250 < 2 ^ 1075)%Z) by (vm_compute; reflexivity).
      assert (Hm : (1 <= Z.of_N (digits_value (ip ++ fp)))%Z) by lia.
      assert (H2 : (0 < 2 ^ 1075)%Z) by (vm_compute; reflexivity).
      revert Hpow Hbig H2.
      generalize (2 ^ 1075)%Z, (10 ^ 250)%Z, (10 ^ Z.of_nat (length fp))%Z.
      intros. nia.
Qed.

Lemma well_formed_command_is_relayed_witness :
  check_mensaje (VString (js "  ingreso,0.05,food,<lunch>  "))
  = inr (js "ingreso,0.05,food,lunch").
Proof.
  assert (Hno : forall s, forallb (fun c => negb (c =? 44)) s = true ->
                          ~ In 44 s).
  { intros s Hs Hin. rewrite forallb_forall in Hs.
    specialize (Hs _ Hin). discriminate. }
  exact (well_formed_command_is_relayed
           (js "  ingreso,0.05,food,<lunch>  ")
           (js "ingreso") (js "0.05") (js "food") (js "lunch")
           ltac:(vm_compute; lia) eq_refl (or_introl eq_refl) eq_refl
           (Hno (js "food") eq_refl) (Hno (js "lunch") eq_refl)).
Defined.

End ValidationExtras.

(** ** Sanitised strings, nonces and the string that is signed *)

Section SigningFacts.

Import Spec.

Lemma strip_markup_id s :
  Forall (fun c => is_markup_char c = false) s -> strip_markup s = s.
Proof.
  unfold strip_markup. induction 1 as [|c s Hc _ IH]; simpl; [reflexivity|].
  rewrite Hc, IH. reflexivity.
Qed.

Lemma trim_clean s : starts_clean s -> ends_clean s -> trim s = s.
Proof.
  intros Hs He. rewrite <- (app_nil_r s) at 1.
  apply trim_app_ws; auto.
Qed.

Lemma filter_same_length {A} (f : A -> bool) (l : list A) :
  length (List.filter f l) = length l -> List.filter f l = l.
Proof.
  induction l as [|a l IH]; simpl; [reflexivity|].
  destruct (f a); simpl; intros H.
  - f_equal. apply IH. lia.
  - pose proof (List.filter_length_le f l). lia.
Qed.

Lemma N_to_string_inj a b : JSON.N_to_string a = JSON.N_to_string b -> a = b.
Proof.
  intros H.
  destruct (N_to_string_spec a) as (_ & _ & <-).
  destruct (N_to_string_spec b) as (_ & _ & <-).
  rewrite H. reflexivity.
Qed.

Lemma N_to_string_head n :
  exists d ds, JSON.N_to_string n = d :: ds /\ isDigit d = true.
Proof.
  destruct (N_to_string_spec n) as (Hne & Hall & _).
  destruct (JSON.N_to_string n) as [|d ds]; [congruence|].
  exists d, ds. simpl in Hall. apply andb_true_iff in Hall. tauto.
Qed.

Lemma number_to_string_inj a b :
  JSON.number_to_string a = JSON.number_to_string b -> a = b.
Proof.
  unfold JSON.number_to_string.
  destruct (Z.ltb_spec a 0) as [Ha|Ha], (Z.ltb_spec b 0) as [Hb|Hb];
    intros H.
  - injection H as H. apply N_to_string_inj in H. lia.
  - destruct (N_to_string_head (Z.to_N b)) as (d & ds & E & Hd).
    rewrite E in H. injection H as <- _. discriminate.
  - destruct (N_to_string_head (Z.to_N a)) as (d & ds & E & Hd).
    rewrite E in H. injection H as -> _. discriminate.
  - apply N_to_string_inj in H. lia.
Qed.

Lemma digits_no_pipe ds : forallb isDigit ds = true -> ~ In 124 ds.
Proof.
  intros H Hin. rewrite forallb_forall in H. specialize (H _ Hin).
  discriminate.
Qed.

Lemma number_to_string_no_pipe z : ~ In 124 (JSON.number_to_string z).
Proof.
  unfold JSON.number_to_string.
  destruct (z <? 0)%Z.
  - intros [H|H]; [discriminate|]. revert H. apply digits_no_pipe.
    apply N_to_string_spec.
  - apply digits_no_pipe. apply N_to_string_spec.
Qed.

Lemma lower_hex_no_pipe s :
  Forall (fun c => is_lower_hex c = true) s -> ~ In 124 s.
Proof.
  intros H Hin. rewrite List.Forall_forall in H. specialize (H _ Hin).
  discriminate.
Qed.

(** A string is cut at its first pipe in one way only. *)
Lemma first_pipe_inj a b x y :
  ~ In 124 a -> ~ In 124 b ->
  a ++ 124 :: x = b ++ 124 :: y -> a = b /\ x = y.
Proof.
  revert b. induction a as [|c a IH]; intros [|d b] Ha Hb H; simpl in *.
  - injection H as <-. auto.
  - injection H as <- _. tauto.
  - injection H as -> _. tauto.
  - injection H as -> H. destruct (IH b) as [-> ->]; auto.
Qed.

Lemma next_nonce_shape n g :
  length (to_hex (next_bytes n g)) = (2 * n)%nat
  /\ Forall (fun c => is_lower_hex c = true) (to_hex (next_bytes n g)).
Proof.
  split.
  - rewrite to_hex_length. unfold next_bytes.
    rewrite length_map, length_seq. reflexivity.
  - apply to_hex_lower, next_bytes_small.
Qed.

(** A string of printable characters other than the quote, the backslash
    and the surrogates goes between the quotes of JSON as it is. *)
Lemma quote_body_plain s :
  Forall (fun c => 32 <= c /\ c <> 34 /\ c <> 92 /\ c < 0xD800) s ->
  JSON.quote_body s = s.
Proof.
  induction 1 as [|c s (H32 & H34 & H92 & Hs) _ IH]; simpl; [reflexivity|].
  assert (Hh : is_high_surrogate c = false).
  { unfold is_high_surrogate. apply andb_false_iff. left.
    apply N.leb_gt. exact Hs. }
  assert (Hl : is_low_surrogate c = false).
  { unfold is_low_surrogate. apply andb_false_iff. left.
    apply N.leb_gt. lia. }
  rewrite Hh, IH. unfold JSON.quote_unit. rewrite Hh, Hl.
  replace (c =? 34) with false by (symmetry; apply N.eqb_neq; lia).
  replace (c =? 92) with false by (symmetry; apply N.eqb_neq; lia).
  replace (c =? 8) with false by (symmetry; apply N.eqb_neq; lia).
  replace (c =? 9) with false by (symmetry; apply N.eqb_neq; lia).
  replace (c =? 10) with false by (symmetry; apply N.eqb_neq; lia).
  replace (c =? 12) with false by (symmetry; apply N.eqb_neq; lia).
  replace (c =? 13) with false by (symmetry; apply N.eqb_neq; lia).
  replace (c <? 32) with false by (symmetry; apply N.ltb_ge; lia).
  reflexivity.
Qed.

Lemma lower_hex_plain s :
  Forall (fun c => is_lower_hex c = true) s ->
  Forall (fun c => 32 <= c /\ c <> 34 /\ c <> 92 /\ c < 0xD800) s.
Proof.
  apply List.Forall_impl. intros c. unfold is_lower_hex, isDigit.
  rewrite orb_true_iff, !andb_true_iff, !N.leb_le. lia.
Qed.

End SigningFacts.

Section SigningExtras.

Import Spec.

(** X2. [sanitizeInput] leaves a string as it is exactly when the string
    holds none of the four characters it deletes and no white space at
    either end. Its result need not be such a string: deleting a
    character can uncover white space, so sanitising twice is not the
    same as sanitising once. *)
Theorem sanitize_fixed_points :
  (forall s,
     sanitizeInput (VString s) = s
     <-> Forall (fun c => is_markup_char c = false) s
         /\ starts_clean s /\ ends_clean s)
  /\ exists s,
       sanitizeInput (VString (sanitizeInput (VString s)))
       <> sanitizeInput (VString s).
Proof.
  split.
  - intros s. unfold sanitizeInput. split.
    + intros H.
      pose proof (strip_markup_length (trim s)) as H1.
      pose proof (trim_length s) as H2.
      assert (Hl : length (strip_markup (trim s)) = length (trim s))
        by (rewrite H in *; lia).
      apply filter_same_length in Hl.
      fold (strip_markup (trim s)) in Hl. rewrite Hl in H.
      pose proof (strip_markup_clean (trim s)) as Hc.
      rewrite Hl, H in Hc.
      destruct (trim_split s) as (l & r & _ & _ & _ & Hs & He).
      rewrite H in Hs, He. auto.
    + intros (Hc & Hs & He).
      rewrite (trim_clean s Hs He). apply strip_markup_id, Hc.
  - exists (js "< a"). vm_compute. discriminate.
Qed.

(** X3. A nonce is two lowercase hexadecimal digits for each random byte
    drawn, so 32 of them for the 16 bytes of a request; it goes into the
    JSON payload between quotes without any escape; and two nonces are
    equal only if the bytes drawn for them are. *)
Theorem nonce_is_hex_of_drawn_bytes n g1 g2 :
  let nonce := fst (generateNonceHex n g1) in
  length nonce = (2 * n)%nat
  /\ Forall (fun c => is_lower_hex c = true) nonce
  /\ JSON.quote nonce = [34] ++ nonce ++ [34]
  /\ (nonce = fst (generateNonceHex n g2)
      <-> next_bytes n g1 = next_bytes n g2).
Proof.
  change (fst (generateNonceHex n g1)) with (to_hex (next_bytes n g1)).
  change (fst (generateNonceHex n g2)) with (to_hex (next_bytes n g2)).
  cbv zeta. destruct (next_nonce_shape n g1) as [Hlen Hhex].
  repeat split; auto.
  - unfold JSON.quote. rewrite quote_body_plain; [reflexivity|].
    apply lower_hex_plain, Hhex.
  - apply to_hex_inj; apply next_bytes_small.
  - intros ->. reflexivity.
Qed.

(** X4. The string that is signed determines its four fields. Nonce and
    timestamp never hold a pipe, so if the user name holds none either,
    two requests whose strings to sign are equal have the same nonce,
    the same timestamp, the same user and the same message, whatever the
    message holds. *)
Theorem signed_string_determines_fields g1 t1 u1 m1 g2 t2 u2 m2 :
  ~ In 124 u1 -> ~ In 124 u2 ->
  dataToSign (next_nonce g1) t1 u1 m1 = dataToSign (next_nonce g2) t2 u2 m2 ->
  next_nonce g1 = next_nonce g2 /\ t1 = t2 /\ u1 = u2 /\ m1 = m2.
Proof.
  intros Hu1 Hu2 H. unfold dataToSign in H. cbn [app] in H.
  apply first_pipe_inj in H;
    try (apply lower_hex_no_pipe, next_nonce_shape).
  destruct H as [Hn H].
  apply first_pipe_inj in H; try apply number_to_string_no_pipe.
  destruct H as [Ht H]. apply number_to_string_inj in Ht.
  apply first_pipe_inj in H; try assumption. tauto.
Qed.

Lemma signed_string_determines_fields_witness :
  next_nonce Sample.rng = next_nonce Sample.rng
  /\ 1700000000%Z = 1700000000%Z
  /\ js "alice" = js "alice"
  /\ js "gasto,1|2,a,b" = js "gasto,1|2,a,b".
Proof.
  assert (Hu : ~ In 124 (js "alice")).
  { intros H. repeat (destruct H as [H|H]; [discriminate|]). exact H. }
  exact (signed_string_determines_fields Sample.rng 1700000000 (js "alice")
           (js "gasto,1|2,a,b") Sample.rng 1700000000 (js "alice")
           (js "gasto,1|2,a,b") Hu Hu eq_refl).
Defined.

End SigningExtras.

(** ** Accounts *)

Section AccountFacts.

Import Auth.

Implicit Types (L : Libraries) (env : gmap string jsstring) (t : UserTable).

Lemma default_number env name fallback :
  env !! name = None -> env_number env name fallback = Decimal false fallback 0.
Proof. intros H. unfold env_number. rewrite H. reflexivity. Qed.

(** The two ways a registration ends: the account is stored, or the rows
    are as they were and the reply does not announce success. *)
Lemma register_cases L env salt now body_usuario clave t :
  let usuario := sanitizeInput body_usuario in
  let r := register L env salt now body_usuario clave t in
  (exists p hashed,
     clave = VString p
     /\ (3 <= length usuario <= 32)%nat
     /\ valid_usuario usuario = true
     /\ length_lt (length p) (MIN_PASSWORD_LENGTH env) = false
     /\ length_gt (length p) (MAX_PASSWORD_LENGTH env) = false
     /\ bcrypt_hash L salt (SALT_ROUNDS env) p = Some hashed
     /\ (length hashed <= 255)%nat
     /\ select_usuario usuario t = []
     /\ r = (answer true mensaje_registrado None,
             {| user_rows :=
                  user_rows t
                    ++ [{| user_id := user_next_id t; user_usuario := usuario;
                           user_clave := hashed; user_fecha := now |}];
                user_next_id := user_next_id t + 1 |}))
  \/ (user_rows (snd r) = user_rows t
      /\ forall mensaje token,
           auth_body (fst r) <> AuthResult true mensaje token).
Proof.
  cbv zeta. unfold register.
  set (usuario := sanitizeInput body_usuario).
  destruct (negb (truthy (VString usuario)) || negb (truthy clave));
    [right; split; [reflexivity | discriminate]|].
  destruct ((length usuario <? 3)%nat || (32 <? length usuario)%nat) eqn:Elen;
    [right; split; [reflexivity | discriminate]|].
  apply orb_false_iff in Elen. destruct Elen as [E3 E32].
  apply Nat.ltb_ge in E3, E32.
  destruct clave as [| | | |p| |items]; cbn [clave_length];
    try (destruct (negb (valid_usuario usuario));
         right; split; [reflexivity | discriminate | reflexivity | discriminate]).
  2: { destruct (length_lt _ _); [right; split; [reflexivity | discriminate]|].
       destruct (length_gt _ _); [right; split; [reflexivity | discriminate]|].
       destruct (negb (valid_usuario usuario)); right; split;
         [reflexivity | discriminate | reflexivity | discriminate]. }
  destruct (length_lt (length p) (MIN_PASSWORD_LENGTH env)) eqn:Emin;
    [right; split; [reflexivity | discriminate]|].
  destruct (length_gt (length p) (MAX_PASSWORD_LENGTH env)) eqn:Emax;
    [right; split; [reflexivity | discriminate]|].
  destruct (valid_usuario usuario) eqn:Evalid; cbn [negb];
    [|right; split; [reflexivity | discriminate]].
  destruct (bcrypt_hash L salt (SALT_ROUNDS env) p) as [hashed|] eqn:Ehash;
    [|right; split; [reflexivity | discriminate]].
  destruct (select_usuario usuario t) as [|row rows] eqn:Esel;
    [|right; split; [reflexivity | discriminate]].
  unfold insert_usuario. rewrite Esel.
  replace (32 <? length usuario)%nat with false
    by (symmetry; apply Nat.ltb_ge; exact E32).
  cbn [orb].
  destruct (255 <? length hashed)%nat eqn:Eh.
  - right. split; [reflexivity | discriminate].
  - apply Nat.ltb_ge in Eh. left. exists p, hashed.
    repeat split; auto.
Qed.

Lemma valid_usuario_chars u :
  valid_usuario u = true -> u <> [] /\ forallb is_user_char u = true.
Proof. destruct u; [discriminate|]. intros H. split; [discriminate | exact H]. Qed.

Lemma user_char_plain c :
  is_user_char c = true ->
  isWhiteSpace c = false /\ is_markup_char c = false /\ c <> 124 /\ c <> 32.
Proof.
  unfold is_user_char, isDigit, isWhiteSpace, is_markup_char.
  rewrite !orb_true_iff, !andb_true_iff, !N.leb_le, !N.eqb_eq.
  intros H.
  assert (Hc : 45 <= c <= 122) by lia.
  assert (H32 : c <> 32) by lia.
  assert (H124 : c <> 124) by lia.
  repeat split; auto.
  - repeat match goal with
           | |- context [c =? ?k] =>
               replace (c =? k) with false by (symmetry; apply N.eqb_neq; lia)
           end.
    replace (8192 <=? c) with false by (symmetry; apply N.leb_gt; lia).
    reflexivity.
  - repeat match goal with
           | |- context [c =? ?k] =>
               replace (c =? k) with false by (symmetry; apply N.eqb_neq; lia)
           end.
    reflexivity.
Qed.

(** A name the pattern accepts comes back from [sanitizeInput] as it
    is. *)
Lemma valid_usuario_sanitized u :
  valid_usuario u = true -> sanitizeInput (VString u) = u.
Proof.
  intros H. apply valid_usuario_chars in H. destruct H as [_ H].
  rewrite forallb_forall in H.
  assert (Hall : forall c, In c u ->
            isWhiteSpace c = false /\ is_markup_char c = false)
    by (intros c Hc; specialize (H c Hc); apply user_char_plain in H; tauto).
  unfold sanitizeInput.
  rewrite trim_clean.
  - apply strip_markup_id. apply List.Forall_forall. intros c Hc.
    apply Hall, Hc.
  - destruct u as [|c u]; [exact I|]. apply Hall. left. reflexivity.
  - unfold Spec.ends_clean. destruct (rev u) as [|c r] eqn:E; [exact I|].
    apply Hall. apply in_rev. rewrite E. left. reflexivity.
Qed.

Lemma select_usuario_in u t row :
  In row (select_usuario u t) <-> In row (user_rows t) /\ user_usuario row = u.
Proof.
  unfold select_usuario. rewrite filter_In, jsstring_eqb_eq. reflexivity.
Qed.

Lemma select_usuario_none u t :
  select_usuario u t = [] <-> ~ In u (map user_usuario (user_rows t)).
Proof.
  split.
  - intros H Hin. apply in_map_iff in Hin. destruct Hin as (row & Hu & Hin).
    assert (Hs : In row (select_usuario u t))
      by (apply select_usuario_in; auto).
    rewrite H in Hs. destruct Hs.
  - intros H. destruct (select_usuario u t) as [|row rows] eqn:E;
      [reflexivity|].
    exfalso. apply H.
    assert (Hs : In row (select_usuario u t)) by (rewrite E; left; reflexivity).
    apply select_usuario_in in Hs. destruct Hs as [Hin <-].
    apply in_map. exact Hin.
Qed.

(** The first row of a name stays the first when rows are added at the
    end. *)
Lemma select_usuario_app u rows more n n' row rest :
  select_usuario u {| user_rows := rows; user_next_id := n |} = row :: rest ->
  exists rest',
    select_usuario u {| user_rows := rows ++ more; user_next_id := n' |}
    = row :: rest'.
Proof.
  unfold select_usuario. cbn [user_rows]. intros H.
  rewrite List.filter_app, H. simpl. eauto.
Qed.

Lemma register_appends L env salt now body_usuario clave t :
  exists more,
    user_rows (snd (register L env salt now body_usuario clave t))
    = user_rows t ++ more.
Proof.
  destruct (register_cases L env salt now body_usuario clave t)
    as [(p & h & _ & _ & _ & _ & _ & _ & _ & _ & ->)|[-> _]].
  - cbn [snd user_rows]. eauto.
  - exists []. symmetry. apply app_nil_r.
Qed.

Lemma register_all_appends L env requests t :
  exists more,
    user_rows (Session.register_all L env requests t) = user_rows t ++ more.
Proof.
  unfold Session.register_all. revert t.
  induction requests as [|r requests IH]; intros t; simpl.
  - exists []. symmetry. apply app_nil_r.
  - destruct (IH (snd (register L env (Session.reg_salt r) (Session.reg_now r)
                         (Session.reg_usuario r) (Session.reg_clave r) t)))
      as [more ->].
    destruct (register_appends L env (Session.reg_salt r) (Session.reg_now r)
                (Session.reg_usuario r) (Session.reg_clave r) t) as [m ->].
    rewrite <- app_assoc. eauto.
Qed.

End AccountFacts.

Section AccountExtras.

Import Auth.

Implicit Types (L : Libraries) (env : gmap string jsstring) (t : UserTable).

(** X5. A registration that answers with success has stored exactly one
    new account, and that account is sound: its name is the sanitised
    name of the request, has 3 to 32 characters, all of them letters,
    digits, underscores or hyphens, and was not in the table; the
    password is a string within the configured bounds, 6 to 128
    characters when none is configured; and what is stored is the bcrypt
    hash of the password, under the next id. *)
Theorem registered_account_is_sound L env salt now body_usuario clave t
    mensaje token :
  auth_body (fst (register L env salt now body_usuario clave t))
  = AuthResult true mensaje token ->
  let usuario := sanitizeInput body_usuario in
  exists p hashed,
    clave = VString p
    /\ (3 <= length usuario <= 32)%nat
    /\ forallb is_user_char usuario = true
    /\ length_lt (length p) (MIN_PASSWORD_LENGTH env) = false
    /\ length_gt (length p) (MAX_PASSWORD_LENGTH env) = false
    /\ (env !! "MIN_PASSWORD_LENGTH" = None -> (6 <= length p)%nat)
    /\ (env !! "MAX_PASSWORD_LENGTH" = None -> (length p <= 128)%nat)
    /\ ~ In usuario (map user_usuario (user_rows t))
    /\ bcrypt_hash L salt (SALT_ROUNDS env) p = Some hashed
    /\ user_rows (snd (register L env salt now body_usuario clave t))
       = user_rows t
           ++ [{| user_id := user_next_id t; user_usuario := usuario;
                  user_clave := hashed; user_fecha := now |}].
Proof.
  intros Hok usuario.
  destruct (register_cases L env salt now body_usuario clave t)
    as [(p & h & Hp & Hlen & Hvalid & Hmin & Hmax & Hhash & _ & Hsel & Hr)
       |[_ Hno]];
    [|exfalso; exact (Hno _ _ Hok)].
  exists p, h. fold usuario in Hlen, Hvalid, Hsel, Hr.
  repeat split; try tauto.
  - apply valid_usuario_chars, Hvalid.
  - intros Henv. unfold MIN_PASSWORD_LENGTH in Hmin.
    rewrite (default_number _ _ _ Henv) in Hmin. cbn in Hmin.
    apply Z.ltb_ge in Hmin. lia.
  - intros Henv. unfold MAX_PASSWORD_LENGTH in Hmax.
    rewrite (default_number _ _ _ Henv) in Hmax. cbn in Hmax.
    apply Z.ltb_ge in Hmax. lia.
  - apply select_usuario_none, Hsel.
  - rewrite Hr. reflexivity.
Qed.

Lemma registered_account_is_sound_witness :
  exists p hashed,
    Session.reg_clave Session.alice = VString p
    /\ (3 <= length (js "alice") <= 32)%nat
    /\ forallb is_user_char (js "alice") = true
    /\ length_lt (length p) (MIN_PASSWORD_LENGTH Session.env) = false
    /\ length_gt (length p) (MAX_PASSWORD_LENGTH Session.env) = false
    /\ (Session.env !! "MIN_PASSWORD_LENGTH" = None -> (6 <= length p)%nat)
    /\ (Session.env !! "MAX_PASSWORD_LENGTH" = None -> (length p <= 128)%nat)
    /\ ~ In (js "alice") (map user_usuario (user_rows empty_users))
    /\ bcrypt_hash Session.plain_libraries Session.salt
         (SALT_ROUNDS Session.env) p = Some hashed
    /\ user_rows
         (snd (register Session.plain_libraries Session.env Session.salt
                 1700000000 (VString (js " alice "))
                 (VString (js "wonderland")) empty_users))
       = user_rows empty_users
           ++ [{| user_id := user_next_id empty_users;
                  user_usuario := js "alice";
                  user_clave := hashed; user_fecha := 1700000000 |}].
Proof.
  exact (registered_account_is_sound Session.plain_libraries Session.env
           Session.salt 1700000000 (VString (js " alice "))
           (VString (js "wonderland")) empty_users mensaje_registrado None
           eq_refl).
Defined.

(** X6. Whatever is asked of it, registration keeps the accounts it
    has: a series of registration requests leaves every row in place and
    unchanged, adds at most one row per request, and neither gives two
    accounts the same name nor stores a name outside the pattern. *)
Theorem accounts_stay_unique L env requests t :
  NoDup (map user_usuario (user_rows t)) ->
  Forall (fun r => valid_usuario (user_usuario r) = true) (user_rows t) ->
  let t' := Session.register_all L env requests t in
  NoDup (map user_usuario (user_rows t'))
  /\ Forall (fun r => valid_usuario (user_usuario r) = true) (user_rows t')
  /\ exists more,
       user_rows t' = user_rows t ++ more
       /\ (length more <= length requests)%nat.
Proof.
  cbv zeta. unfold Session.register_all. revert t.
  induction requests as [|r requests IH]; intros t Hnd Hval; cbn [fold_left].
  - repeat split; auto. exists []. rewrite app_nil_r. split; [reflexivity|].
    simpl. lia.
  - set (t1 := snd (register L env (Session.reg_salt r) (Session.reg_now r)
                      (Session.reg_usuario r) (Session.reg_clave r) t)).
    assert (H1 : NoDup (map user_usuario (user_rows t1))
                 /\ Forall (fun r => valid_usuario (user_usuario r) = true)
                      (user_rows t1)
                 /\ exists more, user_rows t1 = user_rows t ++ more
                                 /\ (length more <= 1)%nat).
    { subst t1.
      destruct (register_cases L env (Session.reg_salt r) (Session.reg_now r)
                  (Session.reg_usuario r) (Session.reg_clave r) t)
        as [(p & h & _ & _ & Hvalid & _ & _ & _ & _ & Hsel & ->)|[Hrows _]].
      - cbn [snd user_rows]. repeat split.
        + rewrite map_app. cbn [map user_usuario].
          apply NoDup_app. repeat split; auto.
          * intros x Hx Hin. apply list_elem_of_In in Hx, Hin.
            destruct Hin as [<-|[]].
            apply select_usuario_none in Hsel. tauto.
          * apply NoDup_singleton.
        + apply Forall_app. split; [exact Hval|].
          constructor; [exact Hvalid | constructor].
        + eexists. split; [reflexivity|]. simpl. lia.
      - rewrite Hrows. repeat split; auto.
        exists []. rewrite app_nil_r. split; [reflexivity|]. simpl. lia. }
    destruct H1 as (Hnd1 & Hval1 & more1 & Hrows1 & Hlen1).
    destruct (IH t1 Hnd1 Hval1) as (Hnd' & Hval' & more & Hrows & Hlen).
    repeat split; auto.
    exists (more1 ++ more). rewrite Hrows, Hrows1, <- app_assoc.
    split; [reflexivity|]. rewrite length_app. simpl. lia.
Qed.

Lemma accounts_stay_unique_witness :
  let t' := Session.register_all Session.plain_libraries Session.env
              [Session.alice; Session.bob; Session.alice] empty_users in
  NoDup (map user_usuario (user_rows t'))
  /\ Forall (fun r => valid_usuario (user_usuario r) = true) (user_rows t')
  /\ exists more,
       user_rows t' = user_rows empty_users ++ more
       /\ (length more <= 3)%nat.
Proof.
  exact (accounts_stay_unique Session.plain_libraries Session.env
           [Session.alice; Session.bob; Session.alice] empty_users
           (NoDup_nil_2 : NoDup (map user_usuario (user_rows empty_users)))
           (List.Forall_nil _)).
Defined.

(** X7. Who has registered can log in. After a successful registration,
    and whatever registrations follow it, a login with the same name and
    password finds the account, so if bcrypt accepts the password
    against the hash it made of it and a token secret is configured, the
    login answers with the token signed for the sanitised name. *)
Theorem registered_user_can_log_in L env r later now t p secret token :
  fst (register L env (Session.reg_salt r) (Session.reg_now r)
         (Session.reg_usuario r) (Session.reg_clave r) t)
  = answer true mensaje_registrado None ->
  Session.reg_clave r = VString p ->
  (forall hashed,
     bcrypt_hash L (Session.reg_salt r) (SALT_ROUNDS env) p = Some hashed ->
     bcrypt_compare L p hashed = true) ->
  env !! "JWT_SECRET" = Some secret -> secret <> [] ->
  jwt_sign L secret (sanitizeInput (Session.reg_usuario r))
    (JWT_EXPIRATION env) now = Some token ->
  login L env now (Session.reg_usuario r) (Session.reg_clave r)
    (Session.register_all L env later
       (snd (register L env (Session.reg_salt r) (Session.reg_now r)
               (Session.reg_usuario r) (Session.reg_clave r) t)))
  = answer true mensaje_login (Some token).
Proof.
  intros Hok Hp Hlib Hsecret Hne Hsign.
  destruct (register_cases L env (Session.reg_salt r) (Session.reg_now r)
              (Session.reg_usuario r) (Session.reg_clave r) t)
    as [(p' & h & Hp' & Hlen & Hvalid & _ & _ & Hhash & _ & Hsel & Hr)
       |[_ Hno]].
  2: { exfalso. apply (Hno mensaje_registrado None). rewrite Hok.
       reflexivity. }
  rewrite Hp in Hp'. injection Hp' as <-.
  rewrite Hr. cbn [snd].
  set (usuario := sanitizeInput (Session.reg_usuario r)) in *.
  set (row := {| user_id := user_next_id t; user_usuario := usuario;
                 user_clave := h; user_fecha := Session.reg_now r |}).
  set (t1 := {| user_rows := user_rows t ++ [row];
                user_next_id := user_next_id t + 1 |}).
  assert (Hsel1 : select_usuario usuario t1 = [row]).
  { unfold select_usuario, t1. cbn [user_rows]. rewrite List.filter_app.
    unfold select_usuario in Hsel. rewrite Hsel. cbn.
    rewrite jsstring_eqb_refl. reflexivity. }
  destruct (register_all_appends L env later t1) as [more Hmore].
  assert (Hsel2 : exists rest,
            select_usuario usuario (Session.register_all L env later t1)
            = row :: rest).
  { unfold select_usuario in *. rewrite Hmore, List.filter_app, Hsel1.
    simpl. eauto. }
  destruct Hsel2 as [rest Hsel2].
  unfold login. fold usuario. rewrite Hsel2, Hp.
  assert (Hu : truthy (VString usuario) = true).
  { destruct usuario; [simpl in Hlen; lia | reflexivity]. }
  assert (Hpn : truthy (VString p) = true).
  { destruct (register_cases L env (Session.reg_salt r) (Session.reg_now r)
                (Session.reg_usuario r) (Session.reg_clave r) t)
      as [_|[_ Hno]].
    - destruct p; [|reflexivity]. exfalso.
      unfold register in Hok. fold usuario in Hok. rewrite Hp in Hok.
      rewrite Hu in Hok. cbn in Hok. discriminate.
    - exfalso. apply (Hno mensaje_registrado None). rewrite Hok.
      reflexivity. }
  rewrite Hu, Hpn. cbn [negb orb user_clave row].
  rewrite (Hlib h Hhash), Hsecret.
  destruct secret as [|c s]; [congruence|]. rewrite Hsign. reflexivity.
Qed.

Lemma registered_user_can_log_in_witness :
  login Session.plain_libraries Session.env 1700000500
    (VString (js " alice ")) (VString (js "wonderland"))
    (Session.register_all Session.plain_libraries Session.env [Session.bob]
       (snd (register Session.plain_libraries Session.env Session.salt
               1700000000 (VString (js " alice "))
               (VString (js "wonderland")) empty_users)))
  = answer true mensaje_login (Some (js "alice.s3cret")).
Proof.
  refine (registered_user_can_log_in Session.plain_libraries Session.env
            Session.alice [Session.bob] 1700000500 empty_users
            (js "wonderland") (js "s3cret") (js "alice.s3cret")
            eq_refl eq_refl _ eq_refl _ eq_refl).
  - intros hashed H. injection H as <-. reflexivity.
  - discriminate.
Defined.


End AccountExtras.

(** ** The token check and the routes behind it *)

Section TokenFacts.

Import Auth.

Implicit Types (L : Libraries) (env : gmap string jsstring).

Lemma bearer_token_second_word scheme token :
  ~ In 32 scheme -> ~ In 32 token ->
  bearer_token (Some (scheme ++ 32 :: token)) = Some token.
Proof.
  intros Hs Ht. unfold bearer_token.
  assert (H : nth_error (split 32 (scheme ++ 32 :: token)) 1 = Some token).
  { rewrite (split_app_sep 32 scheme) by exact Hs.
    rewrite (split_no_sep 32 token) by exact Ht. reflexivity. }
  destruct scheme; exact H.
Qed.

Lemma bearer_token_one_word h :
  h <> [] -> ~ In 32 h -> bearer_token (Some h) = None.
Proof.
  intros Hne Hs. unfold bearer_token. destruct h as [|c h]; [congruence|].
  rewrite (split_no_sep 32 (c :: h)) by exact Hs. reflexivity.
Qed.

Lemma verificarToken_passes L env now authHeader usuario :
  verificarToken L env now authHeader = inr usuario
  <-> exists token secret,
        bearer_token authHeader = Some token
        /\ env !! "JWT_SECRET" = Some secret /\ secret <> []
        /\ jwt_verify L secret token now = Some usuario.
Proof.
  unfold verificarToken. split.
  - destruct (bearer_token authHeader) as [token|]; [|discriminate].
    destruct (env !! "JWT_SECRET") as [[|c s]|]; try discriminate.
    destruct (jwt_verify L (c :: s) token now) as [u|] eqn:E; [|discriminate].
    intros [= <-]. exists token, (c :: s). repeat split; auto; discriminate.
  - intros (token & secret & -> & -> & Hne & Hv).
    destruct secret as [|c s]; [congruence|]. rewrite Hv. reflexivity.
Qed.

End TokenFacts.

Section TokenExtras.

Import Auth.

Implicit Types (L : Libraries) (env : gmap string jsstring).

(** X9. The token check reads the second word of the Authorization
    header, whatever the first word is, and lets a request through
    exactly when there is such a word, a token secret is configured and
    the library verifies the word under it; the request then carries the
    user of the token. A request with no header, or with a header of one
    word, is answered 401; every other refusal is a 403. *)
Theorem token_check L env now authHeader :
  (forall scheme token,
     ~ In 32 scheme -> ~ In 32 token ->
     bearer_token (Some (scheme ++ 32 :: token)) = Some token)
  /\ bearer_token None = None
  /\ (forall h, h <> [] -> ~ In 32 h -> bearer_token (Some h) = None)
  /\ (forall usuario,
        verificarToken L env now authHeader = inr usuario
        <-> exists token secret,
              bearer_token authHeader = Some token
              /\ env !! "JWT_SECRET" = Some secret /\ secret <> []
              /\ jwt_verify L secret token now = Some usuario)
  /\ (forall reply,
        verificarToken L env now authHeader = inl reply ->
        (bearer_token authHeader = None
         /\ reply = {| status := 401; body := BodyError error_sin_token |})
        \/ (bearer_token authHeader <> None
            /\ reply = {| status := 403; body := BodyError error_token |})).
Proof.
  split; [exact bearer_token_second_word|].
  split; [reflexivity|].
  split; [exact bearer_token_one_word|].
  split; [intros usuario; apply verificarToken_passes|].
  intros reply. unfold verificarToken.
  destruct (bearer_token authHeader) as [token|]; [|intros [= <-]; auto].
  destruct (env !! "JWT_SECRET") as [[|c s]|];
    try (intros [= <-]; right; split; [discriminate | reflexivity]).
  destruct (jwt_verify L (c :: s) token now); [discriminate|].
  intros [= <-]. right. split; [discriminate | reflexivity].
Qed.

(** X10. Nothing reaches the transaction server without a verified
    token. If a request to POST /api/send makes any call on a socket,
    then its header held a token the library verified under the
    configured secret, its message passed the checks, a signing key is
    configured, and every line written was composed for the user of
    that token and the sanitised message. *)
Theorem relay_needs_verified_token L env rootCA g now_ms authHeader mensaje
    events :
  let out := send_route L env rootCA g now_ms authHeader mensaje events in
  snd (fst out) <> [] ->
  exists token secret usuario key sanitized,
    bearer_token authHeader = Some token
    /\ env !! "JWT_SECRET" = Some secret
    /\ jwt_verify L secret token (now_ms / 1000) = Some usuario
    /\ check_mensaje mensaje = inr sanitized
    /\ env !! "HMAC_KEY" = Some key /\ key <> []
    /\ forall d,
         In (SocketWrite d) (snd (fst out)) ->
         d = fst (compose key g now_ms usuario sanitized) ++ [10].
Proof.
  cbv zeta. unfold send_route.
  destruct (verificarToken L env (now_ms / 1000) authHeader)
    as [reply|usuario] eqn:Echeck; [cbn [fst snd]; congruence|].
  apply verificarToken_passes in Echeck.
  destruct Echeck as (token & secret & Htok & Hsec & _ & Hver).
  unfold api_send.
  destruct (check_mensaje mensaje) as [reply|sanitized] eqn:Emsg;
    [cbn [fst snd]; congruence|].
  destruct (env !! "HMAC_KEY") as [[|k ey]|] eqn:Ekey.
  - rewrite enviar_unconfigured by (right; exact Ekey).
    cbn [promise calls fst snd]. congruence.
  - intros Hcalls. exists token, secret, usuario, (k :: ey), sanitized.
    repeat split; auto; try discriminate.
    intros d Hd.
    apply (written_is_payload env rootCA g now_ms usuario sanitized events
             (k :: ey) d Ekey); [discriminate|].
    destruct (enviarTransaccionTCP env rootCA g now_ms usuario sanitized
                events) as [run g'].
    cbn [fst]. destruct (promise run) as [[v|e]|]; exact Hd.
  - rewrite enviar_unconfigured by (left; exact Ekey).
    cbn [promise calls fst snd]. congruence.
Qed.

Lemma relay_needs_verified_token_witness :
  let out := send_route Session.plain_libraries Session.env Sample.rootCA
               Sample.rng Sample.now_ms (Some (js "Bearer alice.s3cret"))
               (VString Sample.mensaje)
               [EvSecureConnect; EvData (js "OK")] in
  exists token secret usuario key sanitized,
    bearer_token (Some (js "Bearer alice.s3cret")) = Some token
    /\ Session.env !! "JWT_SECRET" = Some secret
    /\ jwt_verify Session.plain_libraries secret token (Sample.now_ms / 1000)
       = Some usuario
    /\ check_mensaje (VString Sample.mensaje) = inr sanitized
    /\ Session.env !! "HMAC_KEY" = Some key /\ key <> []
    /\ forall d,
         In (SocketWrite d) (snd (fst out)) ->
         d = fst (compose key Sample.rng Sample.now_ms usuario sanitized)
             ++ [10].
Proof.
  apply (relay_needs_verified_token Session.plain_libraries Session.env
           Sample.rootCA Sample.rng Sample.now_ms
           (Some (js "Bearer alice.s3cret")) (VString Sample.mensaje)
           [EvSecureConnect; EvData (js "OK")]).
  vm_compute. discriminate.
Defined.

(** X11. The user a handler is given is the one who logged in. If a
    login handed out a token, the library verifies under a secret what
    it signed under it, and the token holds no space, then a request
    whose header is Bearer and that token passes the token check as the
    sanitised name of the login, which is the name of an account. *)
Theorem token_of_login_names_the_user L env now now' body_usuario clave t
    mensaje token :
  auth_body (login L env now body_usuario clave t)
  = AuthResult true mensaje (Some token) ->
  (forall secret usuario expiresIn,
     env !! "JWT_SECRET" = Some secret ->
     jwt_sign L secret usuario expiresIn now = Some token ->
     jwt_verify L secret token now' = Some usuario) ->
  ~ In 32 token ->
  verificarToken L env now' (Some (js "Bearer" ++ 32 :: token))
  = inr (sanitizeInput body_usuario)
  /\ In (sanitizeInput body_usuario) (map user_usuario (user_rows t)).
Proof.
  intros Hlogin Hlib Hsp.
  assert (Hl : exists p row rest secret,
             select_usuario (sanitizeInput body_usuario) t = row :: rest
             /\ env !! "JWT_SECRET" = Some secret /\ secret <> []
             /\ jwt_sign L secret (sanitizeInput body_usuario)
                  (JWT_EXPIRATION env) now = Some token
             /\ clave = VString p).
  { revert Hlogin. unfold login.
    destruct (negb (truthy (VString (sanitizeInput body_usuario)))
              || negb (truthy clave)); [discriminate|].
    destruct (select_usuario (sanitizeInput body_usuario) t) as [|row rest];
      [discriminate|].
    destruct clave as [| | | |p| |items]; try discriminate.
    destruct (bcrypt_compare L p (user_clave row)); [|discriminate].
    destruct (env !! "JWT_SECRET") as [[|c s]|]; try discriminate.
    destruct (jwt_sign L (c :: s) (sanitizeInput body_usuario)
                (JWT_EXPIRATION env) now) as [tok|] eqn:Es; [|discriminate].
    cbn [answer auth_body]. intros [= _ <-].
    exists p, row, rest, (c :: s). repeat split; auto; discriminate. }
  destruct Hl as (p & row & rest & secret & Hsel & Hsec & Hne & Hsign & _).
  split.
  - apply verificarToken_passes. exists token, secret.
    repeat split; auto.
    + apply bearer_token_second_word; [|exact Hsp].
      intros H. repeat (destruct H as [H|H]; [discriminate|]). exact H.
    + eapply Hlib; [exact Hsec | exact Hsign].
  - assert (Hin : In row (select_usuario (sanitizeInput body_usuario) t))
      by (rewrite Hsel; left; reflexivity).
    apply select_usuario_in in Hin. destruct Hin as [Hin <-].
    apply in_map, Hin.
Qed.

Lemma token_of_login_names_the_user_witness :
  verificarToken Session.plain_libraries Session.env 1700000600
    (Some (js "Bearer" ++ 32 :: js "alice.s3cret"))
  = inr (js "alice")
  /\ In (js "alice")
       (map user_usuario
          (user_rows
             (Session.register_all Session.plain_libraries Session.env
                [Session.alice; Session.bob] empty_users))).
Proof.
  refine (token_of_login_names_the_user Session.plain_libraries Session.env
            1700000500 1700000600 (VString (js "alice "))
            (VString (js "wonderland"))
            (Session.register_all Session.plain_libraries Session.env
               [Session.alice; Session.bob] empty_users)
            mensaje_login (js "alice.s3cret") eq_refl _ _).
  - intros secret usuario expiresIn Hsec H.
    injection Hsec as <-. injection H as H.
    change (js "alice.s3cret") with (js "alice" ++ 46 :: js "s3cret") in H.
    apply app_inv_tail in H. subst usuario. reflexivity.
  - intros H. repeat (destruct H as [H|H]; [discriminate|]). exact H.
Defined.

End TokenExtras.

(** ** The listing and the statistics of movements *)

Section MovementFacts.

Import Movimientos.

Lemma insert_by_fecha_perm m l : Permutation (m :: l) (insert_by_fecha m l).
Proof.
  induction l as [|x l IH]; simpl; [reflexivity|].
  destruct (mov_fecha x <? mov_fecha m)%Z; [reflexivity|].
  rewrite perm_swap. apply perm_skip, IH.
Qed.

Lemma order_by_fecha_perm l : Permutation l (order_by_fecha_desc l).
Proof.
  induction l as [|m l IH]; simpl; [reflexivity|].
  rewrite <- insert_by_fecha_perm. apply perm_skip, IH.
Qed.

Lemma insert_by_fecha_sorted m l :
  StronglySorted (fun a b => (mov_fecha b <= mov_fecha a)%Z) l ->
  StronglySorted (fun a b => (mov_fecha b <= mov_fecha a)%Z)
    (insert_by_fecha m l).
Proof.
  induction 1 as [|x l Hs IH Hx]; simpl.
  - constructor; constructor.
  - destruct (Z.ltb_spec (mov_fecha x) (mov_fecha m)) as [Hlt|Hge].
    + constructor; [constructor; assumption|].
      constructor; [lia|].
      eapply List.Forall_impl; [|exact Hx]. simpl. intros; lia.
    + constructor; [exact IH|].
      apply List.Forall_forall. intros y Hy.
      apply (Permutation_in _ (Permutation_sym (insert_by_fecha_perm m l)))
        in Hy.
      destruct Hy as [<-|Hy]; [exact Hge|].
      rewrite List.Forall_forall in Hx. apply Hx, Hy.
Qed.

Lemma order_by_fecha_sorted l :
  StronglySorted (fun a b => (mov_fecha b <= mov_fecha a)%Z)
    (order_by_fecha_desc l).
Proof.
  induction l as [|m l IH]; simpl; [constructor|].
  apply insert_by_fecha_sorted, IH.
Qed.

Lemma in_firstn {A} n (l : list A) x : In x (firstn n l) -> In x l.
Proof.
  revert n. induction l as [|a l IH]; intros [|n]; simpl; try tauto.
  intros [H|H]; [auto | right; eapply IH, H].
Qed.

Lemma sorted_firstn {A} (R : A -> A -> Prop) n (l : list A) :
  StronglySorted R l -> StronglySorted R (firstn n l).
Proof.
  intros H. revert n. induction H as [|x l Hs IH Hx]; intros [|n]; simpl;
    try constructor.
  - apply IH.
  - apply List.Forall_forall. intros y Hy. apply in_firstn in Hy.
    rewrite List.Forall_forall in Hx. apply Hx, Hy.
Qed.

Lemma sorted_map {A B} (R : A -> A -> Prop) (S : B -> B -> Prop)
    (f : A -> B) (l : list A) :
  (forall a b, R a b -> S (f a) (f b)) ->
  StronglySorted R l -> StronglySorted S (map f l).
Proof.
  intros Hf. induction 1 as [|x l Hs IH Hx]; simpl; constructor; auto.
  apply List.Forall_forall. intros y Hy. apply in_map_iff in Hy.
  destruct Hy as (a & <- & Ha). rewrite List.Forall_forall in Hx.
  apply Hf, Hx, Ha.
Qed.

End MovementFacts.

Section MovementExtras.

Import Movimientos.

(** X12. The query of GET /api/movimientos, which the route runs for the
    user of the verified token, lists movements of that user and of
    nobody else: at most 50 of them, all of them when the user has no
    more than 50, the most recent first, and when there are more than 50
    none that is left out is more recent than one that is listed. *)
Theorem listing_is_the_latest_fifty usuario table :
  let mine := List.filter (de_usuario usuario) table in
  let listed := get_movimientos usuario table in
  length listed = Nat.min 50 (length mine)
  /\ (forall f, In f listed ->
        exists m, In m table /\ nombre_usuario_fk m = usuario
                  /\ f = columnas m)
  /\ StronglySorted (fun a b => (fecha b <= fecha a)%Z) listed
  /\ exists sorted,
       Permutation mine sorted
       /\ listed = map columnas (firstn 50 sorted)
       /\ forall a b, In a (firstn 50 sorted) -> In b (skipn 50 sorted) ->
                      (mov_fecha b <= mov_fecha a)%Z.
Proof.
  cbv zeta. unfold get_movimientos.
  set (mine := List.filter (de_usuario usuario) table).
  pose proof (order_by_fecha_perm mine) as Hperm.
  pose proof (order_by_fecha_sorted mine) as Hsorted.
  repeat split.
  - rewrite length_map, length_firstn, <- (Permutation_length Hperm).
    reflexivity.
  - intros f Hf. apply in_map_iff in Hf. destruct Hf as (m & <- & Hm).
    apply in_firstn in Hm.
    apply (Permutation_in _ (Permutation_sym Hperm)) in Hm.
    apply filter_In in Hm. destruct Hm as [Hm Hu].
    apply jsstring_eqb_eq in Hu. eauto.
  - apply (sorted_map (fun a b => (mov_fecha b <= mov_fecha a)%Z));
      [auto|]. apply sorted_firstn, Hsorted.
  - exists (order_by_fecha_desc mine). repeat split; auto.
    intros a b Ha Hb.
    rewrite <- (firstn_skipn 50 (order_by_fecha_desc mine)) in Hsorted.
    revert Ha Hb Hsorted.
    generalize (firstn 50 (order_by_fecha_desc mine)),
               (skipn 50 (order_by_fecha_desc mine)).
    intros l1 l2. induction l1 as [|x l1 IH]; [intros []|].
    intros Ha Hb Hs. inversion Hs as [|? ? Hs' Hx]; subst.
    destruct Ha as [->|Ha]; [|apply IH; assumption].
    rewrite List.Forall_forall in Hx. apply Hx, in_or_app. right. exact Hb.
Qed.

End MovementExtras.

Section StatisticsFacts.

Import Auth Movimientos.

Lemma filter_flat_map {A B} (p : B -> bool) (f : A -> list B) (l : list A) :
  List.filter p (flat_map f l) = flat_map (fun x => List.filter p (f x)) l.
Proof.
  induction l as [|a l IH]; simpl; [reflexivity|].
  rewrite List.filter_app, IH. reflexivity.
Qed.

Lemma join_rows_user movs u :
  join_rows movs u <> []
  /\ Forall (fun r => fst r = u) (join_rows movs u).
Proof.
  unfold join_rows.
  destruct (List.filter (de_usuario (user_usuario u)) movs) as [|m ms].
  - split; [discriminate | repeat constructor].
  - split; [discriminate|]. apply List.Forall_forall. intros r Hr.
    apply in_map_iff in Hr. destruct Hr as (x & <- & _). reflexivity.
Qed.

Lemma filter_true {A} (p : A -> bool) l :
  Forall (fun x => p x = true) l -> List.filter p l = l.
Proof.
  induction 1 as [|x l Hx _ IH]; simpl; [reflexivity|].
  rewrite Hx, IH. reflexivity.
Qed.

Lemma filter_false {A} (p : A -> bool) l :
  Forall (fun x => p x = false) l -> List.filter p l = [].
Proof.
  induction 1 as [|x l Hx _ IH]; simpl; [reflexivity|].
  rewrite Hx, IH. reflexivity.
Qed.

(** The rows of the join that carry a name: those of the user, if the
    name is that of the user, and none otherwise. *)
Lemma join_rows_filter movs u k :
  List.filter (fun r => jsstring_eqb (user_usuario (fst r)) k)
    (join_rows movs u)
  = if jsstring_eqb (user_usuario u) k then join_rows movs u else [].
Proof.
  destruct (join_rows_user movs u) as [_ H].
  destruct (jsstring_eqb (user_usuario u) k) eqn:E.
  - apply filter_true. eapply List.Forall_impl; [|exact H].
    simpl. intros r ->. exact E.
  - apply filter_false. eapply List.Forall_impl; [|exact H].
    simpl. intros r ->. exact E.
Qed.

Lemma group_of_stranger users movs k :
  ~ In k (map user_usuario users) ->
  List.filter (fun r => jsstring_eqb (user_usuario (fst r)) k)
    (left_join users movs) = [].
Proof.
  unfold left_join. rewrite filter_flat_map.
  induction users as [|u users IH]; simpl; intros H; [reflexivity|].
  rewrite join_rows_filter.
  destruct (jsstring_eqb (user_usuario u) k) eqn:E.
  - apply jsstring_eqb_eq in E. tauto.
  - apply IH. tauto.
Qed.

Lemma group_of_user users movs u :
  NoDup (map user_usuario users) -> In u users ->
  List.filter (fun r => jsstring_eqb (user_usuario (fst r)) (user_usuario u))
    (left_join users movs) = join_rows movs u.
Proof.
  intros Hnd Hin. induction users as [|x users IH]; [destruct Hin|].
  simpl in Hnd. apply NoDup_cons in Hnd. destruct Hnd as [Hx Hnd].
  rewrite list_elem_of_In in Hx.
  unfold left_join. cbn [flat_map]. rewrite List.filter_app.
  fold (left_join users movs). rewrite join_rows_filter.
  destruct Hin as [->|Hin].
  - rewrite jsstring_eqb_refl, group_of_stranger by exact Hx.
    apply app_nil_r.
  - destruct (jsstring_eqb (user_usuario x) (user_usuario u)) eqn:E.
    + apply jsstring_eqb_eq in E. exfalso. apply Hx. rewrite E.
      apply in_map, Hin.
    + apply IH; assumption.
Qed.

Lemma join_keys users movs k :
  In k (map (fun r => user_usuario (fst r)) (left_join users movs))
  <-> In k (map user_usuario users).
Proof.
  unfold left_join. split; intros Hk; apply in_map_iff in Hk; apply in_map_iff.
  - destruct Hk as (r & Hrk & Hr). apply in_flat_map in Hr.
    destruct Hr as (u & Hu & Hr).
    destruct (join_rows_user movs u) as [_ H].
    rewrite List.Forall_forall in H. specialize (H _ Hr).
    exists u. split; [rewrite <- H; exact Hrk | exact Hu].
  - destruct Hk as (u & Huk & Hu).
    destruct (join_rows_user movs u) as [Hne H].
    destruct (join_rows movs u) as [|r rs] eqn:E; [congruence|].
    exists r. split.
    + inversion H as [|? ? Hr _]. rewrite Hr. exact Huk.
    + apply in_flat_map. exists u. rewrite E. split; [exact Hu | left; auto].
Qed.

Lemma distinct_spec keys :
  NoDup (distinct keys) /\ forall k, In k (distinct keys) <-> In k keys.
Proof.
  induction keys as [|k keys [Hnd Hin]]; simpl.
  - split; [constructor | tauto].
  - split.
    + apply NoDup_cons. split.
      * rewrite list_elem_of_In, filter_In, jsstring_eqb_refl.
        intros [_ H]. discriminate.
      * apply NoDup_ListNoDup, List.NoDup_filter, NoDup_ListNoDup, Hnd.
    + intros x. rewrite filter_In, Hin, negb_true_iff, jsstring_eqb_neq.
      destruct (List.list_eq_dec N.eq_dec k x) as [->|Hne]; [tauto|].
      split; [tauto|]. intros [H|H]; [congruence|]. right. auto.
Qed.

Lemma filter_name_absent (l : list jsstring) u :
  ~ In u l -> List.filter (fun k => jsstring_eqb k u) l = [].
Proof.
  intros H. apply filter_false, List.Forall_forall. intros k Hk.
  apply jsstring_eqb_neq. congruence.
Qed.

Lemma filter_name_present (l : list jsstring) u :
  NoDup l -> In u l -> List.filter (fun k => jsstring_eqb k u) l = [u].
Proof.
  induction 1 as [|k l Hk Hnd IH]; intros Hin; [destruct Hin|].
  rewrite list_elem_of_In in Hk. simpl. destruct Hin as [->|Hin].
  - rewrite jsstring_eqb_refl, filter_name_absent by exact Hk. reflexivity.
  - replace (jsstring_eqb k u) with false
      by (symmetry; apply jsstring_eqb_neq; congruence).
    apply IH, Hin.
Qed.

Lemma view_filter (G : jsstring -> list (UserRow * option Movimiento)) ks u :
  List.filter (fun r => jsstring_eqb (est_usuario r) u)
    (map (fun k => agregar k (G k)) ks)
  = map (fun k => agregar k (G k)) (List.filter (fun k => jsstring_eqb k u) ks).
Proof.
  induction ks as [|k ks IH]; simpl; [reflexivity|].
  rewrite IH. destruct (jsstring_eqb k u); reflexivity.
Qed.

(** The answer of the handler: the aggregates over the rows of the user
    in the join, or zeros for a name without an account. *)
Lemma get_estadisticas_eq usuario users movs :
  NoDup (map user_usuario users) ->
  get_estadisticas usuario users movs
  = match List.filter (fun u => jsstring_eqb (user_usuario u) usuario) users with
    | u :: _ => agregar usuario (join_rows movs u)
    | [] =>
        {| est_usuario := usuario; total_movimientos := 0;
           total_ingresos := 0; total_gastos := 0; balance_total := 0;
           ultimo_movimiento := None |}
    end.
Proof.
  intros Hnd. unfold get_estadisticas, v_estadisticas_usuario. cbv zeta.
  rewrite view_filter.
  destruct (distinct_spec
              (map (fun r => user_usuario (fst r)) (left_join users movs)))
    as [Hd Hin].
  destruct (in_dec (List.list_eq_dec N.eq_dec) usuario
              (distinct (map (fun r => user_usuario (fst r))
                           (left_join users movs)))) as [Hk|Hk];
    [rewrite (filter_name_present _ usuario Hd Hk)
    |rewrite (filter_name_absent _ usuario Hk)].
  - apply Hin, join_keys in Hk. apply in_map_iff in Hk.
    destruct Hk as (u & Hu & Hk).
    destruct (List.filter _ users) as [|x xs] eqn:E.
    + assert (Hx : In u (List.filter
                           (fun u => jsstring_eqb (user_usuario u) usuario)
                           users))
        by (apply filter_In; split; [exact Hk | apply jsstring_eqb_eq, Hu]).
      rewrite E in Hx. destruct Hx.
    + assert (Hx : In x (x :: xs)) by (left; reflexivity).
      rewrite <- E in Hx. apply filter_In in Hx. destruct Hx as [Hx Hxu].
      apply jsstring_eqb_eq in Hxu. rewrite <- Hxu.
      cbn [map]. rewrite (group_of_user users movs x Hnd Hx). reflexivity.
  - destruct (List.filter _ users) as [|x xs] eqn:E; [reflexivity|].
    exfalso. apply Hk, Hin, join_keys.
    assert (Hx : In x (x :: xs)) by (left; reflexivity).
    rewrite <- E in Hx. apply filter_In in Hx. destruct Hx as [Hx Hxu].
    apply jsstring_eqb_eq in Hxu. subst usuario. apply in_map, Hx.
Qed.

Lemma suma_cantidad_si kind ms :
  suma (map (cantidad_si kind) (map Some ms))
  = suma (map mov_cantidad
            (List.filter (fun m => jsstring_eqb (mov_tipo m) kind) ms)).
Proof.
  induction ms as [|m ms IH]; simpl; [reflexivity|].
  destruct (jsstring_eqb (mov_tipo m) kind); simpl; rewrite IH; reflexivity.
Qed.

Lemma count_some {A} (ms : list A) :
  length (List.filter (fun m : option A => match m with Some _ => true
                                                     | None => false end)
            (map Some ms)) = length ms.
Proof. induction ms; simpl; congruence. Qed.

Lemma maximo_spec (ms : list Movimiento) :
  match maximo (map (option_map mov_fecha) (map Some ms)) with
  | None => ms = []
  | Some d =>
      (exists m, In m ms /\ mov_fecha m = d)
      /\ forall m, In m ms -> (mov_fecha m <= d)%Z
  end.
Proof.
  induction ms as [|m ms IH]; simpl; [reflexivity|].
  destruct (maximo (map (option_map mov_fecha) (map Some ms))) as [d|].
  - destruct IH as [(x & Hx & Hd) Hall]. split.
    + destruct (Z.max_spec (mov_fecha m) d) as [[_ ->]|[_ ->]]; eauto.
    + intros y [<-|Hy]; [lia|]. specialize (Hall y Hy). lia.
  - subst ms. split; [eauto|]. intros y [<-|[]]. lia.
Qed.

(** The aggregates of the view over the rows of one user. *)
Lemma agregar_join usuario movs u :
  let mine := List.filter (de_usuario (user_usuario u)) movs in
  agregar usuario (join_rows movs u)
  = {| est_usuario := usuario;
       total_movimientos := N.of_nat (length mine);
       total_ingresos :=
         suma (map mov_cantidad
                 (List.filter (fun m => jsstring_eqb (mov_tipo m) (js "ingreso"))
                    mine));
       total_gastos :=
         suma (map mov_cantidad
                 (List.filter (fun m => jsstring_eqb (mov_tipo m) (js "gasto"))
                    mine));
       balance_total :=
         (suma (map mov_cantidad
                  (List.filter (fun m => jsstring_eqb (mov_tipo m) (js "ingreso"))
                     mine))
          - suma (map mov_cantidad
                    (List.filter (fun m => jsstring_eqb (mov_tipo m) (js "gasto"))
                       mine)))%Z;
       ultimo_movimiento :=
         maximo (map (option_map mov_fecha) (map Some mine)) |}.
Proof.
  cbv zeta. unfold join_rows, agregar.
  destruct (List.filter (de_usuario (user_usuario u)) movs) as [|m ms] eqn:E.
  - reflexivity.
  - cbv zeta. rewrite map_map. cbn [snd].
    change (map (fun x => Some x) (m :: ms)) with (map Some (m :: ms)).
    rewrite !suma_cantidad_si, count_some. reflexivity.
Qed.

Lemma suma_by_tipo ms :
  Forall (fun m => tipo_check m = true) ms ->
  (suma (map mov_cantidad
           (List.filter (fun m => jsstring_eqb (mov_tipo m) (js "ingreso")) ms))
   + suma (map mov_cantidad
             (List.filter (fun m => jsstring_eqb (mov_tipo m) (js "gasto")) ms))
   = suma (map mov_cantidad ms))%Z.
Proof.
  induction 1 as [|m ms Hm _ IH]; simpl; [reflexivity|].
  unfold tipo_check in Hm.
  destruct (jsstring_eqb (mov_tipo m) (js "ingreso")) eqn:Ei.
  - apply jsstring_eqb_eq in Ei. rewrite Ei. simpl. lia.
  - rewrite orb_false_l in Hm. rewrite Hm. simpl. lia.
Qed.

End StatisticsFacts.

Section StatisticsExtras.

Import Auth Movimientos.

(** X13. The handler of GET /api/estadisticas, run for the user of the
    verified token, answers with the figures of that user alone, read
    from the view the setup script creates. For a user with an account, the number of movements
    is the number of the user's rows, the income and the expense are the
    sums of the amounts of the user's rows of each kind, the balance is
    their difference, and the last movement is the latest date among the
    rows, or null when there is none; when every row is of one of the two
    kinds, as the table requires, income and expense add up to the sum of
    all amounts. For a name without an account all figures are zero. *)
Theorem statistics_of_a_user usuario users movs :
  NoDup (map user_usuario users) ->
  let mine := List.filter (de_usuario usuario) movs in
  let total kind :=
    suma (map mov_cantidad
            (List.filter (fun m => jsstring_eqb (mov_tipo m) kind) mine)) in
  let stats := get_estadisticas usuario users movs in
  est_usuario stats = usuario
  /\ balance_total stats = (total_ingresos stats - total_gastos stats)%Z
  /\ (In usuario (map user_usuario users) ->
      total_movimientos stats = N.of_nat (length mine)
      /\ total_ingresos stats = total (js "ingreso")
      /\ total_gastos stats = total (js "gasto")
      /\ (Forall (fun m => tipo_check m = true) mine ->
          (total_ingresos stats + total_gastos stats
           = suma (map mov_cantidad mine))%Z)
      /\ match ultimo_movimiento stats with
         | None => mine = []
         | Some d =>
             (exists m, In m mine /\ mov_fecha m = d)
             /\ forall m, In m mine -> (mov_fecha m <= d)%Z
         end)
  /\ (~ In usuario (map user_usuario users) ->
      total_movimientos stats = 0 /\ total_ingresos stats = 0%Z
      /\ total_gastos stats = 0%Z /\ ultimo_movimiento stats = None).
Proof.
  intros Hnd. cbv zeta. rewrite (get_estadisticas_eq usuario users movs Hnd).
  destruct (List.filter (fun u => jsstring_eqb (user_usuario u) usuario) users)
    as [|x xs] eqn:E.
  - cbn [est_usuario balance_total total_ingresos total_gastos
         total_movimientos ultimo_movimiento].
    split; [reflexivity|]. split; [reflexivity|].
    split; [|intros _; repeat split].
    intros Hin. exfalso.
    apply in_map_iff in Hin. destruct Hin as (u & Hu & Hin).
    assert (Hx : In u (List.filter
                         (fun u => jsstring_eqb (user_usuario u) usuario)
                         users))
      by (apply filter_In; split; [exact Hin | apply jsstring_eqb_eq, Hu]).
    rewrite E in Hx. destruct Hx.
  - assert (Hx : In x (x :: xs)) by (left; reflexivity).
    rewrite <- E in Hx. apply filter_In in Hx. destruct Hx as [Hx Hxu].
    apply jsstring_eqb_eq in Hxu.
    rewrite agregar_join. cbv zeta. rewrite Hxu.
    cbn [est_usuario balance_total total_ingresos total_gastos
         total_movimientos ultimo_movimiento].
    split; [reflexivity|]. split; [reflexivity|]. split.
    + intros _. repeat split.
      * apply suma_by_tipo.
      * apply maximo_spec.
    + intros Hno. exfalso. apply Hno. rewrite <- Hxu. apply in_map, Hx.
Qed.

Lemma statistics_of_a_user_witness :
  total_movimientos
    (get_estadisticas (js "alice") Session.users Session.movements) = 3
  /\ total_ingresos
       (get_estadisticas (js "alice") Session.users Session.movements)
     = 100000%Z
  /\ total_movimientos
       (get_estadisticas (js "carol") Session.users Session.movements) = 0.
Proof.
  assert (Hnd : NoDup (map user_usuario Session.users)).
  { apply NoDup_cons_2; [|apply NoDup_cons_2; [|apply NoDup_nil_2]];
      rewrite list_elem_of_In; simpl; intros H;
      repeat (destruct H as [H|H]; [discriminate|]); exact H. }
  pose proof (statistics_of_a_user (js "alice") Session.users
                Session.movements Hnd) as (_ & _ & Ha & _).
  pose proof (statistics_of_a_user (js "carol") Session.users
                Session.movements Hnd) as (_ & _ & _ & Hc).
  destruct Ha as (H1 & H2 & _); [left; reflexivity|].
  destruct Hc as (H3 & _).
  { simpl. intros H. repeat (destruct H as [H|H]; [discriminate|]). exact H. }
  split; [exact H1 | split; [exact H2 | exact H3]].
Defined.

End StatisticsExtras.

(** ** The setup script *)

Section SetupExtras.

Import Setup.

(** X14. The setup script tries to connect at most ten times and stops
    at the first attempt that succeeds. It waits two seconds after each
    failed attempt but the last, so it has waited 2000 ms times the
    number of failures when it connects, and 18000 ms when it gives up
    after ten failures. *)
Theorem connection_is_tried_ten_times connects :
  match connect connects with
  | (Some k, waited) =>
      (1 <= k <= 10)%nat /\ connects k = true
      /\ (forall j, (1 <= j < k)%nat -> connects j = false)
      /\ waited = 2000 * N.of_nat (k - 1)
  | (None, waited) =>
      (forall j, (1 <= j <= 10)%nat -> connects j = false)
      /\ waited = 18000
  end.
Proof.
  pose proof (connect_from_spec maxRetries 1 connects 0
                ltac:(lia) ltac:(reflexivity)) as H.
  unfold connect. unfold maxRetries, retryDelay in *.
  destruct (connect_from 10 1 connects 0) as [[k|] w].
  - destruct H as (H1 & H2 & H3 & ->). repeat split; auto; lia.
  - destruct H as (H1 & ->). split; [exact H1 | reflexivity].
Qed.

(** X15. The setup script rebuilds the database from whatever it finds.
    If bcrypt hashes the password of the initial user and one of the ten
    connection attempts succeeds, every statement of the script is
    accepted, whatever tables and view exist and whatever they hold, and
    the script leaves exactly one account, admin, with that hash and the
    id 1, no movements, an empty nonce ledger and the view. If the
    hashing fails or no attempt connects, the script exits with code 1
    and the database is as it was. *)
Theorem setup_rebuilds_the_database L salts connects now db :
  let hashed := Auth.bcrypt_hash L (salts 0%nat) SALT_ROUNDS (js "admin") in
  let connected := existsb connects (seq 1 10) in
  (forall h,
     hashed = Some h -> (length h <= 255)%nat -> connected = true ->
     setupDatabase L salts connects now db
     = (None,
        {| usuarios :=
             Some {| Auth.user_rows :=
                       [{| Auth.user_id := 1; Auth.user_usuario := js "admin";
                           Auth.user_clave := h; Auth.user_fecha := now |}];
                     Auth.user_next_id := 2 |};
           movimientos := Some [];
           nonces_usados := Some Ledger.empty_table;
           vista := true |}))
  /\ (hashed = None \/ connected = false ->
      setupDatabase L salts connects now db = (Some 1, db)).
Proof.
  cbv zeta. split.
  - intros h Hh Hlen Hconn. apply setup_succeeds; assumption.
  - unfold setupDatabase. rewrite hash_all_iniciales.
    intros [-> | Hconn]; [reflexivity|].
    destruct (Auth.bcrypt_hash L (salts 0%nat) SALT_ROUNDS (js "admin"));
      [|reflexivity].
    pose proof (connect_outcome connects) as Hc.
    destruct (fst (connect connects)); [congruence | reflexivity].
Qed.

End SetupExtras.

Section InitialAccount.

Import Auth.

(** X16. The account the setup script creates can log in. After a run of
    the script that hashed the password and connected, a login as admin
    with the password admin finds the account, so if bcrypt accepts the
    password against the hash it made of it and a token secret is
    configured, the login hands out the token signed for admin. With the
    default bounds, registration would refuse that same password as too
    short, naming the minimum of 6 characters. *)
Theorem initial_account_logs_in L env salts connects now now' db hashed
    secret token :
  bcrypt_hash L (salts 0%nat) Setup.SALT_ROUNDS (js "admin") = Some hashed ->
  (length hashed <= 255)%nat ->
  existsb connects (seq 1 10) = true ->
  bcrypt_compare L (js "admin") hashed = true ->
  env !! "JWT_SECRET" = Some secret -> secret <> [] ->
  jwt_sign L secret (js "admin") (JWT_EXPIRATION env) now' = Some token ->
  (exists t,
     Setup.usuarios (snd (Setup.setupDatabase L salts connects now db))
     = Some t
     /\ login L env now' (VString (js "admin")) (VString (js "admin")) t
        = answer true mensaje_login (Some token))
  /\ (env !! "MIN_PASSWORD_LENGTH" = None ->
      forall salt t,
        register L env salt now' (VString (js "admin")) (VString (js "admin"))
          t
        = ({| auth_status := 400;
              auth_body := AuthErrorWith error_clave_corta
                             (Decimal false 6 0) error_caracteres |}, t)).
Proof.
  intros Hhash Hlen Hconn Hcmp Hsec Hne Hsign. split.
  - rewrite (setup_succeeds L salts connects now db hashed Hhash Hlen Hconn).
    cbn [snd Setup.usuarios].
    eexists. split; [reflexivity|].
    unfold login.
    replace (sanitizeInput (VString (js "admin"))) with (js "admin")
      by reflexivity.
    replace (select_usuario (js "admin") _)
      with [{| user_id := 1; user_usuario := js "admin";
               user_clave := hashed; user_fecha := now |}]
      by reflexivity.
    cbn [truthy negb orb user_clave].
    replace (truthy (VString (js "admin"))) with true by reflexivity.
    cbn [negb orb]. rewrite Hcmp, Hsec.
    destruct secret as [|c s]; [congruence|]. rewrite Hsign. reflexivity.
  - intros Hmin salt t. unfold register.
    replace (sanitizeInput (VString (js "admin"))) with (js "admin")
      by reflexivity.
    unfold MIN_PASSWORD_LENGTH. rewrite (default_number _ _ _ Hmin).
    reflexivity.
Qed.

Lemma initial_account_logs_in_witness :
  (exists t,
     Setup.usuarios
       (snd (Setup.setupDatabase Session.plain_libraries
               (fun _ => Session.salt) (fun i => (3 <=? i)%nat) 1700000000
               {| Setup.usuarios := Some (Session.register_all
                                            Session.plain_libraries Session.env
                                            [Session.alice] empty_users);
                  Setup.movimientos := Some Session.movements;
                  Setup.nonces_usados := Sample.ledger;
                  Setup.vista := true |}))
     = Some t
     /\ login Session.plain_libraries Session.env 1700000900
          (VString (js "admin")) (VString (js "admin")) t
        = answer true mensaje_login (Some (js "admin.s3cret")))
  /\ (Session.env !! "MIN_PASSWORD_LENGTH" = None ->
      forall salt t,
        register Session.plain_libraries Session.env salt 1700000900
          (VString (js "admin")) (VString (js "admin")) t
        = ({| auth_status := 400;
              auth_body := AuthErrorWith error_clave_corta
                             (Decimal false 6 0) error_caracteres |}, t)).
Proof.
  refine (initial_account_logs_in Session.plain_libraries Session.env
            (fun _ => Session.salt) (fun i => (3 <=? i)%nat) 1700000000
            1700000900 _ (js "0123$admin") (js "s3cret") (js "admin.s3cret")
            eq_refl _ eq_refl eq_refl eq_refl _ eq_refl).
  - vm_compute. lia.
  - discriminate.
Defined.

End InitialAccount.

(** ** Shutdown *)

Section ShutdownExtras.

Import Shutdown.

Lemma step_keeps st ev sig :
  handling st = sig
  /\ isShuttingDown st = match sig with Some _ => true | None => false end
  /\ pool_end_calls st = match sig with Some _ => 1 | None => 0 end%nat
  /\ (forall c, exit_code st = Some c ->
        exists s, sig = Some s /\ c = exitCode s) ->
  let sig' := match sig, ev with
              | Some s, _ => Some s
              | None, Signalled s => Some s
              | None, PoolEnded _ => None
              end in
  handling (step st ev) = sig'
  /\ isShuttingDown (step st ev) = match sig' with Some _ => true | None => false end
  /\ pool_end_calls (step st ev) = match sig' with Some _ => 1 | None => 0 end%nat
  /\ (forall c, exit_code (step st ev) = Some c ->
        exists s, sig' = Some s /\ c = exitCode s).
Proof.
  intros (Hh & Hf & Hp & He). cbv zeta. unfold step.
  destruct (exit_code st) as [c|] eqn:Ec.
  - destruct (He c eq_refl) as (s & -> & ->).
    rewrite Ec. repeat split; auto; intros c [= <-]; eauto.
  - destruct ev as [s|ok].
    + rewrite Hf. destruct sig as [s0|].
      * rewrite Ec. repeat split; auto; discriminate.
      * cbn. rewrite Hp. repeat split; auto; discriminate.
    + rewrite Hh. destruct sig as [s0|]; cbn.
      * repeat split; auto; intros c [= <-]; eauto.
      * rewrite Ec. repeat split; auto; discriminate.
Qed.

Lemma fold_keeps events st sig :
  handling st = sig
  /\ isShuttingDown st = match sig with Some _ => true | None => false end
  /\ pool_end_calls st = match sig with Some _ => 1 | None => 0 end%nat
  /\ (forall c, exit_code st = Some c ->
        exists s, sig = Some s /\ c = exitCode s) ->
  let sig' := match sig with
              | Some s => Some s
              | None => first_signal events
              end in
  handling (fold_left step events st) = sig'
  /\ isShuttingDown (fold_left step events st) = match sig' with Some _ => true | None => false end
  /\ pool_end_calls (fold_left step events st) = match sig' with Some _ => 1 | None => 0 end%nat
  /\ (forall c, exit_code (fold_left step events st) = Some c ->
        exists s, sig' = Some s /\ c = exitCode s).
Proof.
  revert st sig. induction events as [|ev events IH]; intros st sig H.
  - cbv zeta. cbn [fold_left first_signal]. destruct sig; exact H.
  - cbn [fold_left]. pose proof (step_keeps st ev sig H) as H1.
    cbv zeta in H1. specialize (IH _ _ H1). cbv zeta in IH |- *.
    destruct sig as [s|]; [exact IH|].
    destruct ev as [s|ok]; exact IH.
Qed.

(** X17. The server shuts down once, for the first signal. Whatever
    signals arrive and whenever the pool finishes closing, the pool is
    asked to close exactly once if any signal arrived and never
    otherwise, later signals change nothing, and if the process exits
    its code is 130 when the first signal was SIGINT and 0 when it was
    SIGTERM. *)
Theorem shutdown_follows_the_first_signal events :
  let st := run events in
  handling st = first_signal events
  /\ pool_end_calls st = match first_signal events with Some _ => 1 | None => 0 end%nat
  /\ (isShuttingDown st = true <-> first_signal events <> None)
  /\ (forall code,
        exit_code st = Some code ->
        exists s, first_signal events = Some s /\ code = exitCode s)
  /\ forall code more,
       exit_code st = Some code ->
       run (events ++ more) = st.
Proof.
  cbv zeta. unfold run.
  destruct (fold_keeps events running None) as (H1 & H2 & H3 & H4).
  { repeat split; auto; discriminate. }
  cbv zeta in *. repeat split; auto.
  - intros H. rewrite H2 in H. destruct (first_signal events); congruence.
  - intros H. rewrite H2. destruct (first_signal events); congruence.
  - intros code more Hc. rewrite fold_left_app.
    generalize dependent (fold_left step events running). intros st _ _ _ _ Hc.
    induction more as [|ev more IH]; [reflexivity|].
    cbn [fold_left]. unfold step at 2. rewrite Hc. exact IH.
Qed.

End ShutdownExtras.

(** ** The bytes that are signed *)

Section EncodingFacts.

Lemma utf8_cons c r :
  utf8 (c :: r)
  = if is_high_surrogate c then
      match r with
      | d :: r' =>
          if is_low_surrogate d then
            (let cp := 0x10000 + (c - 0xD800) * 0x400 + (d - 0xDC00) in
             [0xF0 + cp / 0x40000; 0x80 + (cp / 0x1000) mod 64;
              0x80 + (cp / 64) mod 64; 0x80 + cp mod 64]) ++ utf8 r'
          else replacement_utf8 ++ utf8 r
      | [] => replacement_utf8
      end
    else if is_low_surrogate c then replacement_utf8 ++ utf8 r
    else if c <? 0x80 then c :: utf8 r
    else if c <? 0x800 then [0xC0 + c / 64; 0x80 + c mod 64] ++ utf8 r
    else [0xE0 + c / 0x1000; 0x80 + (c / 64) mod 64; 0x80 + c mod 64]
           ++ utf8 r.
Proof. reflexivity. Qed.

(** A number in base 64. *)
Lemma digits64 x : x = 64 * (x / 64) + x mod 64 /\ x mod 64 < 64.
Proof.
  split; [apply N.div_mod; discriminate | apply N.mod_lt; discriminate].
Qed.

Lemma digits64_three x :
  x = 4096 * (x / 4096) + 64 * ((x / 64) mod 64) + x mod 64
  /\ (x / 64) mod 64 < 64 /\ x mod 64 < 64.
Proof.
  destruct (digits64 x) as [H1 H2]. destruct (digits64 (x / 64)) as [H3 H4].
  rewrite N.Div0.div_div in H3. change (64 * 64) with 4096 in H3.
  revert H1 H2 H3 H4.
  generalize (x / 4096), ((x / 64) mod 64), (x mod 64), (x / 64).
  intros. lia.
Qed.

Lemma digits64_four x :
  x = 262144 * (x / 262144) + 4096 * ((x / 4096) mod 64)
      + 64 * ((x / 64) mod 64) + x mod 64
  /\ (x / 4096) mod 64 < 64 /\ (x / 64) mod 64 < 64 /\ x mod 64 < 64.
Proof.
  destruct (digits64_three x) as (H1 & H2 & H3).
  destruct (digits64 (x / 4096)) as [H4 H5].
  rewrite N.Div0.div_div in H4. change (4096 * 64) with 262144 in H4.
  revert H1 H2 H3 H4 H5.
  generalize (x / 262144), ((x / 4096) mod 64), ((x / 64) mod 64), (x mod 64),
             (x / 4096).
  intros. lia.
Qed.

Lemma surrogate_ranges c :
  (is_high_surrogate c = true <-> 0xD800 <= c <= 0xDBFF)
  /\ (is_low_surrogate c = true <-> 0xDC00 <= c <= 0xDFFF).
Proof.
  unfold is_high_surrogate, is_low_surrogate.
  rewrite !andb_true_iff, !N.leb_le. tauto.
Qed.

(** The encoding of a well-formed string, one character at a time, with
    the range of the first byte of each form. *)
Lemma utf8_unfold c r :
  well_formed (c :: r) = true ->
  (c < 0x80 /\ utf8 (c :: r) = c :: utf8 r /\ well_formed r = true)
  \/ (c < 0x800 /\ 2 <= c / 64 <= 31
      /\ utf8 (c :: r) = (0xC0 + c / 64) :: (0x80 + c mod 64) :: utf8 r
      /\ well_formed r = true)
  \/ (c < 0x10000 /\ c / 0x1000 <= 15
      /\ utf8 (c :: r)
         = (0xE0 + c / 0x1000) :: (0x80 + (c / 64) mod 64)
             :: (0x80 + c mod 64) :: utf8 r
      /\ well_formed r = true)
  \/ (exists d r' cp,
        r = d :: r' /\ 0xD800 <= c <= 0xDBFF /\ 0xDC00 <= d <= 0xDFFF
        /\ cp = 0x10000 + (c - 0xD800) * 0x400 + (d - 0xDC00)
        /\ cp / 0x40000 <= 4
        /\ utf8 (c :: r)
           = (0xF0 + cp / 0x40000) :: (0x80 + (cp / 0x1000) mod 64)
               :: (0x80 + (cp / 64) mod 64) :: (0x80 + cp mod 64) :: utf8 r'
        /\ well_formed r' = true).
Proof.
  intros H. cbn [well_formed] in H.
  apply andb_true_iff in H. destruct H as [Hc H].
  apply N.ltb_lt in Hc. rewrite utf8_cons.
  destruct (surrogate_ranges c) as [Hhigh Hlow].
  destruct (is_high_surrogate c) eqn:Eh.
  - destruct r as [|d r']; [discriminate|].
    apply andb_true_iff in H. destruct H as [Hd Hr]. rewrite Hd.
    apply (proj1 (surrogate_ranges d)) in Hd || idtac.
    right. right. right.
    exists d, r', (0x10000 + (c - 0xD800) * 0x400 + (d - 0xDC00)).
    assert (Hc' : 0xD800 <= c <= 0xDBFF) by (apply Hhigh; reflexivity).
    assert (Hd' : 0xDC00 <= d <= 0xDFFF) by (apply surrogate_ranges, Hd).
    repeat split; try tauto.
    apply N.lt_succ_r. apply N.Div0.div_lt_upper_bound. lia.
  - apply andb_true_iff in H. destruct H as [Hl Hr].
    apply negb_true_iff in Hl. rewrite Hl.
    destruct (N.ltb_spec c 0x80) as [H1|H1]; [left; auto|].
    destruct (N.ltb_spec c 0x800) as [H2|H2].
    + right. left. repeat split; auto.
      * apply N.div_le_lower_bound; [discriminate | lia].
      * apply N.lt_succ_r. apply N.Div0.div_lt_upper_bound. lia.
    + right. right. left. repeat split; auto.
      apply N.lt_succ_r. apply N.Div0.div_lt_upper_bound. lia.
Qed.

Lemma utf8_injective_bounded n :
  forall s1 s2,
    (length s1 <= n)%nat ->
    well_formed s1 = true -> well_formed s2 = true ->
    utf8 s1 = utf8 s2 -> s1 = s2.
Proof.
  assert (Hnil : forall c r, well_formed (c :: r) = true ->
                             utf8 (c :: r) <> []).
  { intros c r Hw.
    destruct (utf8_unfold c r Hw)
      as [(_ & E & _)|[(_ & _ & E & _)|[(_ & _ & E & _)
         |(d & r' & cp & _ & _ & _ & _ & _ & E & _)]]];
      rewrite E; discriminate. }
  induction n as [|n IH]; intros s1 s2 Hlen Hw1 Hw2 H.
  - destruct s1; [|simpl in Hlen; lia].
    destruct s2 as [|c2 r2]; [reflexivity|].
    exfalso. apply (Hnil c2 r2 Hw2). symmetry. exact H.
  - destruct s1 as [|c1 r1]; destruct s2 as [|c2 r2]; try reflexivity.
    + exfalso. apply (Hnil c2 r2 Hw2). symmetry. exact H.
    + exfalso. apply (Hnil c1 r1 Hw1). exact H.
    + simpl in Hlen.
      destruct (utf8_unfold c1 r1 Hw1)
        as [(A1 & E1 & W1)|[(A1 & B1 & E1 & W1)|[(A1 & B1 & E1 & W1)
           |(d1 & r1' & cp1 & -> & A1 & B1 & C1 & D1 & E1 & W1)]]];
      destruct (utf8_unfold c2 r2 Hw2)
        as [(A2 & E2 & W2)|[(A2 & B2 & E2 & W2)|[(A2 & B2 & E2 & W2)
           |(d2 & r2' & cp2 & -> & A2 & B2 & C2 & D2 & E2 & W2)]]];
      rewrite E1, E2 in H; clear E1 E2.
      all: try (exfalso; injection H as H0 _;
                revert H0;
                repeat match goal with
                       | |- context [?a / ?b] => generalize dependent (a / b)
                       end;
                intros; lia).
      * injection H as -> H. f_equal. apply IH; auto. lia.
      * injection H as H0 H1 H.
        assert (c1 = c2).
        { destruct (digits64 c1) as [Hx _], (digits64 c2) as [Hy _].
          revert Hx Hy H0 H1.
          generalize (c1 / 64), (c1 mod 64), (c2 / 64), (c2 mod 64).
          intros. lia. }
        subst. f_equal. apply IH; auto. lia.
      * injection H as H0 H1 H2 H.
        assert (c1 = c2).
        { destruct (digits64_three c1) as [Hx _],
                   (digits64_three c2) as [Hy _].
          revert Hx Hy H0 H1 H2.
          generalize (c1 / 4096), ((c1 / 64) mod 64), (c1 mod 64),
                     (c2 / 4096), ((c2 / 64) mod 64), (c2 mod 64).
          intros. lia. }
        subst. f_equal. apply IH; auto. lia.
      * injection H as H0 H1 H2 H3 H.
        assert (cp1 = cp2).
        { destruct (digits64_four cp1) as [Hx _],
                   (digits64_four cp2) as [Hy _].
          revert Hx Hy H0 H1 H2 H3. clear.
          generalize (cp1 / 262144), ((cp1 / 4096) mod 64),
                     ((cp1 / 64) mod 64), (cp1 mod 64),
                     (cp2 / 262144), ((cp2 / 4096) mod 64),
                     ((cp2 / 64) mod 64), (cp2 mod 64).
          intros. lia. }
        assert (c1 = c2 /\ d1 = d2) by (clear - A1 B1 C1 A2 B2 C2 H4; lia).
        destruct H5 as [-> ->]. do 2 f_equal. apply IH; auto.
        simpl in Hlen. lia.
Qed.

Lemma utf8_ascii c m : c < 0x80 -> utf8 (c :: m) = c :: utf8 m.
Proof.
  intros Hc. rewrite utf8_cons.
  destruct (surrogate_ranges c) as [Hh Hl].
  destruct (is_high_surrogate c); [destruct Hh as [Hh _]; specialize (Hh eq_refl); lia|].
  destruct (is_low_surrogate c); [destruct Hl as [Hl _]; specialize (Hl eq_refl); lia|].
  replace (c <? 128) with true by (symmetry; apply N.ltb_lt; exact Hc).
  reflexivity.
Qed.

(** A character of one byte cuts the encoding in two, whatever stands
    before it. *)
Lemma utf8_app_ascii_bounded n :
  forall x c m,
    (length x <= n)%nat -> c < 0x80 ->
    utf8 (x ++ c :: m) = utf8 x ++ c :: utf8 m.
Proof.
  induction n as [|n IH]; intros x c m Hlen Hc.
  - destruct x; [|simpl in Hlen; lia]. apply utf8_ascii, Hc.
  - destruct x as [|a x]; [apply utf8_ascii, Hc|].
    simpl in Hlen. cbn [app]. rewrite (utf8_cons a (x ++ c :: m)).
    rewrite (utf8_cons a x).
    assert (Hlow : is_low_surrogate c = false).
    { destruct (surrogate_ranges c) as [_ Hl].
      destruct (is_low_surrogate c); [|reflexivity].
      destruct Hl as [Hl _]. specialize (Hl eq_refl). lia. }
    destruct (is_high_surrogate a).
    + destruct x as [|d x]; cbn [app].
      * rewrite Hlow, utf8_ascii by exact Hc. reflexivity.
      * destruct (is_low_surrogate d).
        -- cbv zeta. rewrite IH by (simpl in Hlen; lia || exact Hc).
           rewrite <- ?app_assoc; reflexivity.
        -- change (d :: x ++ c :: m) with ((d :: x) ++ c :: m).
           rewrite IH by (lia || exact Hc).
           rewrite <- ?app_assoc; reflexivity.
    + destruct (is_low_surrogate a);
        [|destruct (a <? 128); [|destruct (a <? 2048)]];
        rewrite IH by (lia || exact Hc);
        rewrite <- ?app_assoc; reflexivity.
Qed.

Lemma well_formed_ascii s :
  Forall (fun c => c < 0x80) s -> well_formed s = true.
Proof.
  induction 1 as [|c s Hc _ IH]; cbn [well_formed]; [reflexivity|].
  destruct (surrogate_ranges c) as [Hh Hl].
  destruct (is_high_surrogate c);
    [destruct Hh as [Hh _]; specialize (Hh eq_refl); lia|].
  destruct (is_low_surrogate c);
    [destruct Hl as [Hl _]; specialize (Hl eq_refl); lia|].
  rewrite IH. replace (c <? 65536) with true
    by (symmetry; apply N.ltb_lt; lia).
  reflexivity.
Qed.

Lemma well_formed_app_bounded n :
  forall a b,
    (length a <= n)%nat ->
    well_formed a = true -> well_formed b = true ->
    well_formed (a ++ b) = true.
Proof.
  induction n as [|n IH]; intros a b Hlen Ha Hb.
  - destruct a; [exact Hb | simpl in Hlen; lia].
  - destruct a as [|c a]; [exact Hb|].
    simpl in Hlen. cbn [app well_formed] in *.
    apply andb_true_iff in Ha. destruct Ha as [Hc Ha]. rewrite Hc.
    cbn [andb]. destruct (is_high_surrogate c).
    + destruct a as [|d a]; [discriminate|]. cbn [app].
      apply andb_true_iff in Ha. destruct Ha as [Hd Ha]. rewrite Hd.
      cbn [andb]. apply IH; auto. simpl in Hlen. lia.
    + apply andb_true_iff in Ha. destruct Ha as [Hl Ha]. rewrite Hl.
      cbn [andb]. apply IH; auto. lia.
Qed.

Lemma well_formed_app a b :
  well_formed a = true -> well_formed b = true ->
  well_formed (a ++ b) = true.
Proof. apply (well_formed_app_bounded (length a)). reflexivity. Qed.

Lemma lower_hex_ascii s :
  Forall (fun c => Spec.is_lower_hex c = true) s ->
  Forall (fun c => c < 0x80) s.
Proof.
  apply List.Forall_impl. intros c. unfold Spec.is_lower_hex, isDigit.
  rewrite orb_true_iff, !andb_true_iff, !N.leb_le. lia.
Qed.

Lemma number_to_string_ascii z :
  Forall (fun c => c < 0x80) (JSON.number_to_string z).
Proof.
  assert (Hd : forall n, Forall (fun c => c < 0x80) (JSON.N_to_string n)).
  { intros n. destruct (N_to_string_spec n) as (_ & Hall & _).
    apply List.Forall_forall. intros c Hc.
    rewrite forallb_forall in Hall. specialize (Hall c Hc).
    unfold isDigit in Hall. apply andb_true_iff in Hall.
    rewrite !N.leb_le in Hall. lia. }
  unfold JSON.number_to_string. destruct (z <? 0)%Z; [|apply Hd].
  constructor; [lia | apply Hd].
Qed.

(** The string to sign is well formed when the user name and the
    message are. *)
Lemma dataToSign_well_formed g t u m :
  well_formed u = true -> well_formed m = true ->
  well_formed (dataToSign (next_nonce g) t u m) = true.
Proof.
  intros Hu Hm. unfold dataToSign.
  apply well_formed_app;
    [apply well_formed_ascii, lower_hex_ascii, next_nonce_shape|].
  apply (well_formed_app [124]); [reflexivity|].
  apply well_formed_app; [apply well_formed_ascii, number_to_string_ascii|].
  apply (well_formed_app [124]); [reflexivity|].
  apply well_formed_app; [exact Hu|].
  apply (well_formed_app [124]); [reflexivity | exact Hm].
Qed.

End EncodingFacts.

Section EncodingExtras.

(** X18. The bytes under the tag say what was signed, for well-formed
    strings only. The tag is computed over the UTF-8 form of the string
    to sign, and on strings in which every surrogate is half of a pair
    that form is one to one: two requests with well-formed user names
    without a pipe and well-formed messages whose bytes to sign are
    equal have the same nonce, timestamp, user and message. A surrogate
    on its own is encoded as the replacement character, so there are two
    different messages, both accepted by the checks, that get the same
    tag under every key, nonce, timestamp and user. *)
Theorem signed_bytes_determine_fields :
  (forall g1 t1 u1 m1 g2 t2 u2 m2,
     well_formed u1 = true -> well_formed u2 = true ->
     well_formed m1 = true -> well_formed m2 = true ->
     ~ In 124 u1 -> ~ In 124 u2 ->
     utf8 (dataToSign (next_nonce g1) t1 u1 m1)
     = utf8 (dataToSign (next_nonce g2) t2 u2 m2) ->
     next_nonce g1 = next_nonce g2 /\ t1 = t2 /\ u1 = u2 /\ m1 = m2)
  /\ exists m1 m2,
       m1 <> m2
       /\ check_mensaje (VString m1) = inr m1
       /\ check_mensaje (VString m2) = inr m2
       /\ forall key nonce t u,
            hmacSha256Hex key (dataToSign nonce t u m1)
            = hmacSha256Hex key (dataToSign nonce t u m2).
Proof.
  split.
  - intros g1 t1 u1 m1 g2 t2 u2 m2 Hu1 Hu2 Hm1 Hm2 Hp1 Hp2 H.
    apply (utf8_injective_bounded _ _ _ (Nat.le_refl _)) in H;
      try (apply dataToSign_well_formed; assumption).
    unfold dataToSign in H. cbn [app] in H.
    apply first_pipe_inj in H;
      try (apply lower_hex_no_pipe, next_nonce_shape).
    destruct H as [Hn H].
    apply first_pipe_inj in H; try apply number_to_string_no_pipe.
    destruct H as [Ht H]. apply number_to_string_inj in Ht.
    apply first_pipe_inj in H; try assumption. tauto.
  - exists (js "gasto,5,a," ++ [0xD800]), (js "gasto,5,a," ++ [0xDC00]).
    split.
    { intros H. apply (f_equal (fun s => nth 10 s 0)) in H.
      vm_compute in H. discriminate. }
    split; [vm_compute; reflexivity|]. split; [vm_compute; reflexivity|].
    intros key nonce t u.
    assert (Hcut : forall m,
              utf8 (dataToSign nonce t u m)
              = utf8 (nonce ++ [124] ++ JSON.number_to_string t ++ [124] ++ u)
                  ++ 124 :: utf8 m).
    { intros m. unfold dataToSign.
      rewrite <- (utf8_app_ascii_bounded _ _ 124 m (Nat.le_refl _))
        by reflexivity.
      rewrite <- !app_assoc. reflexivity. }
    unfold hmacSha256Hex. rewrite !Hcut.
    replace (utf8 (js "gasto,5,a," ++ [0xD800]))
      with (utf8 (js "gasto,5,a," ++ [0xDC00]))
      by (vm_compute; reflexivity).
    reflexivity.
Qed.

End EncodingExtras.

(** ** The replies of POST /api/send *)

Section ReplyFacts.




End ReplyFacts.

Section ReplyExtras.

Import Auth.



End ReplyExtras.

Section NameExtras.

Import Auth.

(** X20. A name that registration accepts is the same everywhere it
    goes. It comes back from [sanitizeInput] as it is, so a login with
    it looks up the very name that was stored; it holds no space, comma
    or pipe, so it is one word of a header and one field of the string
    to sign; it is well formed, and it stands in the JSON payload
    between quotes without any escape. *)
Theorem accepted_name_is_plain u :
  valid_usuario u = true ->
  sanitizeInput (VString u) = u
  /\ ~ In 32 u /\ ~ In 44 u /\ ~ In 124 u
  /\ well_formed u = true
  /\ JSON.quote u = [34] ++ u ++ [34].
Proof.
  intros Hv. split; [apply valid_usuario_sanitized, Hv|].
  apply valid_usuario_chars in Hv. destruct Hv as [_ Hall].
  rewrite forallb_forall in Hall.
  assert (Hrange : Forall (fun c => 45 <= c <= 122 /\ c <> 92) u).
  { apply List.Forall_forall. intros c Hc. specialize (Hall c Hc).
    revert Hall. unfold is_user_char, isDigit.
    rewrite !orb_true_iff, !andb_true_iff, !N.leb_le, !N.eqb_eq. lia. }
  rewrite List.Forall_forall in Hrange.
  assert (Hnot : forall k, (k < 45 \/ 122 < k) -> ~ In k u)
    by (intros k Hk Hin; specialize (Hrange k Hin); lia).
  repeat split; try (apply Hnot; lia).
  - apply well_formed_ascii, List.Forall_forall. intros c Hc.
    specialize (Hrange c Hc). lia.
  - unfold JSON.quote. rewrite quote_body_plain; [reflexivity|].
    apply List.Forall_forall. intros c Hc. specialize (Hrange c Hc). lia.
Qed.

Lemma accepted_name_is_plain_witness :
  sanitizeInput (VString (js "bob_2")) = js "bob_2"
  /\ ~ In 32 (js "bob_2") /\ ~ In 44 (js "bob_2") /\ ~ In 124 (js "bob_2")
  /\ well_formed (js "bob_2") = true
  /\ JSON.quote (js "bob_2") = [34] ++ js "bob_2" ++ [34].
Proof. exact (accepted_name_is_plain (js "bob_2") eq_refl). Defined.

End NameExtras.
